(** * Verification of the vision core of worldmicroscope (services/vision.ts)

    A shallow embedding of the alignment, sharpness and focus-stack merge
    routines and of the code of the components that calls them
    (components/FocusStack.tsx and components/BioModel3D.tsx), followed by
    theorems about them.  The file has three parts: the routines as the
    source writes them, the vocabulary in which their properties are
    stated, and the properties with their proofs.

    Numbers.  A JavaScript [number] is modelled as an extended real: a real
    number, one of the two infinities, or NaN.  Rounding of binary64 and of
    the binary32 cells of a [Float32Array] is not modelled (every finite
    operation is exact) and the two zeros are identified.  Integer-valued
    quantities (widths, heights, loop counters, array indices, 8-bit
    samples) are [Z].  Where a property of the components or of the
    fingerprints would turn a rounded value into a count or a bound (the
    height of the resized frame, a coordinate kept in a [Float32Array]),
    it is stated with a margin, so that it holds of the rounded value of
    the code as well.

    Arrays.  Typed arrays are lists.  A read outside the array is
    [undefined], which every arithmetic use turns into NaN; a write outside
    the array is ignored, as typed arrays do.

    Exceptions.  A routine that can throw returns a [result].  The source
    throws when the canvas gives no 2d context, and [TypedArray.set] throws
    a RangeError when its source is longer than its target.

    Settings.  The source keeps its settings in a global object that the
    user interface may change; here every routine that reads them takes
    the record as an argument, and [SETTINGS] holds the initial values. *)

From Stdlib Require Import ZArith Reals Lra Lia.
From stdpp Require Import base list sorting gmap strings pretty.

Local Open Scope Z_scope.

(** ** Numbers *)

Inductive num : Type :=
  | Fin (r : R)
  | PInf
  | NInf
  | NaN.

Definition Rltb (x y : R) : bool := if Rlt_dec x y then true else false.
Definition Reqb (x y : R) : bool := if Req_dec_T x y then true else false.

Definition ofZ (z : Z) : num := Fin (IZR z).

Definition nneg (a : num) : num :=
  match a with
  | Fin x => Fin (- x)
  | PInf => NInf
  | NInf => PInf
  | NaN => NaN
  end.

Definition nadd (a b : num) : num :=
  match a, b with
  | NaN, _ | _, NaN => NaN
  | Fin x, Fin y => Fin (x + y)
  | PInf, NInf | NInf, PInf => NaN
  | PInf, _ | _, PInf => PInf
  | NInf, _ | _, NInf => NInf
  end.

Definition nsub (a b : num) : num := nadd a (nneg b).

(** Sign of a number: [Some Lt] negative, [Some Eq] zero, [Some Gt]
    positive, [None] for NaN. *)
Definition nsign (a : num) : option comparison :=
  match a with
  | Fin x => Some (if Rltb x 0 then Lt else if Rltb 0 x then Gt else Eq)
  | PInf => Some Gt
  | NInf => Some Lt
  | NaN => None
  end.

Definition nmul (a b : num) : num :=
  match a, b with
  | Fin x, Fin y => Fin (x * y)
  | _, _ =>
      match nsign a, nsign b with
      | Some Eq, _ | _, Some Eq | None, _ | _, None => NaN
      | Some Lt, Some Lt | Some Gt, Some Gt => PInf
      | Some Lt, Some Gt | Some Gt, Some Lt => NInf
      end
  end.

(** Division; a zero divisor is taken as +0. *)
Definition ndiv (a b : num) : num :=
  match a, b with
  | NaN, _ | _, NaN => NaN
  | Fin x, Fin y =>
      if Reqb y 0
      then (if Rltb 0 x then PInf else if Rltb x 0 then NInf else NaN)
      else Fin (x / y)
  | Fin _, _ => Fin 0
  | _, Fin y => if Rltb y 0 then nneg a else a
  | _, _ => NaN
  end.

Definition nabs (a : num) : num :=
  match a with
  | Fin x => Fin (Rabs x)
  | PInf | NInf => PInf
  | NaN => NaN
  end.

Definition nsqrt (a : num) : num :=
  match a with
  | Fin x => if Rltb x 0 then NaN else Fin (sqrt x)
  | PInf => PInf
  | NInf | NaN => NaN
  end.

(** [a < b]; false as soon as one side is NaN. *)
Definition nlt (a b : num) : bool :=
  match a, b with
  | Fin x, Fin y => Rltb x y
  | NInf, Fin _ | NInf, PInf | Fin _, PInf => true
  | _, _ => false
  end.

Definition ngt (a b : num) : bool := nlt b a.

(** [a <= b] and [a >= b]. *)
Definition nle (a b : num) : bool :=
  match a, b with
  | Fin x, Fin y => negb (Rltb y x)
  | NInf, Fin _ | NInf, PInf | Fin _, PInf | PInf, PInf | NInf, NInf => true
  | _, _ => false
  end.

Definition nge (a b : num) : bool := nle b a.

(** [Math.max] of two arguments. *)
Definition nmax (a b : num) : num :=
  match a, b with
  | NaN, _ | _, NaN => NaN
  | _, _ => if nlt a b then b else a
  end.

(** [Math.round]: the nearest integer, halves rounded up. *)
Definition Rround (x : R) : Z := Int_part (x + / 2).

Definition nround (a : num) : num :=
  match a with
  | Fin x => ofZ (Rround x)
  | _ => a
  end.

(** Truncation towards zero. *)
Definition Rtrunc (x : R) : Z :=
  if Rltb x 0 then - Int_part (- x) else Int_part x.

(** The integer stored when a number is assigned to a [Uint8Array] cell. *)
Definition toUint8 (a : num) : Z :=
  match a with
  | Fin x => Rtrunc x mod 256
  | _ => 0
  end.

(** The integer an integer-typed browser argument (a canvas dimension, a
    loop bound) receives from a number that is expected to be integral. *)
Definition toInt (a : num) : Z :=
  match a with
  | Fin x => Rtrunc x
  | _ => 0
  end.

Declare Scope num_scope.
Delimit Scope num_scope with num.
Bind Scope num_scope with num.
Infix "+" := nadd : num_scope.
Infix "-" := nsub : num_scope.
Infix "*" := nmul : num_scope.
Infix "/" := ndiv : num_scope.
Infix "<?" := nlt : num_scope.
Infix ">?" := ngt : num_scope.
Infix "<=?" := nle : num_scope.
Infix ">=?" := nge : num_scope.

(** ** Typed arrays and loops *)

(** [arr[i]] for an integer index: [None] is [undefined]. *)
Definition aget {A} (l : list A) (i : Z) : option A :=
  if i <? 0 then None else l !! Z.to_nat i.

(** [arr[i] = v] on a typed array. *)
Definition aset {A} (l : list A) (i : Z) (v : A) : list A :=
  if i <? 0 then l else <[Z.to_nat i := v]> l.

(** Reading a cell of an 8-bit array or of a [Float32Array] as a number. *)
Definition rd8 (l : list Z) (i : Z) : num :=
  match aget l i with Some v => ofZ v | None => NaN end.

Definition rdf (l : list num) (i : Z) : num :=
  match aget l i with Some v => v | None => NaN end.

(** The integer stored when the value read from an 8-bit cell (or
    [undefined]) is assigned to a [Uint8ClampedArray] cell. *)
Definition toUint8Clamp (o : option Z) : Z :=
  match o with
  | Some v => Z.max 0 (Z.min 255 v)
  | None => 0
  end.

(** The values taken by [i] in [for (i = lo; i < hi; i += step)]. *)
Definition zrange (lo hi step : Z) : list Z :=
  (λ k : nat, lo + step * Z.of_nat k) <$> seq 0 (Z.to_nat ((hi - lo + step - 1) / step)).

Definition for_ {S} (lo hi step : Z) (body : Z → S → S) (s : S) : S :=
  fold_left (λ s i, body i s) (zrange lo hi step) s.

(** [TypedArray.prototype.set]: copies [src] over the start of [dst]. *)
Definition blit {A} (dst src : list A) : list A :=
  src ++ drop (length src) dst.

(** ** Images and settings *)

Record ImageData := mkImageData {
  width : Z;
  height : Z;
  data : list Z
}.

(** An [ImageData] the browser can hand out: positive dimensions and four
    bytes per pixel. *)
Definition wf_image (im : ImageData) : Prop :=
  0 < width im ∧ 0 < height im ∧ Z.of_nat (length (data im)) = 4 * (width im * height im).

Record Settings := mkSettings {
  ALIGNMENT_DOWNSAMPLE : Z;
  SEARCH_WINDOW : Z;
  SHARPNESS_THRESHOLD : R;
  CROP_RATIO : R;
  DRIFT_DEADBAND : R;
  FINGERPRINT_SIZE : Z
}.

Definition SETTINGS : Settings := {|
  ALIGNMENT_DOWNSAMPLE := 128;
  SEARCH_WINDOW := 40;
  SHARPNESS_THRESHOLD := 20;
  CROP_RATIO := 0.6;
  DRIFT_DEADBAND := 0.8;
  FINGERPRINT_SIZE := 16
|}.

Inductive error : Type :=
  | NoContext
  | RangeError.

Inductive result (A : Type) : Type :=
  | Ok (a : A)
  | Err (e : error).
Arguments Ok {A} a.
Arguments Err {A} e.

(** ** computeSharpnessMap *)

Definition computeSharpnessMap (pixels : list Z) (width height : Z) : list num :=
  let map := replicate (Z.to_nat (width * height)) (Fin 0) in
  for_ 1 (height - 1) 1 (λ y map,
    for_ 1 (width - 1) 1 (λ x map,
      let idx := (y * width + x) * 4 in
      let gh := nabs (rd8 pixels (idx - 4) - rd8 pixels (idx + 4)) in
      let gv := nabs (rd8 pixels (idx - width * 4) - rd8 pixels (idx + width * 4)) in
      let mag := nsqrt (gh * gh + gv * gv) in
      aset map (y * width + x) mag) map) map.

(** ** mergeFocusStack *)

(** The body of the two nested loops of [mergeFocusStack] at the output
    pixel [(x, y)], acting on [(resultPixels, resultSharpness)]. *)
Definition mergeStep (width height : Z) (newSharpness : list num) (newData : list Z)
    (offsetX offsetY sensitivity threshold : num) (debugMode : bool)
    (x y : Z) (st : list Z * list num) : list Z * list num :=
  let '(resultPixels, resultSharpness) := st in
  let targetIdx := y * width + x in
  let srcX := nround (ofZ x + offsetX) in
  let srcY := nround (ofZ y + offsetY) in
  if (srcX >=? ofZ 0)%num && (srcX <? ofZ width)%num
     && (srcY >=? ofZ 0)%num && (srcY <? ofZ height)%num then
    let srcIdx := toInt (srcY * ofZ width + srcX) in
    let newVal := rdf newSharpness srcIdx in
    let oldVal := rdf resultSharpness targetIdx in
    let isNewSharp := (newVal >? threshold)%num in
    let isOldSharp := (oldVal >? threshold)%num in
    if isNewSharp && ((newVal >? oldVal + sensitivity)%num || negb isOldSharp) then
      let resultPixels :=
        if debugMode then
          let resultPixels := aset resultPixels (targetIdx * 4) 255 in
          let resultPixels := aset resultPixels (targetIdx * 4 + 1) 0 in
          let resultPixels := aset resultPixels (targetIdx * 4 + 2) 255 in
          aset resultPixels (targetIdx * 4 + 3) 255
        else
          let resultPixels :=
            aset resultPixels (targetIdx * 4) (toUint8Clamp (aget newData (srcIdx * 4))) in
          let resultPixels :=
            aset resultPixels (targetIdx * 4 + 1) (toUint8Clamp (aget newData (srcIdx * 4 + 1))) in
          let resultPixels :=
            aset resultPixels (targetIdx * 4 + 2) (toUint8Clamp (aget newData (srcIdx * 4 + 2))) in
          aset resultPixels (targetIdx * 4 + 3) 255 in
      (resultPixels, aset resultSharpness targetIdx newVal)
    else if negb isOldSharp then
      (aset resultPixels (targetIdx * 4 + 3) 0, aset resultSharpness targetIdx (Fin 0))
    else if isOldSharp then
      let resultPixels :=
        if debugMode then
          let resultPixels := aset resultPixels (targetIdx * 4) 255 in
          let resultPixels := aset resultPixels (targetIdx * 4 + 1) 0 in
          let resultPixels := aset resultPixels (targetIdx * 4 + 2) 255 in
          aset resultPixels (targetIdx * 4 + 3) 255
        else resultPixels in
      (resultPixels, resultSharpness)
    else (resultPixels, resultSharpness)
  else (resultPixels, resultSharpness).

Definition mergeFocusStack (accImageData : ImageData) (accSharpness : list num)
    (newImageData : ImageData) (offsetX offsetY sensitivity threshold : num)
    (debugMode : bool) : result (ImageData * list num) :=
  let width := width accImageData in
  let height := height accImageData in
  let len := width * height in
  let resultPixels := replicate (Z.to_nat (len * 4)) 0 in
  let resultSharpness := replicate (Z.to_nat len) (Fin 0) in
  (* TypedArray.set throws a RangeError when the source does not fit *)
  if (length resultPixels <? length (data accImageData))%nat then Err RangeError else
  let resultPixels := blit resultPixels (data accImageData) in
  if (length resultSharpness <? length accSharpness)%nat then Err RangeError else
  let resultSharpness := blit resultSharpness accSharpness in
  let newSharpness := computeSharpnessMap (data newImageData) width height in
  let '(resultPixels, resultSharpness) :=
    for_ 0 height 1 (λ y st,
      for_ 0 width 1 (λ x st,
        mergeStep width height newSharpness (data newImageData)
          offsetX offsetY sensitivity threshold debugMode x y st) st)
      (resultPixels, resultSharpness) in
  Ok (mkImageData width height resultPixels, resultSharpness).

(** ** Fingerprint similarity *)

Definition getFingerprintSimilarity (fp1 fp2 : list Z) : num :=
  let diff :=
    for_ 0 (Z.of_nat (length fp1)) 1 (λ i diff,
      (diff + nabs (rd8 fp1 i - rd8 fp2 i))%num) (Fin 0) in
  (ofZ 1 - diff / ofZ (Z.of_nat (length fp1) * 255))%num.

(** ** Preprocessing: crop and resize, grayscale, blur, edge map *)

Section Canvas.
(** The browser's canvas, which the repository calls but does not define:
    [has2d w h] tells whether [new OffscreenCanvas(w, h).getContext('2d')]
    is non-null, and [drawImage src cropX cropY cropW cropH w h] is the
    RGBA content read back by [getImageData] after the crop rectangle of
    [src] was drawn onto a [w] by [h] canvas.  The properties below that
    speak of a returned value assume [has2d] at the sizes requested; what
    else a browser may refuse at those sizes is not part of the source. *)
Variable has2d : Z → Z → bool.
Variable drawImage : ImageData → num → num → num → num → Z → Z → list Z.

(** [targetHeight] rounds the exact product [cropH * ratio].  The code
    rounds the binary64 product, which falls on the other side when the
    exact product is a half: a 1792 by 1183 frame at width 128 gives 84.5
    here, rounded to 85, and 84.49999999999999 in the code, rounded to
    84. *)
Definition resizeAndCropImageData (S : Settings) (src : ImageData) (targetWidth : Z)
    : result ImageData :=
  let cropW := (ofZ (width src) * Fin (CROP_RATIO S))%num in
  let cropH := (ofZ (height src) * Fin (CROP_RATIO S))%num in
  let cropX := ((ofZ (width src) - cropW) / ofZ 2)%num in
  let cropY := ((ofZ (height src) - cropH) / ofZ 2)%num in
  let ratio := (ofZ targetWidth / cropW)%num in
  let targetHeight := toInt (nround (cropH * ratio)) in
  if has2d targetWidth targetHeight then
    Ok (mkImageData targetWidth targetHeight
          (drawImage src cropX cropY cropW cropH targetWidth targetHeight))
  else Err NoContext.
End Canvas.

(** The weighted sum is exact here.  In binary64 the sum for a gray pixel
    [(c, c, c)] can fall just below [c] and be stored as [c - 1].  The
    properties below use the gray levels only as bytes, or as equal from
    pixel to pixel in a frame of one colour. *)
Definition toGrayscale (img : ImageData) : list Z :=
  let gray := replicate (Z.to_nat (width img * height img)) 0 in
  for_ 0 (Z.of_nat (length gray)) 1 (λ i gray,
    aset gray i
      (toUint8 (Fin 0.299 * rd8 (data img) (i * 4)
                + Fin 0.587 * rd8 (data img) (i * 4 + 1)
                + Fin 0.114 * rd8 (data img) (i * 4 + 2)))) gray.

Definition fastBlur (pixels : list Z) (width height : Z) : list Z :=
  let output := replicate (length pixels) 0 in
  for_ 1 (height - 1) 1 (λ y output,
    for_ 1 (width - 1) 1 (λ x output,
      let idx := y * width + x in
      let sum :=
        (rd8 pixels (idx - width - 1) + rd8 pixels (idx - width) + rd8 pixels (idx - width + 1) +
         rd8 pixels (idx - 1) + rd8 pixels idx + rd8 pixels (idx + 1) +
         rd8 pixels (idx + width - 1) + rd8 pixels (idx + width) + rd8 pixels (idx + width + 1))%num in
      aset output idx (toUint8 (sum / ofZ 9))) output) output.

Definition computeEdgeMap (pixels : list Z) (width height : Z) : list num :=
  let edges := replicate (Z.to_nat (width * height)) (Fin 0) in
  for_ 1 (height - 1) 1 (λ y edges,
    for_ 1 (width - 1) 1 (λ x edges,
      let idx := y * width + x in
      let gx :=
        (ofZ (-1) * rd8 pixels (idx - width - 1) + ofZ 1 * rd8 pixels (idx - width + 1) +
         ofZ (-2) * rd8 pixels (idx - 1) + ofZ 2 * rd8 pixels (idx + 1) +
         ofZ (-1) * rd8 pixels (idx + width - 1) + ofZ 1 * rd8 pixels (idx + width + 1))%num in
      let gy :=
        (ofZ (-1) * rd8 pixels (idx - width - 1) - ofZ 2 * rd8 pixels (idx - width)
         - ofZ 1 * rd8 pixels (idx - width + 1) +
         ofZ 1 * rd8 pixels (idx + width - 1) + ofZ 2 * rd8 pixels (idx + width)
         + ofZ 1 * rd8 pixels (idx + width + 1))%num in
      aset edges idx (nsqrt (gx * gx + gy * gy))) edges) edges.

(** ** alignFrames *)

(** The two inner loops of the search: the sum of squared differences of
    the two edge maps at offset [(dx, dy)], and the number of samples. *)
Definition scoreAt (width height padding : Z) (edgePrev edgeCurr : list num)
    (dx dy : Z) : num * Z :=
  for_ padding (height - padding) 2 (λ y acc,
    for_ padding (width - padding) 2 (λ x '(diff, count),
      let idx1 := y * width + x in
      let idx2 := (y + dy) * width + (x + dx) in
      let val1 := rdf edgePrev idx1 in
      let val2 := rdf edgeCurr idx2 in
      let d := (val1 - val2)%num in
      ((diff + d * d)%num, count + 1)) acc) (Fin 0, 0).

(** The variables the search loops update.  The keys of [scores] are the
    pairs [(dx, dy)]; the source formats them as the string "dx,dy", which
    determines the pair. *)
Record SearchState := mkSearchState {
  bestX : Z;
  bestY : Z;
  minDiff : num;
  scores : gmap (Z * Z) num
}.

(** The body of the two outer loops at offset [(dx, dy)]. *)
Definition searchStep (width height padding : Z) (edgePrev edgeCurr : list num)
    (dx dy : Z) (st : SearchState) : SearchState :=
  let '(diff, count) := scoreAt width height padding edgePrev edgeCurr dx dy in
  if 0 <? count then
    let scores := <[(dx, dy) := diff]> (scores st) in
    if (diff <? minDiff st)%num
    then mkSearchState dx dy diff scores
    else mkSearchState (bestX st) (bestY st) (minDiff st) scores
  else st.

Definition searchOffsets (sw width height : Z) (edgePrev edgeCurr : list num) : SearchState :=
  let padding := sw + 2 in
  for_ (- sw) (sw + 1) 1 (λ dy st,
    for_ (- sw) (sw + 1) 1 (λ dx st,
      searchStep width height padding edgePrev edgeCurr dx dy st) st)
    (mkSearchState 0 0 PInf ∅).

(** The object [alignFrames] returns; its fields [x] and [y] are named
    [alignX] and [alignY] here. *)
Record Alignment := mkAlignment {
  alignX : num;
  alignY : num;
  confidence : num
}.

(** Sub-pixel refinement, rescaling, deadband and confidence: the part of
    [alignFrames] after the search. *)
Definition refine (S : Settings) (scale : num) (width height : Z) (st : SearchState)
    : Alignment :=
  let bestX := bestX st in
  let bestY := bestY st in
  let subPixelX := ofZ bestX in
  let subPixelY := ofZ bestY in
  let v0 := minDiff st in
  let vxMinus := default v0 (scores st !! (bestX - 1, bestY)) in
  let vxPlus := default v0 (scores st !! (bestX + 1, bestY)) in
  let vyMinus := default v0 (scores st !! (bestX, bestY - 1)) in
  let vyPlus := default v0 (scores st !! (bestX, bestY + 1)) in
  let denomX := (vxMinus - ofZ 2 * v0 + vxPlus)%num in
  let denomY := (vyMinus - ofZ 2 * v0 + vyPlus)%num in
  let subPixelX :=
    if (nabs denomX >? Fin 1e-5)%num
    then (subPixelX + (vxMinus - vxPlus) / (ofZ 2 * denomX))%num else subPixelX in
  let subPixelY :=
    if (nabs denomY >? Fin 1e-5)%num
    then (subPixelY + (vyMinus - vyPlus) / (ofZ 2 * denomY))%num else subPixelY in
  let finalX := (subPixelX * scale)%num in
  let finalY := (subPixelY * scale)%num in
  let dist := nsqrt (finalX * finalX + finalY * finalY) in
  let '(finalX, finalY) :=
    if (dist <? Fin (DRIFT_DEADBAND S))%num then (ofZ 0, ofZ 0) else (finalX, finalY) in
  let confidence :=
    nmax (ofZ 0) (ofZ 1 - minDiff st / ofZ (width * height * 100)) in
  mkAlignment finalX finalY confidence.

Section Align.
Variable has2d : Z → Z → bool.
Variable drawImage : ImageData → num → num → num → num → Z → Z → list Z.

Definition alignFrames (S : Settings) (prev curr : ImageData) : result Alignment :=
  let w := ALIGNMENT_DOWNSAMPLE S in
  let cropW := (ofZ (width prev) * Fin (CROP_RATIO S))%num in
  let scale := (cropW / ofZ w)%num in
  match resizeAndCropImageData has2d drawImage S prev w with
  | Err e => Err e
  | Ok smallPrev =>
  match resizeAndCropImageData has2d drawImage S curr w with
  | Err e => Err e
  | Ok smallCurr =>
    let grayPrev := toGrayscale smallPrev in
    let grayCurr := toGrayscale smallCurr in
    let blurPrev := fastBlur grayPrev w (height smallPrev) in
    let blurCurr := fastBlur grayCurr w (height smallCurr) in
    let edgePrev := computeEdgeMap blurPrev w (height smallPrev) in
    let edgeCurr := computeEdgeMap blurCurr w (height smallCurr) in
    let sw := SEARCH_WINDOW S in
    let width := w in
    let height := height smallPrev in
    let st := searchOffsets sw width height edgePrev edgeCurr in
    Ok (refine S scale width height st)
  end end.

End Align.

(** ** getAverageColor *)

(** [Math.ceil]. *)
Definition Rceil (x : R) : Z := - Int_part (- x).

Definition nceil (a : num) : num :=
  match a with
  | Fin x => ofZ (Rceil x)
  | _ => a
  end.

(** The text a template literal gives for a number that [Math.round]
    returned: an integer, an infinity or NaN. *)
Definition numToString (a : num) : string :=
  match a with
  | Fin x => pretty (Int_part x)
  | PInf => "Infinity"
  | NInf => "-Infinity"
  | NaN => "NaN"
  end.

Definition getAverageColor (img : ImageData) : string :=
  let len := Z.of_nat (length (data img)) in
  let pixelCount := (ofZ len / ofZ 4)%num in
  let '(r, g, b) :=
    for_ 0 len 40 (λ i '(r, g, b),
      ((r + rd8 (data img) i)%num,
       (g + rd8 (data img) (i + 1))%num,
       (b + rd8 (data img) (i + 2))%num)) (Fin 0, Fin 0, Fin 0) in
  let count := nceil (ofZ len / ofZ 40) in
  "rgb(" +:+ numToString (nround (r / count)) +:+ ", "
    +:+ numToString (nround (g / count)) +:+ ", "
    +:+ numToString (nround (b / count)) +:+ ")".

(** * The focus-stack panel (components/FocusStack.tsx)

    [performStacking] is the caller of [getAverageColor], [alignFrames] and
    [mergeFocusStack].  It is modelled as a function of the cells it reads
    and writes: the ref [accumulatorRef] and the state variables of the
    component.  A state setter is a write to the cell, seen by the next
    call.  The function is [async] without any [await]: it runs to its end
    when called, and an exception rejects its promise after the writes made
    so far.  Drawing on the visible canvas is not modelled; of that canvas
    only its presence and whether it gives a 2d context matter here. *)
Module FocusStack.

Record Accumulator := mkAccumulator {
  pixels : ImageData;
  sharpness : list num
}.

Record State := mkState {
  accumulatorRef : option Accumulator;
  sensitivity : num;
  threshold : num;
  debugMode : bool;
  offsetDisplay : num * num;
  isProcessing : bool;
  backgroundColor : string
}.

(** The state of a freshly mounted component. *)
Definition initialState : State := {|
  accumulatorRef := None;
  sensitivity := ofZ 5;
  threshold := ofZ 20;
  debugMode := false;
  offsetDisplay := (ofZ 0, ofZ 0);
  isProcessing := false;
  backgroundColor := "#000000"
|}.

Definition setAccumulator (v : option Accumulator) (st : State) : State :=
  mkState v (sensitivity st) (threshold st) (debugMode st)
    (offsetDisplay st) (isProcessing st) (backgroundColor st).

Definition setOffsetDisplay (v : num * num) (st : State) : State :=
  mkState (accumulatorRef st) (sensitivity st) (threshold st) (debugMode st)
    v (isProcessing st) (backgroundColor st).

Definition setIsProcessing (v : bool) (st : State) : State :=
  mkState (accumulatorRef st) (sensitivity st) (threshold st) (debugMode st)
    (offsetDisplay st) v (backgroundColor st).

Definition setBackgroundColor (v : string) (st : State) : State :=
  mkState (accumulatorRef st) (sensitivity st) (threshold st) (debugMode st)
    (offsetDisplay st) (isProcessing st) v.

(** What a call leaves behind: the cells, the argument [onStack] was called
    with (if it was called) and the exception thrown (if any). *)
Record Outcome := mkOutcome {
  state : State;
  onStack : option Z;
  thrown : option error
}.

(** The blank accumulator the first frame is merged into. *)
Definition emptyAccPixels (currentImageData : ImageData) : ImageData :=
  mkImageData (width currentImageData) (height currentImageData)
    (replicate (Z.to_nat (width currentImageData * height currentImageData * 4)) 0).

Definition emptyAccSharpness (currentImageData : ImageData) : list num :=
  replicate (Z.to_nat (width currentImageData * height currentImageData)) (Fin 0).

Section performStacking.
(** The offscreen canvas [alignFrames] draws on. *)
Variable has2d : Z → Z → bool.
Variable drawImage : ImageData → num → num → num → num → Z → Z → list Z.

(** [canvas] is [None] when [canvasRef.current] is null, and otherwise
    tells whether [getContext('2d')] gives a context. *)
Definition performStacking (S : Settings) (currentImageData : option ImageData)
    (currentDepth : Z) (canvas : option bool) (st : State) : Outcome :=
  match currentImageData, canvas with
  | None, _ | _, None => mkOutcome st None None
  | Some currentImageData, Some ctx =>
    let st := setIsProcessing true st in
    if negb ctx then mkOutcome st None None else
    (* 1. Initialize if empty *)
    let initialize :=
      let avgColor := getAverageColor currentImageData in
      let st := setBackgroundColor avgColor st in
      match mergeFocusStack (emptyAccPixels currentImageData)
              (emptyAccSharpness currentImageData) currentImageData
              (ofZ 0) (ofZ 0) (sensitivity st) (threshold st) (debugMode st) with
      | Err e => mkOutcome st None (Some e)
      | Ok (imageData, sh) =>
        let st := setAccumulator (Some (mkAccumulator imageData sh)) st in
        mkOutcome (setIsProcessing false st) (Some 1) None
      end in
    match accumulatorRef st with
    | None => initialize
    | Some acc =>
      if negb (width (pixels acc) =? width currentImageData)
         || negb (height (pixels acc) =? height currentImageData)
      then initialize else
      (* 2. Align *)
      match alignFrames has2d drawImage S (pixels acc) currentImageData with
      | Err e => mkOutcome st None (Some e)
      | Ok alignment =>
        let '(finalX, finalY) :=
          if (confidence alignment <=? Fin 0.5)%num
             || (nabs (alignX alignment) >? ofZ 100)%num
             || (nabs (alignY alignment) >? ofZ 100)%num
          then (ofZ 0, ofZ 0)
          else (alignX alignment, alignY alignment) in
        let st := setOffsetDisplay (finalX, finalY) st in
        (* 3. Merge *)
        match mergeFocusStack (pixels acc) (sharpness acc) currentImageData
                finalX finalY (sensitivity st) (threshold st) (debugMode st) with
        | Err e => mkOutcome st None (Some e)
        | Ok (imageData, sh) =>
          let st := setAccumulator (Some (mkAccumulator imageData sh)) st in
          mkOutcome (setIsProcessing false st) (Some (currentDepth + 1)) None
        end
      end
    end
  end.
End performStacking.
End FocusStack.

(** * The 3D view (components/BioModel3D.tsx)

    The effect of [PointCloudViz] that turns the sharp pixels of a frame
    into points.  It is modelled as a function of the cells it reads and
    writes: the refs [cursor] and [lastDepth], the array [positions] and
    the draw range of the geometry.  [Math.random] is a stream of reals,
    and the state counts the calls made. *)

(** A [for] loop whose body may [break]: the body returns the new state
    and whether it left the loop. *)
Definition for_break {S} (lo hi step : Z) (body : Z → S → S * bool) (s : S) : S :=
  (fold_left (λ (sb : S * bool) i, if sb.2 then sb else body i sb.1)
     (zrange lo hi step) (s, false)).1.

(** [Math.floor]. *)
Definition nfloor (a : num) : num :=
  match a with
  | Fin x => ofZ (Int_part x)
  | _ => a
  end.

Module BioModel3D.

Definition MAX_POINTS : Z := 500000.
Definition WORLD_WIDTH : R := 4.
Definition WORLD_HEIGHT : R := 2.25.

Record PointCloud := mkPointCloud {
  cursor : Z;
  lastDepth : Z;
  positions : list num;
  drawRange : num * num;
  randomCalls : nat
}.

(** [hasGeometry] tells whether [geometryRef.current] is set. *)
Definition pointCloudEffect (S : Settings) (random : nat → R) (hasGeometry : bool)
    (currentImageData : option ImageData) (currentDepth : Z) (st : PointCloud)
    : PointCloud :=
  (* Reset Logic *)
  if currentDepth =? 0 then
    mkPointCloud 0 0 (positions st)
      (if hasGeometry then (ofZ 0, ofZ 0) else drawRange st) (randomCalls st)
  else
  (* Processing Logic *)
  match currentImageData with
  | None => st
  | Some currentImageData =>
    if currentDepth =? lastDepth st then st else
    let w := width currentImageData in
    let h := height currentImageData in
    let sharpness := computeSharpnessMap (data currentImageData) w h in
    let step := 2 in
    let '(cursor, positions, calls) :=
      for_ 0 h step (λ y s,
        for_break 0 w step (λ x '(cursor, positions, calls),
          let idx := y * w + x in
          if (rdf sharpness idx >? Fin (SHARPNESS_THRESHOLD S) * Fin 1.5)%num then
            if cursor >=? MAX_POINTS * 3 then ((cursor, positions, calls), true) else
            let u := (ofZ x / ofZ w - Fin 0.5)%num in
            let v := (ofZ y / ofZ h - Fin 0.5)%num in
            let wx := (u * Fin WORLD_WIDTH)%num in
            let wy := (nneg v * Fin WORLD_HEIGHT)%num in
            let wz := (ofZ currentDepth * Fin 0.05 + Fin (random calls) * Fin 0.01)%num in
            let positions := aset positions cursor wx in
            let positions := aset positions (cursor + 1) wy in
            let positions := aset positions (cursor + 2) wz in
            ((cursor + 3, positions, Datatypes.S calls), false)
          else ((cursor, positions, calls), false)) s)
        (cursor st, positions st, randomCalls st) in
    mkPointCloud cursor currentDepth positions
      (if hasGeometry then (ofZ 0, (ofZ cursor / ofZ 3)%num) else drawRange st) calls
  end.

(** The two effects of [ReliefViz], on the cells they read and write: the
    data of the height and colour textures ([hData], [cData]), a flag for
    each texture that records the assignment [needsUpdate = true], and the
    refs [initializedRef] and [startStagePos].  [THREE.Color.setHSL] is a
    parameter [setHSL] that gives the [r], [g] and [b] of the colour. *)

Definition MODEL_RES_X : Z := 256.
Definition MODEL_RES_Y : Z := 144.

Record Relief := mkRelief {
  hData : list num;
  cData : list Z;
  heightNeedsUpdate : bool;
  colorNeedsUpdate : bool;
  initializedRef : bool;
  startStagePos : num * num
}.

(** The textures and refs as the component creates them. *)
Definition initialRelief : Relief := {|
  hData := replicate (Z.to_nat (MODEL_RES_X * MODEL_RES_Y)) (Fin 0);
  cData := replicate (Z.to_nat (MODEL_RES_X * MODEL_RES_Y * 4)) 0;
  heightNeedsUpdate := false;
  colorNeedsUpdate := false;
  initializedRef := false;
  startStagePos := (ofZ 0, ofZ 0)
|}.

(** The first effect: reset. *)
Definition reliefReset (currentDepth : Z) (st : Relief) : Relief :=
  if currentDepth =? 0 then
    mkRelief (replicate (length (hData st)) (Fin 0)) (replicate (length (cData st)) 0)
      true true false (startStagePos st)
  else st.

(** The body of the two nested loops of the second effect at the model
    cell [(x, y)], acting on [(hData, cData)]. *)
Definition reliefStep (S : Settings) (setHSL : num → num → num → num * num * num)
    (srcW srcH : Z) (srcData : list Z) (sharpnessMap : list num)
    (deltaX deltaY scaleX scaleY layerHeight : num)
    (x y : Z) (st : list num * list Z) : list num * list Z :=
  let '(hData, cData) := st in
  let modelDeltaX := (deltaX / scaleX)%num in
  let modelDeltaY := (deltaY / scaleY)%num in
  let camX := nfloor (ofZ x - modelDeltaX) in
  let camY := nfloor (ofZ y - modelDeltaY) in
  if (camX >=? ofZ 0)%num && (camX <? ofZ MODEL_RES_X)%num
     && (camY >=? ofZ 0)%num && (camY <? ofZ MODEL_RES_Y)%num then
    let sx := nfloor (camX * scaleX) in
    let sy := nfloor (camY * scaleY) in
    if (sx >=? ofZ 0)%num && (sx <? ofZ srcW)%num
       && (sy >=? ofZ 0)%num && (sy <? ofZ srcH)%num then
      let srcIdxPixel := toInt (sy * ofZ srcW + sx) in
      let srcIdx := srcIdxPixel * 4 in
      let sharpness := rdf sharpnessMap srcIdxPixel in
      (* Stack only if sharp *)
      if (sharpness >? Fin (SHARPNESS_THRESHOLD S))%num then
        let modelIdx := y * MODEL_RES_X + x in
        let r := rd8 srcData srcIdx in
        let g := rd8 srcData (srcIdx + 1) in
        let b := rd8 srcData (srcIdx + 2) in
        let intensity := ((r + g + b) / ofZ 3)%num in
        let hue := (intensity / ofZ 255 * (ofZ 240 / ofZ 360))%num in
        let '(tr, tg, tb) := setHSL hue (Fin 1) (Fin 0.5) in
        let cData := aset cData (modelIdx * 4) (toUint8 (tr * ofZ 255)) in
        let cData := aset cData (modelIdx * 4 + 1) (toUint8 (tg * ofZ 255)) in
        let cData := aset cData (modelIdx * 4 + 2) (toUint8 (tb * ofZ 255)) in
        let cData := aset cData (modelIdx * 4 + 3) 255 in
        (aset hData modelIdx layerHeight, cData)
      else (hData, cData)
    else (hData, cData)
  else (hData, cData).

(** The second effect: the sharp pixels of the frame are stacked on the
    relief at the height of the layer. *)
Definition reliefEffect (S : Settings) (setHSL : num → num → num → num * num * num)
    (currentImageData : option ImageData) (stagePosition : num * num)
    (currentDepth : Z) (st : Relief) : Relief :=
  match currentImageData with
  | None => st
  | Some currentImageData =>
    if currentDepth =? 0 then st else
    let startStagePos := if initializedRef st then startStagePos st else stagePosition in
    let deltaX := (startStagePos.1 - stagePosition.1)%num in
    let deltaY := (startStagePos.2 - stagePosition.2)%num in
    let srcW := width currentImageData in
    let srcH := height currentImageData in
    let srcData := data currentImageData in
    let scaleX := (ofZ srcW / ofZ MODEL_RES_X)%num in
    let scaleY := (ofZ srcH / ofZ MODEL_RES_Y)%num in
    let layerHeight := (ofZ currentDepth * Fin 0.02)%num in
    let sharpnessMap := computeSharpnessMap (data currentImageData) srcW srcH in
    let '(hData, cData) :=
      for_ 0 MODEL_RES_Y 1 (λ y s,
        for_ 0 MODEL_RES_X 1 (λ x s,
          reliefStep S setHSL srcW srcH srcData sharpnessMap
            deltaX deltaY scaleX scaleY layerHeight x y s) s)
        (hData st, cData st) in
    mkRelief hData cData true true true startStagePos
  end.

End BioModel3D.

(** * Vocabulary of the specification

    Definitions used to state and prove the properties: the pieces of the
    routines above (loop bodies, loops as folds), observations of an
    accumulator, the decision rule of the merge as a function of one cell,
    and the claims that the code does not satisfy as they are worded. *)

(** ** Nested loops *)

(** The positions visited by two nested loops, in the order visited. *)
Definition positions (ys xs : list Z) : list (Z * Z) :=
  ys ≫= λ y, (λ x, (x, y)) <$> xs.

(** Two nested loops that write [f x y] at cell [y * w + x] of an array:
    the shape of [computeSharpnessMap], [fastBlur] and [computeEdgeMap]. *)
Definition paint {A} (w : Z) (f : Z → Z → A) (ylo yhi xlo xhi : Z) (m : list A) : list A :=
  for_ ylo yhi 1 (λ y m, for_ xlo xhi 1 (λ x m, aset m (y * w + x) (f x y)) m) m.

(** ** The sharpness map *)

(** The red sample of the pixel at [(x, y)] of an RGBA buffer [w] pixels
    wide, as a real number. *)
Definition red (pixels : list Z) (w x y : Z) : R :=
  IZR (default 0 (aget pixels ((y * w + x) * 4))).

(** The value the inner loop body of [computeSharpnessMap] stores at
    [(x, y)]. *)
Definition sharpnessAt (pixels : list Z) (width x y : Z) : num :=
  let idx := (y * width + x) * 4 in
  let gh := nabs (rd8 pixels (idx - 4) - rd8 pixels (idx + 4)) in
  let gv := nabs (rd8 pixels (idx - width * 4) - rd8 pixels (idx + width * 4)) in
  nsqrt (gh * gh + gv * gv).

(** ** The decision rule of the merge, pixel by pixel

    The definitions below restate the loop body of [mergeFocusStack] as a
    function of one accumulator cell; [mergeStep_self] relates them to the
    code.  The rules are numbered as in the design: 1 pass-through (sampled
    position out of bounds), 3 the new layer wins, 4 neither layer is
    sharp, 5 the old layer is kept. *)

Inductive rule : Type := Rule1 | Rule3 | Rule4 | Rule5.

(** The test [srcX >= 0 && srcX < width && srcY >= 0 && srcY < height]. *)
Definition inBounds (width height : Z) (offsetX offsetY : num) (x y : Z) : bool :=
  let srcX := nround (ofZ x + offsetX) in
  let srcY := nround (ofZ y + offsetY) in
  (srcX >=? ofZ 0)%num && (srcX <? ofZ width)%num
  && (srcY >=? ofZ 0)%num && (srcY <? ofZ height)%num.

Definition srcIndex (width : Z) (offsetX offsetY : num) (x y : Z) : Z :=
  toInt (nround (ofZ y + offsetY) * ofZ width + nround (ofZ x + offsetX)).

Definition mergeRule (width height : Z) (newSharpness : list num)
    (offsetX offsetY sensitivity threshold : num) (x y : Z) (oldVal : num) : rule :=
  if inBounds width height offsetX offsetY x y then
    let newVal := rdf newSharpness (srcIndex width offsetX offsetY x y) in
    if (newVal >? threshold)%num
       && ((newVal >? oldVal + sensitivity)%num || negb (oldVal >? threshold)%num)
    then Rule3
    else if negb (oldVal >? threshold)%num then Rule4 else Rule5
  else Rule1.

Definition magenta : Z * Z * Z * Z := (255, 0, 255, 255).

(** One accumulator cell: the sharpness and the RGBA bytes of pixel [t]. *)
Definition cellAt (px : list Z) (sh : list num) (t : Z) : num * (Z * Z * Z * Z) :=
  (rdf sh t,
   (default 0 (aget px (t * 4)), default 0 (aget px (t * 4 + 1)),
    default 0 (aget px (t * 4 + 2)), default 0 (aget px (t * 4 + 3)))).

Definition mergeCell (width height : Z) (newSharpness : list num) (newData : list Z)
    (offsetX offsetY sensitivity threshold : num) (debugMode : bool)
    (x y : Z) (c : num * (Z * Z * Z * Z)) : num * (Z * Z * Z * Z) :=
  let '(oldVal, (r, g, b, a)) := c in
  match mergeRule width height newSharpness offsetX offsetY sensitivity threshold x y oldVal with
  | Rule1 => c
  | Rule3 =>
      let srcIdx := srcIndex width offsetX offsetY x y in
      (rdf newSharpness srcIdx,
       if debugMode then magenta
       else (toUint8Clamp (aget newData (srcIdx * 4)),
             toUint8Clamp (aget newData (srcIdx * 4 + 1)),
             toUint8Clamp (aget newData (srcIdx * 4 + 2)), 255))
  | Rule4 => (Fin 0, (r, g, b, 0))
  | Rule5 => (oldVal, if debugMode then magenta else (r, g, b, a))
  end.

(** ** Observations of an accumulator and of a merge *)

(** What a caller observes of an accumulator at pixel [(x, y)]. *)
Definition sharpnessOf (sh : list num) (w x y : Z) : num := rdf sh (y * w + x).

Definition pixelOf (im : ImageData) (x y : Z) : Z * Z * Z * Z :=
  (cellAt (data im) [] (y * width im + x)).2.

Definition alphaOf (im : ImageData) (x y : Z) : Z := (pixelOf im x y).2.

(** An accumulator as the caller keeps it: four bytes and one sharpness
    cell per pixel. *)
Definition wf_acc (acc : ImageData) (accSharpness : list num) : Prop :=
  Z.of_nat (length (data acc)) = 4 * (width acc * height acc) ∧
  Z.of_nat (length accSharpness) = width acc * height acc.

(** The accumulator's sharpness at pixel [(x, y)] as the merge reads it: a
    cell missing from a short map reads 0, which is what [set] leaves in
    the zero-filled result. *)
Definition oldSharpness (acc : ImageData) (accSharpness : list num) (x y : Z) : num :=
  default (Fin 0) (aget accSharpness (y * width acc + x)).

(** The rule that decides output pixel [(x, y)] of a merge. *)
Definition ruleAt (acc : ImageData) (accSharpness : list num) (new : ImageData)
    (offsetX offsetY sensitivity threshold : num) (x y : Z) : rule :=
  mergeRule (width acc) (height acc)
    (computeSharpnessMap (data new) (width acc) (height acc))
    offsetX offsetY sensitivity threshold x y (oldSharpness acc accSharpness x y).

(** The accumulator arrays after the two [set] calls that start the merge. *)
Definition startPixels (acc : ImageData) : list Z :=
  blit (replicate (Z.to_nat (width acc * height acc * 4)) 0) (data acc).

Definition startSharpness (acc : ImageData) (accSharpness : list num) : list num :=
  blit (replicate (Z.to_nat (width acc * height acc)) (Fin 0)) accSharpness.

(** The two nested loops of the merge. *)
Definition mergeLoop (w h : Z) (newSh : list num) (newData : list Z)
    (ox oy sens thr : num) (dbg : bool) (st : list Z * list num) : list Z * list num :=
  for_ 0 h 1 (λ y st,
    for_ 0 w 1 (λ x st, mergeStep w h newSh newData ox oy sens thr dbg x y st) st) st.

(** The sample of the new frame that rule 3 copies. *)
Definition newPixel (acc new : ImageData) (ox oy : num) (x y : Z) : Z * Z * Z * Z :=
  let srcIdx := srcIndex (width acc) ox oy x y in
  (toUint8Clamp (aget (data new) (srcIdx * 4)),
   toUint8Clamp (aget (data new) (srcIdx * 4 + 1)),
   toUint8Clamp (aget (data new) (srcIdx * 4 + 2)), 255).

Definition newSharpnessAt (acc new : ImageData) (ox oy : num) (x y : Z) : num :=
  rdf (computeSharpnessMap (data new) (width acc) (height acc))
      (srcIndex (width acc) ox oy x y).

Definition transparent (p : Z * Z * Z * Z) : Z * Z * Z * Z :=
  (p.1.1.1, p.1.1.2, p.1.2, 0).

(** ** The search *)

(** A non-negative real or NaN; a real or NaN. *)
Definition nonneg_or_nan (v : num) : Prop := v = NaN ∨ ∃ r, v = Fin r ∧ (0 <= r)%R.

Definition real_or_nan (v : num) : Prop := v = NaN ∨ ∃ r, v = Fin r.

(** The positions sampled by the two inner loops of the search, and the
    squared difference added at one of them. *)
Definition samples (width height padding : Z) : list (Z * Z) :=
  positions (zrange padding (height - padding) 2) (zrange padding (width - padding) 2).

Definition sqdiff (width : Z) (edgePrev edgeCurr : list num) (dx dy : Z) (p : Z * Z) : num :=
  let d := (rdf edgePrev (p.2 * width + p.1)
            - rdf edgeCurr ((p.2 + dy) * width + (p.1 + dx)))%num in
  (d * d)%num.

(** The offsets of the search window in the order the two outer loops
    visit them: [dy] outermost, both ascending from [- sw]. *)
Definition offsets (sw : Z) : list (Z * Z) :=
  positions (zrange (- sw) (sw + 1) 1) (zrange (- sw) (sw + 1) 1).

(** [(dx1, dy1)] is visited strictly before [(dx2, dy2)]. *)
Definition scanned_before (p q : Z * Z) : Prop :=
  p.2 < q.2 ∨ (p.2 = q.2 ∧ p.1 < q.1).

(** The score of an offset, and the number of samples behind it (the same
    for every offset). *)
Definition score (w h pad : Z) (e1 e2 : list num) (p : Z * Z) : num :=
  (scoreAt w h pad e1 e2 p.1 p.2).1.

Definition sampleCount (w h pad : Z) : Z := Z.of_nat (length (samples w h pad)).

(** The search over a list of offsets, from a given state. *)
Definition searchList (w h pad : Z) (e1 e2 : list num)
    (l : list (Z * Z)) (st : SearchState) : SearchState :=
  fold_left (λ st p, searchStep w h pad e1 e2 p.1 p.2 st) l st.

(** What the search has established after visiting the offsets [l]. *)
Definition search_inv (w h pad : Z) (e1 e2 : list num)
    (l : list (Z * Z)) (st : SearchState) : Prop :=
  (∀ q, q ∈ l → (score w h pad e1 e2 q <? minDiff st)%num = false) ∧
  (∀ k, scores st !! k = if decide (k ∈ l) then Some (score w h pad e1 e2 k) else None) ∧
  ((minDiff st = PInf ∧ bestX st = 0 ∧ bestY st = 0) ∨
   (∃ la lb, l = la ++ (bestX st, bestY st) :: lb ∧
      minDiff st = score w h pad e1 e2 (bestX st, bestY st) ∧
      (minDiff st <? PInf)%num = true ∧
      ∀ q, q ∈ la → (score w h pad e1 e2 q <=? minDiff st)%num = false)).

Definition search_shape (sw w h : Z) (st : SearchState) : Prop :=
  (minDiff st = PInf ∧ bestX st = 0 ∧ bestY st = 0 ∧
   ∀ k v, scores st !! k = Some v → v = NaN) ∨
  (∃ m, minDiff st = Fin m ∧ (0 <= m)%R ∧
   0 ≤ sw ∧ 2 * (sw + 2) < w ∧ 2 * (sw + 2) < h ∧
   ∀ k v, scores st !! k = Some v → nonneg_or_nan v).

(** ** Preprocessing and the pieces of alignFrames *)

(** The value the inner loop body of [fastBlur] stores at [(x, y)]. *)
Definition blurAt (pixels : list Z) (width x y : Z) : Z :=
  let idx := y * width + x in
  let sum :=
    (rd8 pixels (idx - width - 1) + rd8 pixels (idx - width) + rd8 pixels (idx - width + 1) +
     rd8 pixels (idx - 1) + rd8 pixels idx + rd8 pixels (idx + 1) +
     rd8 pixels (idx + width - 1) + rd8 pixels (idx + width) + rd8 pixels (idx + width + 1))%num in
  toUint8 (sum / ofZ 9).

(** The value the inner loop body of [computeEdgeMap] stores at [(x, y)]. *)
Definition edgeAt (pixels : list Z) (width x y : Z) : num :=
  let idx := y * width + x in
  let gx :=
    (ofZ (-1) * rd8 pixels (idx - width - 1) + ofZ 1 * rd8 pixels (idx - width + 1) +
     ofZ (-2) * rd8 pixels (idx - 1) + ofZ 2 * rd8 pixels (idx + 1) +
     ofZ (-1) * rd8 pixels (idx + width - 1) + ofZ 1 * rd8 pixels (idx + width + 1))%num in
  let gy :=
    (ofZ (-1) * rd8 pixels (idx - width - 1) - ofZ 2 * rd8 pixels (idx - width)
     - ofZ 1 * rd8 pixels (idx - width + 1) +
     ofZ 1 * rd8 pixels (idx + width - 1) + ofZ 2 * rd8 pixels (idx + width)
     + ofZ 1 * rd8 pixels (idx + width + 1))%num in
  nsqrt (gx * gx + gy * gy).

(** The refinement of one axis and the deadband, as [refine] computes them. *)
Definition subPixel (best : Z) (v0 vMinus vPlus : num) : num :=
  let denom := (vMinus - ofZ 2 * v0 + vPlus)%num in
  if (nabs denom >? Fin 1e-5)%num
  then (ofZ best + (vMinus - vPlus) / (ofZ 2 * denom))%num else ofZ best.

Definition snap (S : Settings) (finalX finalY : num) : num * num :=
  let dist := nsqrt (finalX * finalX + finalY * finalY) in
  if (dist <? Fin (DRIFT_DEADBAND S))%num then (ofZ 0, ofZ 0) else (finalX, finalY).

(** The height [resizeAndCropImageData] gives the resized image, over
    exact reals as there. *)
Definition smallHeight (S : Settings) (src : ImageData) (targetWidth : Z) : Z :=
  let cropW := (ofZ (width src) * Fin (CROP_RATIO S))%num in
  let cropH := (ofZ (height src) * Fin (CROP_RATIO S))%num in
  let ratio := (ofZ targetWidth / cropW)%num in
  toInt (nround (cropH * ratio)).

(** The canvas gives a context for the resized copy of [src] that
    [alignFrames] asks for. *)
Definition canvasGives (has2d : Z → Z → bool) (S : Settings) (src : ImageData) : Prop :=
  has2d (ALIGNMENT_DOWNSAMPLE S) (smallHeight S src (ALIGNMENT_DOWNSAMPLE S)) = true.

(** The image [resizeAndCropImageData] returns when the canvas gives a
    context. *)
Definition resized (drawImage : ImageData → num → num → num → num → Z → Z → list Z)
    (S : Settings) (src : ImageData) (targetWidth : Z) : ImageData :=
  let cropW := (ofZ (width src) * Fin (CROP_RATIO S))%num in
  let cropH := (ofZ (height src) * Fin (CROP_RATIO S))%num in
  let cropX := ((ofZ (width src) - cropW) / ofZ 2)%num in
  let cropY := ((ofZ (height src) - cropH) / ofZ 2)%num in
  mkImageData targetWidth (smallHeight S src targetWidth)
    (drawImage src cropX cropY cropW cropH targetWidth (smallHeight S src targetWidth)).

(** The edge map [alignFrames] computes from a resized frame, the scale
    factor and the search it runs. *)
Definition edgesOf (drawImage : ImageData → num → num → num → num → Z → Z → list Z)
    (S : Settings) (src : ImageData) : list num :=
  let w := ALIGNMENT_DOWNSAMPLE S in
  let small := resized drawImage S src w in
  computeEdgeMap (fastBlur (toGrayscale small) w (height small)) w (height small).

Definition alignScale (S : Settings) (prev : ImageData) : num :=
  (ofZ (width prev) * Fin (CROP_RATIO S) / ofZ (ALIGNMENT_DOWNSAMPLE S))%num.

Definition alignSearch (drawImage : ImageData → num → num → num → num → Z → Z → list Z)
    (S : Settings) (prev curr : ImageData) : SearchState :=
  searchOffsets (SEARCH_WINDOW S) (ALIGNMENT_DOWNSAMPLE S)
    (smallHeight S prev (ALIGNMENT_DOWNSAMPLE S))
    (edgesOf drawImage S prev) (edgesOf drawImage S curr).

(** ** Frames of one colour *)

(** Every pixel of the image has the colour [(r, g, b)]. *)
Definition uniformRGB (im : ImageData) (r g b : Z) : Prop :=
  ∀ i, 0 ≤ i < width im * height im →
    aget (data im) (i * 4) = Some r ∧
    aget (data im) (i * 4 + 1) = Some g ∧
    aget (data im) (i * 4 + 2) = Some b.

(** The frame of the given dimensions filled with one RGBA colour. *)
Definition solidFrame (w h r g b a : Z) : ImageData :=
  mkImageData w h (concat (replicate (Z.to_nat (w * h)) [r; g; b; a])).

(** The gray level of a colour and the blurred level of a flat patch. *)
Definition grayOf (r g b : Z) : Z :=
  toUint8 (Fin 0.299 * ofZ r + Fin 0.587 * ofZ g + Fin 0.114 * ofZ b).

Definition blurOf (c : Z) : Z :=
  toUint8 ((ofZ c + ofZ c + ofZ c + ofZ c + ofZ c + ofZ c + ofZ c + ofZ c + ofZ c) / ofZ 9).

(** The canvas draws a one-colour source as a one-colour image. *)
Definition keeps_solid
    (drawImage : ImageData → num → num → num → num → Z → Z → list Z) : Prop :=
  ∀ src cx cy cw ch tw th r g b,
    uniformRGB src r g b →
    ∃ r' g' b', uniformRGB (mkImageData tw th (drawImage src cx cy cw ch tw th)) r' g' b'.

(** A canvas that fills the target with the colour of the first pixel of
    the source. *)
Definition fillCanvas (src : ImageData) (cx cy cw ch : num) (tw th : Z) : list Z :=
  data (solidFrame tw th (default 0 (aget (data src) 0)) (default 0 (aget (data src) 1))
          (default 0 (aget (data src) 2)) 255).

(** ** Claims the code does not satisfy as worded, and instances *)

(** A one-pixel accumulator, opaque, of sharpness 5. *)
Definition dot : ImageData := mkImageData 1 1 [9; 9; 9; 255].

(** A 3 by 3 frame; only the red samples at the four neighbours of the
    centre matter: left 10, right 13, above 0, below 4. *)
Definition tile3 : list Z :=
  [0; 0; 0; 255;   0; 0; 0; 255;   0; 0; 0; 255;
   10; 0; 0; 255;  7; 0; 0; 255;   13; 0; 0; 255;
   0; 0; 0; 255;   4; 0; 0; 255;   0; 0; 0; 255].

(** A 4 by 4 frame: black, a green column at [x = 2] and a red column at
    [x = 3].  Its sharpness is 200 at the pixels (2, 1) and (2, 2), whose
    left and right neighbours have the red samples 0 and 200, and 0 at
    every other pixel. *)
Definition tile4 : ImageData := mkImageData 4 4
  [0; 0; 0; 255;   0; 0; 0; 255;   0; 90; 60; 255;   200; 0; 0; 255;
   0; 0; 0; 255;   0; 0; 0; 255;   0; 90; 60; 255;   200; 0; 0; 255;
   0; 0; 0; 255;   0; 0; 0; 255;   0; 90; 60; 255;   200; 0; 0; 255;
   0; 0; 0; 255;   0; 0; 0; 255;   0; 90; 60; 255;   200; 0; 0; 255].

(** A 4 by 4 accumulator: transparent with sharpness 0, but for the pixel
    (0, 0), which is opaque with sharpness 50. *)
Definition spotPixels : ImageData := mkImageData 4 4
  [9; 9; 9; 255;   0; 0; 0; 0;   0; 0; 0; 0;   0; 0; 0; 0;
   0; 0; 0; 0;     0; 0; 0; 0;   0; 0; 0; 0;   0; 0; 0; 0;
   0; 0; 0; 0;     0; 0; 0; 0;   0; 0; 0; 0;   0; 0; 0; 0;
   0; 0; 0; 0;     0; 0; 0; 0;   0; 0; 0; 0;   0; 0; 0; 0].

Definition spotSharpness : list num :=
  [Fin 50; Fin 0; Fin 0; Fin 0;   Fin 0; Fin 0; Fin 0; Fin 0;
   Fin 0; Fin 0; Fin 0; Fin 0;    Fin 0; Fin 0; Fin 0; Fin 0].

(** C1 as stated: two identical 64 by 64 frames of one gray level align
    at offset (0, 0) with confidence 1. *)
Definition flat_frames_claim : Prop :=
  ∀ (has2d : Z → Z → bool) drawImage g,
    has2d 128 128 = true → keeps_solid drawImage →
    alignFrames has2d drawImage SETTINGS
      (solidFrame 64 64 g g g 255) (solidFrame 64 64 g g g 255)
    = Ok (mkAlignment (Fin 0) (Fin 0) (Fin 1)).

(** C3 as stated, for the merge: a new frame whose dimensions differ from
    the accumulator's makes [mergeFocusStack] signal an error. *)
Definition merge_mismatch_claim : Prop :=
  ∀ acc accSh new ox oy sens thr dbg,
    wf_acc acc accSh → wf_image new →
    width new ≠ width acc ∨ height new ≠ height acc →
    ∃ e, mergeFocusStack acc accSh new ox oy sens thr dbg = Err e.

(** C5 as stated: if every sharpness value of the accumulator and every
    computed sharpness value of the new frame is below the threshold, every
    pixel of the result has alpha 0 and sharpness 0. *)
Definition transparent_background_claim : Prop :=
  ∀ acc accSh new ox oy sens thr dbg im sh,
    wf_acc acc accSh →
    (∀ v, v ∈ accSh → (v <? thr)%num = true) →
    (∀ v, v ∈ computeSharpnessMap (data new) (width acc) (height acc) →
          (v <? thr)%num = true) →
    mergeFocusStack acc accSh new ox oy sens thr dbg = Ok (im, sh) →
    ∀ x y, 0 ≤ x < width acc → 0 ≤ y < height acc →
      alphaOf im x y = 0 ∧ sharpnessOf sh (width acc) x y = Fin 0.

(** ** Bytes and sums *)

(** The cells of an 8-bit array. *)
Definition bytes (l : list Z) : Prop := Forall (λ v, 0 ≤ v ≤ 255) l.

(** The sum of [g i] over the indices [i] of a list. *)
Definition sumZ (g : Z → Z) (l : list Z) : Z := foldr (λ i s, g i + s) 0 l.

(** ** The average colour *)

(** The pixels [getAverageColor] samples: every tenth pixel, from the
    first one on. *)
Definition sampledPixels (img : ImageData) : list Z :=
  zrange 0 (width img * height img) 10.

(** Channel [c] (0 red, 1 green, 2 blue) of pixel [p]. *)
Definition channel (img : ImageData) (c p : Z) : Z :=
  default 0 (aget (data img) (p * 4 + c)).

(** The mean of a channel over the sampled pixels, rounded to the nearest
    integer. *)
Definition sampledMean (img : ImageData) (c : Z) : Z :=
  Rround (IZR (sumZ (channel img c) (sampledPixels img))
          / IZR (Z.of_nat (length (sampledPixels img)))).

Definition rgbString (r g b : Z) : string :=
  "rgb(" +:+ pretty r +:+ ", " +:+ pretty g +:+ ", " +:+ pretty b +:+ ")".

(** ** Blur and edge map, in integers *)

(** The sample at [(x, y)] of a one-byte-per-pixel image [w] pixels wide. *)
Definition sample (pixels : list Z) (w x y : Z) : Z :=
  default 0 (aget pixels (y * w + x)).

(** The sum of the nine samples around [(x, y)]. *)
Definition neighbourSum (pixels : list Z) (w x y : Z) : Z :=
  sample pixels w (x - 1) (y - 1) + sample pixels w x (y - 1) + sample pixels w (x + 1) (y - 1) +
  sample pixels w (x - 1) y + sample pixels w x y + sample pixels w (x + 1) y +
  sample pixels w (x - 1) (y + 1) + sample pixels w x (y + 1) + sample pixels w (x + 1) (y + 1).

(** The two Sobel responses at [(x, y)]. *)
Definition sobelX (pixels : list Z) (w x y : Z) : Z :=
  - sample pixels w (x - 1) (y - 1) + sample pixels w (x + 1) (y - 1)
  - 2 * sample pixels w (x - 1) y + 2 * sample pixels w (x + 1) y
  - sample pixels w (x - 1) (y + 1) + sample pixels w (x + 1) (y + 1).

Definition sobelY (pixels : list Z) (w x y : Z) : Z :=
  - sample pixels w (x - 1) (y - 1) - 2 * sample pixels w x (y - 1) - sample pixels w (x + 1) (y - 1)
  + sample pixels w (x - 1) (y + 1) + 2 * sample pixels w x (y + 1) + sample pixels w (x + 1) (y + 1).

(** ** Accumulators *)

(** Every pixel of the accumulator is either transparent with sharpness 0
    or opaque with a positive sharpness. *)
Definition masked (acc : ImageData) (accSharpness : list num) : Prop :=
  ∀ x y, 0 ≤ x < width acc → 0 ≤ y < height acc →
    (alphaOf acc x y = 0 ∧ sharpnessOf accSharpness (width acc) x y = Fin 0) ∨
    (alphaOf acc x y = 255 ∧ (sharpnessOf accSharpness (width acc) x y >? ofZ 0)%num = true).

(** A pixel made opaque. *)
Definition opaque (p : Z * Z * Z * Z) : Z * Z * Z * Z :=
  (p.1.1.1, p.1.1.2, p.1.2, 255).

(** ** The first frame and the panel's accumulator *)

(** The blank accumulator of the given dimensions: transparent black
    pixels and sharpness 0. *)
Definition blankPixels (w h : Z) : ImageData :=
  mkImageData w h (replicate (Z.to_nat (w * h * 4)) 0).

Definition blankSharpness (w h : Z) : list num :=
  replicate (Z.to_nat (w * h)) (Fin 0).

(** What the panel keeps between two calls: an accumulator, if any, that
    is an image with its sharpness map, opaque exactly where the sharpness
    is positive. *)
Definition stackInv (st : FocusStack.State) : Prop :=
  ∀ acc, FocusStack.accumulatorRef st = Some acc →
    wf_image (FocusStack.pixels acc) ∧
    wf_acc (FocusStack.pixels acc) (FocusStack.sharpness acc) ∧
    masked (FocusStack.pixels acc) (FocusStack.sharpness acc).

(** ** The point cloud *)

(** The three coordinates of point [k] of the buffer. *)
Definition pointAt (positions : list num) (k : Z) : num * num * num :=
  (rdf positions (3 * k), rdf positions (3 * k + 1), rdf positions (3 * k + 2)).

(** A point of layer [depth] inside the slab of the world that the frame
    is mapped to.  The bounds are closed, and those on [z] leave a margin
    of a millionth of [|depth| + 1] around the slab from [0.05 * depth] to
    [0.05 * depth + 0.01]: the buffer is a [Float32Array], which keeps the
    nearest binary32 number, and these bounds hold of that number too. *)
Definition inWorld (depth : Z) (p : num * num * num) : Prop :=
  ∃ wx wy wz, p = (Fin wx, Fin wy, Fin wz) ∧
    (- 2 <= wx <= 2)%R ∧ (- 1.125 <= wy <= 1.125)%R ∧
    (IZR depth * 0.05 - 1e-6 * (Rabs (IZR depth) + 1) <= wz
       <= IZR depth * 0.05 + 0.01 + 1e-6 * (Rabs (IZR depth) + 1))%R.

(** One iteration of the inner loop of the effect. *)
Definition addPoint (S : Settings) (random : nat → R) (sharpness : list num)
    (w h currentDepth y x : Z) (s : Z * list num * nat) : Z * list num * nat * bool :=
  let '(cursor, positions, calls) := s in
  let idx := y * w + x in
  if (rdf sharpness idx >? Fin (SHARPNESS_THRESHOLD S) * Fin 1.5)%num then
    if cursor >=? BioModel3D.MAX_POINTS * 3 then ((cursor, positions, calls), true) else
    let u := (ofZ x / ofZ w - Fin 0.5)%num in
    let v := (ofZ y / ofZ h - Fin 0.5)%num in
    let wx := (u * Fin BioModel3D.WORLD_WIDTH)%num in
    let wy := (nneg v * Fin BioModel3D.WORLD_HEIGHT)%num in
    let wz := (ofZ currentDepth * Fin 0.05 + Fin (random calls) * Fin 0.01)%num in
    let positions := aset positions cursor wx in
    let positions := aset positions (cursor + 1) wy in
    let positions := aset positions (cursor + 2) wz in
    ((cursor + 3, positions, Datatypes.S calls), false)
  else ((cursor, positions, calls), false).

(** What the loops of the effect keep true of [(cursor, positions, calls)],
    from the state [st] they start in: the cursor stays a multiple of 3
    inside the buffer, and only the cells from the old cursor up to the
    new one are written. *)
Definition cloudInv (st : BioModel3D.PointCloud) (s : Z * list num * nat) : Prop :=
  let '(cursor, positions, calls) := s in
  BioModel3D.cursor st ≤ cursor ≤ 3 * BioModel3D.MAX_POINTS ∧
  cursor mod 3 = 0 ∧
  length positions = length (BioModel3D.positions st) ∧
  (∀ i, i < BioModel3D.cursor st ∨ cursor ≤ i →
     aget positions i = aget (BioModel3D.positions st) i).

(** Every point added since [st] lies in the world. *)
Definition cloudInWorld (depth : Z) (st : BioModel3D.PointCloud) (s : Z * list num * nat)
    : Prop :=
  ∀ k, BioModel3D.cursor st ≤ 3 * k < s.1.1 → inWorld depth (pointAt s.1.2 k).

(** ** The relief *)

(** The number of cells of the model. *)
Definition reliefCells : Z := BioModel3D.MODEL_RES_X * BioModel3D.MODEL_RES_Y.

(** Textures of the size the component allocates. *)
Definition wf_relief (st : BioModel3D.Relief) : Prop :=
  Z.of_nat (length (BioModel3D.hData st)) = reliefCells ∧
  Z.of_nat (length (BioModel3D.cData st)) = reliefCells * 4.

(** The height of layer [depth]. *)
Definition layerHeight (depth : Z) : num := (ofZ depth * Fin 0.02)%num.

(** Model cell [i] has in [(h', c')] the height and the four colour bytes
    it has in [(h, c)]. *)
Definition cellKept (h : list num) (c : list Z) (h' : list num) (c' : list Z) (i : Z) : Prop :=
  aget h' i = aget h i ∧
  ∀ k, 0 ≤ k < 4 → aget c' (i * 4 + k) = aget c (i * 4 + k).

(** Model cell [i] is opaque and raised to the height of layer [depth]. *)
Definition cellRaised (depth : Z) (h : list num) (c : list Z) (i : Z) : Prop :=
  aget h i = Some (layerHeight depth) ∧ aget c (i * 4 + 3) = Some 255.

(** Model cell [i] is blank: height 0, colour and alpha 0. *)
Definition cellBlank (h : list num) (c : list Z) (i : Z) : Prop :=
  aget h i = Some (Fin 0) ∧ ∀ k, 0 ≤ k < 4 → aget c (i * 4 + k) = Some 0.

(** Every cell of the relief is blank, or opaque at the height of a layer
    other than layer 0. *)
Definition blankOrRaised (st : BioModel3D.Relief) : Prop :=
  wf_relief st ∧
  ∀ i, 0 ≤ i < reliefCells →
    cellBlank (BioModel3D.hData st) (BioModel3D.cData st) i ∨
    ∃ depth, depth ≠ 0 ∧ cellRaised depth (BioModel3D.hData st) (BioModel3D.cData st) i.

(** The states the relief goes through: it starts with the textures as
    they are created, and each of the two effects may run any number of
    times, on any frame, stage position and depth. *)
Inductive reliefReachable (S : Settings) (setHSL : num → num → num → num * num * num)
    : BioModel3D.Relief → Prop :=
  | reachable_initial : reliefReachable S setHSL BioModel3D.initialRelief
  | reachable_reset depth st :
      reliefReachable S setHSL st →
      reliefReachable S setHSL (BioModel3D.reliefReset depth st)
  | reachable_effect img stage depth st :
      reliefReachable S setHSL st →
      reliefReachable S setHSL (BioModel3D.reliefEffect S setHSL img stage depth st).

(** What the loops of the second effect keep true of [(hData, cData)],
    from the textures [(h, c)] they start with. *)
Definition reliefLoopInv (depth : Z) (h : list num) (c : list Z)
    (s : list num * list Z) : Prop :=
  length s.1 = length h ∧ length s.2 = length c ∧
  ∀ i, 0 ≤ i < reliefCells → cellKept h c s.1 s.2 i ∨ cellRaised depth s.1 s.2 i.

(** The three tests of the loop body of the second effect at the model
    cell [(x, y)]: the cell is in view, its source pixel is in the frame,
    and that pixel is sharp. *)
Definition reliefFires (S : Settings) (srcW srcH : Z) (sharpnessMap : list num)
    (deltaX deltaY scaleX scaleY : num) (x y : Z) : bool :=
  let camX := nfloor (ofZ x - deltaX / scaleX) in
  let camY := nfloor (ofZ y - deltaY / scaleY) in
  let sx := nfloor (camX * scaleX) in
  let sy := nfloor (camY * scaleY) in
  ((camX >=? ofZ 0)%num && (camX <? ofZ BioModel3D.MODEL_RES_X)%num
   && (camY >=? ofZ 0)%num && (camY <? ofZ BioModel3D.MODEL_RES_Y)%num)
  && ((sx >=? ofZ 0)%num && (sx <? ofZ srcW)%num
      && (sy >=? ofZ 0)%num && (sy <? ofZ srcH)%num)
  && (rdf sharpnessMap (toInt (sy * ofZ srcW + sx)) >? Fin (SHARPNESS_THRESHOLD S))%num.

(** No cell of a sharpness map is above [t]. *)
Definition noneAbove (t : num) (sharpness : list num) : Prop :=
  Forall (λ v, (v >? t)%num = false) sharpness.

(** A colour conversion for the instances: the lightness on every channel. *)
Definition lightness (h s l : num) : num * num * num := (l, l, l).

(** ** Instances for the further properties *)

(** Two fingerprints of two cells. *)
Definition fpA : list Z := [10; 20].
Definition fpB : list Z := [10; 200].

(** A 3 by 3 image of one byte per pixel. *)
Definition gray9 : list Z := [1; 2; 3; 4; 50; 6; 7; 8; 9].

(** A panel that holds a blank 32 by 16 accumulator. *)
Definition wideAccumulator : FocusStack.Accumulator :=
  FocusStack.mkAccumulator (blankPixels 32 16) (blankSharpness 32 16).

Definition wideState : FocusStack.State :=
  FocusStack.setAccumulator (Some wideAccumulator) FocusStack.initialState.

(** A panel that holds the 4 by 4 spot accumulator. *)
Definition spotState : FocusStack.State :=
  FocusStack.setAccumulator (Some (FocusStack.mkAccumulator spotPixels spotSharpness))
    FocusStack.initialState.

(** A panel whose accumulator holds a 64 by 64 gray frame, opaque, of
    sharpness 30 everywhere. *)
Definition flatAccumulator : FocusStack.Accumulator :=
  FocusStack.mkAccumulator (solidFrame 64 64 128 128 128 255)
    (replicate (Z.to_nat (64 * 64)) (Fin 30)).

Definition flatState : FocusStack.State :=
  FocusStack.setAccumulator (Some flatAccumulator) FocusStack.initialState.

(** The same with a 640 by 480 frame. *)
Definition vgaAccumulator : FocusStack.Accumulator :=
  FocusStack.mkAccumulator (solidFrame 640 480 128 128 128 255)
    (replicate (Z.to_nat (640 * 480)) (Fin 30)).

Definition vgaState : FocusStack.State :=
  FocusStack.setAccumulator (Some vgaAccumulator) FocusStack.initialState.

(** An empty point cloud before the first layer. *)
Definition emptyCloud : BioModel3D.PointCloud :=
  BioModel3D.mkPointCloud 0 (-1)
    (replicate (Z.to_nat (3 * BioModel3D.MAX_POINTS)) (Fin 0)) (ofZ 0, ofZ 0) 0.

(** * Properties *)

(** ** Comparisons on reals *)

Lemma Rltb_true x y : Rltb x y = true ↔ (x < y)%R.
Proof. unfold Rltb. destruct (Rlt_dec x y); split; intros; auto; discriminate. Qed.

Lemma Rltb_false x y : Rltb x y = false ↔ (y <= x)%R.
Proof.
  unfold Rltb. destruct (Rlt_dec x y); split; intros; auto; try discriminate; lra.
Qed.

Lemma Reqb_true x y : Reqb x y = true ↔ x = y.
Proof. unfold Reqb. destruct (Req_dec_T x y); split; intros; auto; discriminate. Qed.

Lemma Reqb_false x y : Reqb x y = false ↔ x ≠ y.
Proof. unfold Reqb. destruct (Req_dec_T x y); split; intros; auto; try discriminate; tauto. Qed.

(** Case analysis on every real comparison in the goal. *)
Ltac rcases :=
  repeat match goal with
  | |- context [Rltb ?x ?y] =>
      let H := fresh "Hlt" in
      destruct (Rltb x y) eqn:H; [apply Rltb_true in H | apply Rltb_false in H]
  | |- context [Reqb ?x ?y] =>
      let H := fresh "Heq" in
      destruct (Reqb x y) eqn:H; [apply Reqb_true in H | apply Reqb_false in H]
  end.

(** ** Arrays *)

Lemma aget_Some {A} (l : list A) i v :
  aget l i = Some v → 0 ≤ i ∧ l !! Z.to_nat i = Some v.
Proof. unfold aget. destruct (Z.ltb_spec i 0); [discriminate | auto]. Qed.

Lemma aget_nat {A} (l : list A) (n : nat) : aget l (Z.of_nat n) = l !! n.
Proof.
  unfold aget. destruct (Z.ltb_spec (Z.of_nat n) 0); [lia |]. by rewrite Nat2Z.id.
Qed.

Lemma aget_is_Some {A} (l : list A) i :
  0 ≤ i < Z.of_nat (length l) → is_Some (aget l i).
Proof.
  intros H. unfold aget. destruct (Z.ltb_spec i 0); [lia |].
  apply lookup_lt_is_Some. lia.
Qed.

Lemma aget_None {A} (l : list A) i :
  i < 0 ∨ Z.of_nat (length l) ≤ i → aget l i = None.
Proof.
  intros H. unfold aget. destruct (Z.ltb_spec i 0); [done |].
  apply lookup_ge_None. lia.
Qed.

Lemma length_aset {A} (l : list A) i v : length (aset l i v) = length l.
Proof. unfold aset. destruct (i <? 0); [done | apply length_insert]. Qed.

Lemma aget_aset_eq {A} (l : list A) i v :
  0 ≤ i < Z.of_nat (length l) → aget (aset l i v) i = Some v.
Proof.
  intros H. unfold aget, aset. destruct (Z.ltb_spec i 0); [lia |].
  apply list_lookup_insert_eq. lia.
Qed.

Lemma aget_aset_same {A} (l : list A) i v :
  aget (aset l i v) i = (λ _, v) <$> aget l i.
Proof.
  unfold aget, aset. destruct (Z.ltb_spec i 0); [done |].
  rewrite list_lookup_insert. case_decide as Hd.
  - destruct Hd as [_ Hd]. by destruct (lookup_lt_is_Some_2 l _ Hd) as [u ->].
  - rewrite lookup_ge_None_2; [done | lia].
Qed.

Lemma aget_aset_ne {A} (l : list A) i j v : i ≠ j → aget (aset l i v) j = aget l j.
Proof.
  intros H. unfold aget, aset.
  destruct (Z.ltb_spec j 0); [done |]. destruct (Z.ltb_spec i 0); [done |].
  apply list_lookup_insert_ne. lia.
Qed.

Lemma aget_replicate {A} n (v : A) i :
  0 ≤ i < Z.of_nat n → aget (replicate n v) i = Some v.
Proof.
  intros H. unfold aget. destruct (Z.ltb_spec i 0); [lia |].
  apply lookup_replicate_2. lia.
Qed.

Lemma length_blit {A} (dst src : list A) :
  (length src ≤ length dst)%nat → length (blit dst src) = length dst.
Proof. intros H. unfold blit. rewrite length_app, length_drop. lia. Qed.

Lemma aget_blit {A} (dst src : list A) i :
  aget (blit dst src) i =
    match aget src i with Some v => Some v | None => aget dst i end.
Proof.
  unfold aget, blit. destruct (Z.ltb_spec i 0); [done |].
  rewrite lookup_app. destruct (src !! Z.to_nat i) eqn:E; [done |].
  rewrite lookup_drop. f_equal. apply lookup_ge_None in E. lia.
Qed.

(** ** Loops *)

Lemma zrange_unit lo hi : zrange lo hi 1 = (λ k : nat, lo + Z.of_nat k) <$> seq 0 (Z.to_nat (hi - lo)).
Proof.
  unfold zrange. replace ((hi - lo + 1 - 1) / 1) with (hi - lo) by (rewrite Z.div_1_r; lia).
  apply list_fmap_ext. intros _ k _. lia.
Qed.

Lemma elem_of_zrange lo hi step i :
  0 < step →
  i ∈ zrange lo hi step ↔ lo ≤ i < hi ∧ (i - lo) mod step = 0.
Proof.
  intros Hs. unfold zrange. rewrite list_elem_of_fmap. split.
  - intros (k & -> & Hk). apply elem_of_seq in Hk.
    assert (Z.of_nat k < (hi - lo + step - 1) / step) as Hlt.
    { destruct (Z.le_gt_cases ((hi - lo + step - 1) / step) 0); lia. }
    assert (step * Z.of_nat k + step ≤ hi - lo + step - 1).
    { pose proof (Z.mul_div_le (hi - lo + step - 1) step Hs). nia. }
    split; [nia |].
    replace (lo + step * Z.of_nat k - lo) with (Z.of_nat k * step) by lia.
    apply Z_mod_mult.
  - intros [[Hlo Hhi] Hm].
    apply Z.mod_divide in Hm; [| lia]. destruct Hm as [q Hq].
    assert (0 ≤ q) by nia.
    exists (Z.to_nat q). split; [rewrite Z2Nat.id by done; lia |].
    apply elem_of_seq. split; [lia |]. simpl.
    apply Z2Nat.inj_lt; [done | |].
    + apply Z.div_pos; lia.
    + enough (q + 1 ≤ (hi - lo + step - 1) / step) by lia.
      apply Z.div_le_lower_bound; [done |]. nia.
Qed.

Lemma elem_of_zrange_unit lo hi i : i ∈ zrange lo hi 1 ↔ lo ≤ i < hi.
Proof.
  rewrite elem_of_zrange by lia. rewrite Z.mod_1_r. tauto.
Qed.

Lemma NoDup_zrange lo hi step : 0 < step → NoDup (zrange lo hi step).
Proof.
  intros Hs. unfold zrange. apply NoDup_fmap_2; [| apply NoDup_seq].
  intros a b Hab. nia.
Qed.

Lemma zrange_nil lo hi step : 0 < step → hi ≤ lo → zrange lo hi step = [].
Proof.
  intros Hs Hle. unfold zrange.
  replace (Z.to_nat ((hi - lo + step - 1) / step)) with 0%nat; [done |].
  assert ((hi - lo + step - 1) / step ≤ 0); [| lia].
  assert ((hi - lo + step - 1) / step < 1); [| lia].
  apply Z.div_lt_upper_bound; lia.
Qed.

Lemma fold_left_pointwise {A B} (f g : A → B → A) l a :
  (∀ a x, f a x = g a x) → fold_left f l a = fold_left g l a.
Proof.
  intros H. revert a. induction l as [| x l IH]; intros a; simpl; [done |].
  by rewrite H, IH.
Qed.

Lemma fold_nested {S} (body : Z → Z → S → S) (ys xs : list Z) (s : S) :
  fold_left (λ s y, fold_left (λ s x, body x y s) xs s) ys s =
  fold_left (λ s p, body p.1 p.2 s) (positions ys xs) s.
Proof.
  revert s. induction ys as [| y ys IH]; intros s; [done |].
  unfold positions. simpl. rewrite fold_left_app. rewrite <- IH. f_equal.
  generalize s. clear. induction xs as [| x xs IH]; intros s; [done |].
  simpl. apply IH.
Qed.

Lemma elem_of_positions ys xs x y : (x, y) ∈ positions ys xs ↔ x ∈ xs ∧ y ∈ ys.
Proof.
  unfold positions. rewrite list_elem_of_bind. split.
  - intros (y' & Hin & Hy). apply list_elem_of_fmap in Hin as (x' & Heq & Hx).
    by simplify_eq.
  - intros [Hx Hy]. exists y. split; [| done]. apply list_elem_of_fmap. eauto.
Qed.

Lemma NoDup_positions ys xs : NoDup ys → NoDup xs → NoDup (positions ys xs).
Proof.
  intros Hys Hxs. unfold positions. apply NoDup_bind; [| | done].
  - intros y1 y2 p _ _ H1 H2.
    apply list_elem_of_fmap in H1 as (? & -> & _).
    apply list_elem_of_fmap in H2 as (? & ? & _). by simplify_eq.
  - intros y _. apply NoDup_fmap_2; [| done]. intros a b ?. by simplify_eq.
Qed.

(** Iterations that each touch one cell of the state: a fold whose step at
    position [p] only changes what [view (key p)] sees, and changes it by
    [upd p], applies [upd p] once at each visited key. *)
Section independent.
Context {P St K V : Type}.
Variable key : P → K.
Variable view : K → St → V.
Variable step : P → St → St.
Variable upd : P → V → V.
Variable Inv : St → Prop.
Variable okp : P → Prop.
Hypothesis step_inv : ∀ p s, Inv s → Inv (step p s).
Hypothesis step_other : ∀ p s k, k ≠ key p → view k (step p s) = view k s.
Hypothesis step_self :
  ∀ p s, okp p → Inv s → view (key p) (step p s) = upd p (view (key p) s).

Lemma fold_inv ps s : Inv s → Inv (fold_left (λ s p, step p s) ps s).
Proof. revert s. induction ps as [| q ps IH]; intros s Hs; simpl; auto. Qed.

Lemma fold_view_other ps s k :
  k ∉ key <$> ps → view k (fold_left (λ s p, step p s) ps s) = view k s.
Proof.
  revert s. induction ps as [| q ps IH]; intros s Hk; [done |].
  simpl. rewrite fmap_cons in Hk. apply not_elem_of_cons in Hk as [Hne Hk].
  rewrite IH by done. by apply step_other.
Qed.

Lemma fold_view_self ps s p :
  Inv s → Forall okp ps → NoDup (key <$> ps) → p ∈ ps →
  view (key p) (fold_left (λ s p, step p s) ps s) = upd p (view (key p) s).
Proof.
  revert s. induction ps as [| q ps IH]; intros s Hs Hok Hnd Hin.
  { by apply elem_of_nil in Hin. }
  rewrite fmap_cons in Hnd. apply NoDup_cons in Hnd as [Hq Hnd].
  apply Forall_cons in Hok as [Hokq Hok].
  simpl. apply elem_of_cons in Hin as [-> | Hin].
  - rewrite fold_view_other by done. by apply step_self.
  - rewrite IH by auto. f_equal. apply step_other.
    intros Heq. apply Hq. rewrite <- Heq. apply list_elem_of_fmap. eauto.
Qed.
End independent.

(** Row-major indices: [y * w + x] determines [(x, y)] when [0 ≤ x < w]. *)
Lemma rowmajor_inj w x1 y1 x2 y2 :
  0 ≤ x1 < w → 0 ≤ x2 < w → y1 * w + x1 = y2 * w + x2 → x1 = x2 ∧ y1 = y2.
Proof. intros H1 H2 Heq. assert (y1 = y2) by nia. subst. lia. Qed.

Lemma NoDup_rowmajor w ylo yhi ystep xlo xhi xstep :
  0 < ystep → 0 < xstep → 0 ≤ xlo → xhi ≤ w →
  NoDup ((λ p : Z * Z, p.2 * w + p.1) <$> positions (zrange ylo yhi ystep) (zrange xlo xhi xstep)).
Proof.
  intros Hys Hxs Hlo Hhi. apply NoDup_fmap_2_strong.
  - intros [x1 y1] [x2 y2] H1 H2 Heq. simpl in Heq.
    apply elem_of_positions in H1 as [H1 _]. apply elem_of_positions in H2 as [H2 _].
    apply elem_of_zrange in H1, H2; try done.
    destruct (rowmajor_inj w x1 y1 x2 y2) as [-> ->]; auto; lia.
  - apply NoDup_positions; by apply NoDup_zrange.
Qed.

(** Two nested loops that write [f x y] at cell [y * w + x] of an array. *)
Section paint.
Context {A : Type}.
Variable w : Z.
Variable f : Z → Z → A.

Lemma paint_fold ylo yhi xlo xhi m :
  paint w f ylo yhi xlo xhi m =
  fold_left (λ m p, aset m (p.2 * w + p.1) (f p.1 p.2))
    (positions (zrange ylo yhi 1) (zrange xlo xhi 1)) m.
Proof. unfold paint, for_. by rewrite (fold_nested (λ x y m, aset m (y * w + x) (f x y))). Qed.

Lemma length_paint ylo yhi xlo xhi m : length (paint w f ylo yhi xlo xhi m) = length m.
Proof.
  rewrite paint_fold.
  apply (fold_inv (λ p m, aset m (p.2 * w + p.1) (f p.1 p.2)) (λ m', length m' = length m));
    [| done].
  intros p s Hs. by rewrite length_aset.
Qed.

Let key (p : Z * Z) : Z := p.2 * w + p.1.
Let pstep (p : Z * Z) (m : list A) : list A := aset m (key p) (f p.1 p.2).
Let pupd (p : Z * Z) (o : option A) : option A := (λ _, f p.1 p.2) <$> o.

Lemma paint_inside' ylo yhi xlo xhi m x y :
  0 ≤ xlo → xhi ≤ w → ylo ≤ y < yhi → xlo ≤ x < xhi →
  aget (paint w f ylo yhi xlo xhi m) (y * w + x) = (λ _, f x y) <$> aget m (y * w + x).
Proof.
  intros Hlo Hhi Hy Hx. rewrite paint_fold.
  apply (fold_view_self key (λ k m, aget m k) pstep pupd (λ _, True) (λ _, True))
    with (p := (x, y)); auto.
  - intros p s k Hk. unfold pstep. by apply aget_aset_ne.
  - intros p s _ _. unfold pstep, pupd. apply aget_aset_same.
  - by apply Forall_forall.
  - by apply NoDup_rowmajor.
  - apply elem_of_positions. rewrite !elem_of_zrange_unit. lia.
Qed.

Lemma paint_inside ylo yhi xlo xhi m x y :
  0 ≤ xlo → xhi ≤ w → ylo ≤ y < yhi → xlo ≤ x < xhi →
  0 ≤ y * w + x < Z.of_nat (length m) →
  aget (paint w f ylo yhi xlo xhi m) (y * w + x) = Some (f x y).
Proof.
  intros Hlo Hhi Hy Hx Hin. rewrite paint_inside' by done.
  by destruct (aget_is_Some m (y * w + x) Hin) as [v ->].
Qed.

Lemma paint_outside ylo yhi xlo xhi m x y :
  0 ≤ xlo → xhi ≤ w → 0 ≤ x < w → ¬ (ylo ≤ y < yhi ∧ xlo ≤ x < xhi) →
  aget (paint w f ylo yhi xlo xhi m) (y * w + x) = aget m (y * w + x).
Proof.
  intros Hlo Hhi Hx Hout. rewrite paint_fold.
  apply (fold_view_other key (λ k m, aget m k) pstep).
  - intros p s k Hk. unfold pstep. by apply aget_aset_ne.
  - intros Hin. apply list_elem_of_fmap in Hin as ([x' y'] & Heq & Hin).
    apply elem_of_positions in Hin as [Hx' Hy'].
    apply elem_of_zrange_unit in Hx', Hy'. unfold key in Heq. simpl in Heq.
    destruct (rowmajor_inj w x y x' y') as [-> ->]; auto; lia.
Qed.
End paint.

(** ** computeSharpnessMap *)

(** Arithmetic on finite numbers. *)
Lemma rd8_in (l : list Z) i :
  0 ≤ i < Z.of_nat (length l) → rd8 l i = ofZ (default 0 (aget l i)).
Proof. intros H. unfold rd8. by destruct (aget_is_Some l i H) as [v ->]. Qed.

Lemma nsqrt_sqsum (a b : R) :
  nsqrt (Fin a * Fin a + Fin b * Fin b) = Fin (sqrt (a² + b²)).
Proof.
  simpl. unfold Rsqr. rcases; [| done]. nra.
Qed.

Lemma computeSharpnessMap_paint pixels w h :
  computeSharpnessMap pixels w h =
  paint w (sharpnessAt pixels w) 1 (h - 1) 1 (w - 1) (replicate (Z.to_nat (w * h)) (Fin 0)).
Proof. reflexivity. Qed.

Lemma length_computeSharpnessMap pixels w h :
  length (computeSharpnessMap pixels w h) = Z.to_nat (w * h).
Proof. by rewrite computeSharpnessMap_paint, length_paint, length_replicate. Qed.

Lemma sharpnessAt_interior pixels w h x y :
  Z.of_nat (length pixels) = 4 * (w * h) →
  1 ≤ x ≤ w - 2 → 1 ≤ y ≤ h - 2 →
  sharpnessAt pixels w x y =
    Fin (sqrt ((Rabs (red pixels w (x - 1) y - red pixels w (x + 1) y))²
               + (Rabs (red pixels w x (y - 1) - red pixels w x (y + 1)))²)).
Proof.
  intros Hlen Hx Hy. unfold sharpnessAt, red.
  rewrite !rd8_in by nia.
  replace ((y * w + x) * 4 - 4) with ((y * w + (x - 1)) * 4) by lia.
  replace ((y * w + x) * 4 + 4) with ((y * w + (x + 1)) * 4) by lia.
  replace ((y * w + x) * 4 - w * 4) with (((y - 1) * w + x) * 4) by lia.
  replace ((y * w + x) * 4 + w * 4) with (((y + 1) * w + x) * 4) by lia.
  unfold ofZ. simpl nabs at 1 2. cbn [nsub nneg nadd nabs].
  by rewrite nsqrt_sqsum.
Qed.

(** C9: on a frame of width [w] and height [h] (four bytes per pixel),
    [computeSharpnessMap] returns a map of [w * h] cells; at every interior
    pixel the cell is [sqrt (gh² + gv²)], with [gh] and [gv] the absolute
    differences of the red samples of the left/right and upper/lower
    neighbours; at every border pixel the cell is 0. *)
Theorem computeSharpnessMap_spec (pixels : list Z) (w h : Z) :
  Z.of_nat (length pixels) = 4 * (w * h) →
  length (computeSharpnessMap pixels w h) = Z.to_nat (w * h) ∧
  (∀ x y, 1 ≤ x ≤ w - 2 → 1 ≤ y ≤ h - 2 →
     aget (computeSharpnessMap pixels w h) (y * w + x) =
       Some (Fin (sqrt ((Rabs (red pixels w (x - 1) y - red pixels w (x + 1) y))²
                        + (Rabs (red pixels w x (y - 1) - red pixels w x (y + 1)))²)))) ∧
  (∀ x y, 0 ≤ x < w → 0 ≤ y < h → x = 0 ∨ x = w - 1 ∨ y = 0 ∨ y = h - 1 →
     aget (computeSharpnessMap pixels w h) (y * w + x) = Some (Fin 0)).
Proof.
  intros Hlen. split; [apply length_computeSharpnessMap |]. split.
  - intros x y Hx Hy. rewrite computeSharpnessMap_paint.
    rewrite paint_inside; try lia.
    + f_equal. by apply sharpnessAt_interior with h.
    + rewrite length_replicate. nia.
  - intros x y Hx Hy Hb. rewrite computeSharpnessMap_paint.
    rewrite paint_outside; try lia.
    apply aget_replicate. nia.
Qed.

(** ** mergeFocusStack, cell by cell *)

Lemma mergeStep_unfold w h newSh newData ox oy sens thr dbg x y px sh :
  mergeStep w h newSh newData ox oy sens thr dbg x y (px, sh) =
  let t := y * w + x in
  let srcIdx := srcIndex w ox oy x y in
  let paintMagenta :=
    aset (aset (aset (aset px (t * 4) 255) (t * 4 + 1) 0) (t * 4 + 2) 255) (t * 4 + 3) 255 in
  match mergeRule w h newSh ox oy sens thr x y (rdf sh t) with
  | Rule1 => (px, sh)
  | Rule3 =>
      (if dbg then paintMagenta
       else aset (aset (aset (aset px (t * 4) (toUint8Clamp (aget newData (srcIdx * 4))))
                    (t * 4 + 1) (toUint8Clamp (aget newData (srcIdx * 4 + 1))))
                    (t * 4 + 2) (toUint8Clamp (aget newData (srcIdx * 4 + 2))))
                    (t * 4 + 3) 255,
       aset sh t (rdf newSh srcIdx))
  | Rule4 => (aset px (t * 4 + 3) 0, aset sh t (Fin 0))
  | Rule5 => (if dbg then paintMagenta else px, sh)
  end.
Proof.
  unfold mergeStep, mergeRule, inBounds, srcIndex. cbv zeta.
  repeat match goal with
         | |- context [if ?b then _ else _] => destruct b eqn:?; simpl in *; try done
         end.
Qed.

Ltac aget_simpl :=
  repeat first
    [ rewrite aget_aset_eq by (rewrite ?length_aset; lia)
    | rewrite aget_aset_ne by lia ].

Lemma mergeStep_length w h newSh newData ox oy sens thr dbg x y st :
  length (mergeStep w h newSh newData ox oy sens thr dbg x y st).1 = length st.1 ∧
  length (mergeStep w h newSh newData ox oy sens thr dbg x y st).2 = length st.2.
Proof.
  destruct st as [px sh]. rewrite mergeStep_unfold. cbv zeta.
  destruct (mergeRule _ _ _ _ _ _ _ _ _ _), dbg; simpl; rewrite ?length_aset; done.
Qed.

Lemma mergeStep_other w h newSh newData ox oy sens thr dbg x y st k :
  k ≠ y * w + x →
  cellAt (mergeStep w h newSh newData ox oy sens thr dbg x y st).1
         (mergeStep w h newSh newData ox oy sens thr dbg x y st).2 k =
  cellAt st.1 st.2 k.
Proof.
  intros Hk. destruct st as [px sh]. rewrite mergeStep_unfold. cbv zeta.
  unfold cellAt, rdf.
  destruct (mergeRule _ _ _ _ _ _ _ _ _ _), dbg; simpl; aget_simpl; done.
Qed.

Lemma mergeStep_self w h newSh newData ox oy sens thr dbg x y st :
  0 ≤ y * w + x < Z.of_nat (length st.2) →
  Z.of_nat (length st.1) = 4 * Z.of_nat (length st.2) →
  cellAt (mergeStep w h newSh newData ox oy sens thr dbg x y st).1
         (mergeStep w h newSh newData ox oy sens thr dbg x y st).2 (y * w + x) =
  mergeCell w h newSh newData ox oy sens thr dbg x y (cellAt st.1 st.2 (y * w + x)).
Proof.
  destruct st as [px sh]. intros Ht Hlen. rewrite mergeStep_unfold. cbv zeta.
  cbn [fst snd] in Ht, Hlen. unfold mergeCell, cellAt.
  destruct (mergeRule _ _ _ _ _ _ _ _ _ _), dbg; simpl; unfold rdf, magenta;
    aget_simpl; done.
Qed.

Lemma mergeFocusStack_Err acc accSh new ox oy sens thr dbg :
  (Z.to_nat (width acc * height acc * 4) < length (data acc))%nat ∨
  (Z.to_nat (width acc * height acc) < length accSh)%nat →
  mergeFocusStack acc accSh new ox oy sens thr dbg = Err RangeError.
Proof.
  intros H. unfold mergeFocusStack. cbv zeta. rewrite !length_replicate.
  destruct (Nat.ltb_spec (Z.to_nat (width acc * height acc * 4)) (length (data acc))); [done |].
  destruct (Nat.ltb_spec (Z.to_nat (width acc * height acc)) (length accSh)); [done |].
  lia.
Qed.

Lemma mergeFocusStack_unfold acc accSh new ox oy sens thr dbg :
  mergeFocusStack acc accSh new ox oy sens thr dbg =
  if (Z.to_nat (width acc * height acc * 4) <? length (data acc))%nat then Err RangeError
  else if (Z.to_nat (width acc * height acc) <? length accSh)%nat then Err RangeError
  else
    let r := mergeLoop (width acc) (height acc)
               (computeSharpnessMap (data new) (width acc) (height acc)) (data new)
               ox oy sens thr dbg (startPixels acc, startSharpness acc accSh) in
    Ok (mkImageData (width acc) (height acc) r.1, r.2).
Proof.
  unfold mergeFocusStack. cbv zeta. rewrite !length_replicate.
  destruct (_ <? _)%nat; [done |]. destruct (_ <? _)%nat; [done |].
  fold (startPixels acc). fold (startSharpness acc accSh).
  unfold mergeLoop. by destruct (for_ _ _ _ _ _).
Qed.

Lemma mergeLoop_fold w h newSh newData ox oy sens thr dbg st :
  mergeLoop w h newSh newData ox oy sens thr dbg st =
  fold_left (λ s p, mergeStep w h newSh newData ox oy sens thr dbg p.1 p.2 s)
    (positions (zrange 0 h 1) (zrange 0 w 1)) st.
Proof.
  unfold mergeLoop, for_.
  apply (fold_nested (λ x y st, mergeStep w h newSh newData ox oy sens thr dbg x y st)).
Qed.

Lemma mergeLoop_length w h newSh newData ox oy sens thr dbg st :
  length (mergeLoop w h newSh newData ox oy sens thr dbg st).1 = length st.1 ∧
  length (mergeLoop w h newSh newData ox oy sens thr dbg st).2 = length st.2.
Proof.
  rewrite mergeLoop_fold.
  apply (fold_inv (λ p s, mergeStep w h newSh newData ox oy sens thr dbg p.1 p.2 s)
           (λ s, length s.1 = length st.1 ∧ length s.2 = length st.2)); [| done].
  intros p s [H1 H2].
  destruct (mergeStep_length w h newSh newData ox oy sens thr dbg p.1 p.2 s) as [E1 E2].
  split; congruence.
Qed.

Lemma mergeLoop_cells w h newSh newData ox oy sens thr dbg st x y :
  Z.of_nat (length st.1) = 4 * (w * h) → Z.of_nat (length st.2) = w * h →
  0 ≤ x < w → 0 ≤ y < h →
  cellAt (mergeLoop w h newSh newData ox oy sens thr dbg st).1
         (mergeLoop w h newSh newData ox oy sens thr dbg st).2 (y * w + x) =
  mergeCell w h newSh newData ox oy sens thr dbg x y (cellAt st.1 st.2 (y * w + x)).
Proof.
  intros Hl1 Hl2 Hx Hy. rewrite mergeLoop_fold.
  set (step := λ (p : Z * Z) s, mergeStep w h newSh newData ox oy sens thr dbg p.1 p.2 s).
  set (Inv := λ s : list Z * list num,
         Z.of_nat (length s.1) = 4 * (w * h) ∧ Z.of_nat (length s.2) = w * h).
  assert (∀ p s, Inv s → Inv (step p s)) as Hstep.
  { intros p s [H1 H2]. unfold step.
    destruct (mergeStep_length w h newSh newData ox oy sens thr dbg p.1 p.2 s) as [E1 E2].
    split; congruence. }
  apply (fold_view_self (λ p : Z * Z, p.2 * w + p.1) (λ k s, cellAt s.1 s.2 k) step
    (λ p c, mergeCell w h newSh newData ox oy sens thr dbg p.1 p.2 c) Inv
    (λ p, 0 ≤ p.1 < w ∧ 0 ≤ p.2 < h)) with (p := (x, y)); try done.
  - intros p s k Hk. by apply mergeStep_other.
  - intros p s Hp [H1 H2]. apply mergeStep_self; nia.
  - apply Forall_forall. intros [x' y'] Hin. apply elem_of_positions in Hin as [Hx' Hy'].
    apply elem_of_zrange_unit in Hx', Hy'. simpl. lia.
  - apply NoDup_rowmajor; lia.
  - apply elem_of_positions. rewrite !elem_of_zrange_unit. lia.
Qed.

Lemma length_startPixels acc :
  (length (data acc) ≤ Z.to_nat (width acc * height acc * 4))%nat →
  length (startPixels acc) = Z.to_nat (width acc * height acc * 4).
Proof. intros H. unfold startPixels. rewrite length_blit; by rewrite length_replicate. Qed.

Lemma length_startSharpness acc accSh :
  (length accSh ≤ Z.to_nat (width acc * height acc))%nat →
  length (startSharpness acc accSh) = Z.to_nat (width acc * height acc).
Proof. intros H. unfold startSharpness. rewrite length_blit; by rewrite length_replicate. Qed.

(** The merge of a well-sized accumulator succeeds, and each cell of the
    result is [mergeCell] of the corresponding accumulator cell. *)
Lemma mergeFocusStack_cells acc accSh new ox oy sens thr dbg :
  (length (data acc) ≤ Z.to_nat (width acc * height acc * 4))%nat →
  (length accSh ≤ Z.to_nat (width acc * height acc))%nat →
  ∃ px sh,
    mergeFocusStack acc accSh new ox oy sens thr dbg
      = Ok (mkImageData (width acc) (height acc) px, sh) ∧
    length px = Z.to_nat (width acc * height acc * 4) ∧
    length sh = Z.to_nat (width acc * height acc) ∧
    ∀ x y, 0 ≤ x < width acc → 0 ≤ y < height acc →
      cellAt px sh (y * width acc + x) =
      mergeCell (width acc) (height acc)
        (computeSharpnessMap (data new) (width acc) (height acc)) (data new)
        ox oy sens thr dbg x y
        (cellAt (startPixels acc) (startSharpness acc accSh) (y * width acc + x)).
Proof.
  intros Hpx Hsh. rewrite mergeFocusStack_unfold.
  destruct (Nat.ltb_spec (Z.to_nat (width acc * height acc * 4)) (length (data acc))); [lia |].
  destruct (Nat.ltb_spec (Z.to_nat (width acc * height acc)) (length accSh)); [lia |].
  cbv zeta.
  set (r := mergeLoop _ _ _ _ _ _ _ _ _ _).
  exists r.1, r.2. split; [done |].
  destruct (mergeLoop_length (width acc) (height acc)
              (computeSharpnessMap (data new) (width acc) (height acc)) (data new)
              ox oy sens thr dbg (startPixels acc, startSharpness acc accSh)) as [E1 E2].
  cbn [fst snd] in E1, E2.
  split; [by rewrite <- length_startPixels | ]. split; [by rewrite <- (length_startSharpness acc accSh) |].
  intros x y Hx Hy. subst r. apply mergeLoop_cells; cbn [fst snd]; try done.
  - rewrite length_startPixels by done. nia.
  - rewrite length_startSharpness by done. nia.
Qed.

Lemma startSharpness_at acc accSh x y :
  (length accSh ≤ Z.to_nat (width acc * height acc))%nat →
  0 ≤ x < width acc → 0 ≤ y < height acc →
  rdf (startSharpness acc accSh) (y * width acc + x) = oldSharpness acc accSh x y.
Proof.
  intros Hlen Hx Hy. unfold rdf, startSharpness, oldSharpness. rewrite aget_blit.
  destruct (aget accSh _) as [v |]; [done |].
  rewrite aget_replicate; [done | nia].
Qed.

Lemma mergeFocusStack_rule acc accSh new ox oy sens thr dbg x y :
  (length accSh ≤ Z.to_nat (width acc * height acc))%nat →
  0 ≤ x < width acc → 0 ≤ y < height acc →
  mergeCell (width acc) (height acc)
    (computeSharpnessMap (data new) (width acc) (height acc)) (data new)
    ox oy sens thr dbg x y
    (cellAt (startPixels acc) (startSharpness acc accSh) (y * width acc + x)) =
  let c := cellAt (startPixels acc) (startSharpness acc accSh) (y * width acc + x) in
  let srcIdx := srcIndex (width acc) ox oy x y in
  match ruleAt acc accSh new ox oy sens thr x y with
  | Rule1 => (oldSharpness acc accSh x y, c.2)
  | Rule3 =>
      (rdf (computeSharpnessMap (data new) (width acc) (height acc)) srcIdx,
       if dbg then magenta
       else (toUint8Clamp (aget (data new) (srcIdx * 4)),
             toUint8Clamp (aget (data new) (srcIdx * 4 + 1)),
             toUint8Clamp (aget (data new) (srcIdx * 4 + 2)), 255))
  | Rule4 => (Fin 0, (c.2.1.1.1, c.2.1.1.2, c.2.1.2, 0))
  | Rule5 => (oldSharpness acc accSh x y, if dbg then magenta else c.2)
  end.
Proof.
  intros Hlen Hx Hy. cbv zeta. unfold ruleAt.
  rewrite <- (startSharpness_at acc accSh x y) by done.
  unfold mergeCell, cellAt.
  by destruct (mergeRule _ _ _ _ _ _ _ _ _ _).
Qed.

(** ** Debug mode *)

Lemma mergeStep_sharpness_debug w h newSh newData ox oy sens thr x y px px' sh :
  (mergeStep w h newSh newData ox oy sens thr true x y (px, sh)).2 =
  (mergeStep w h newSh newData ox oy sens thr false x y (px', sh)).2.
Proof. rewrite !mergeStep_unfold. cbv zeta. by destruct (mergeRule _ _ _ _ _ _ _ _ _ _). Qed.

Lemma fold_left_rel {A B C} (Rel : A → C → Prop) (f : A → B → A) (g : C → B → C) l a c :
  Rel a c → (∀ x a c, Rel a c → Rel (f a x) (g c x)) →
  Rel (fold_left f l a) (fold_left g l c).
Proof.
  intros H0 Hstep. revert a c H0. induction l as [| x l IH]; intros a c H0; simpl; auto.
Qed.

Lemma mergeLoop_sharpness_debug w h newSh newData ox oy sens thr st st' :
  st.2 = st'.2 →
  (mergeLoop w h newSh newData ox oy sens thr true st).2 =
  (mergeLoop w h newSh newData ox oy sens thr false st').2.
Proof.
  intros H. rewrite !mergeLoop_fold.
  apply (fold_left_rel (λ a c : list Z * list num, a.2 = c.2)); [done |].
  intros p [px sh] [px' sh'] Heq. simpl in Heq. subst sh'.
  apply mergeStep_sharpness_debug.
Qed.

(** C6: on every input on which the merge returns, that is, when the
    accumulator's buffers are not longer than [width * height * 4] and
    [width * height], it returns in both modes, with the same sharpness
    map and the same dimensions; debug mode renders every pixel decided by
    rule 3 or by rule 5 as (255, 0, 255, 255) and leaves every other pixel
    as it is without debug mode.  On every other input the merge throws
    the same [RangeError] in both modes. *)
Theorem debug_mode_overrides_colour_only
    (acc : ImageData) (accSh : list num) (new : ImageData) (ox oy sens thr : num) :
  ((length (data acc) ≤ Z.to_nat (width acc * height acc * 4))%nat →
   (length accSh ≤ Z.to_nat (width acc * height acc))%nat →
   ∃ imD im sh,
     mergeFocusStack acc accSh new ox oy sens thr true = Ok (imD, sh) ∧
     mergeFocusStack acc accSh new ox oy sens thr false = Ok (im, sh) ∧
     width imD = width im ∧ height imD = height im ∧
     length (data imD) = length (data im) ∧
     ∀ x y, 0 ≤ x < width acc → 0 ≤ y < height acc →
       match ruleAt acc accSh new ox oy sens thr x y with
       | Rule3 | Rule5 => pixelOf imD x y = magenta
       | Rule1 | Rule4 => pixelOf imD x y = pixelOf im x y
       end) ∧
  ((Z.to_nat (width acc * height acc * 4) < length (data acc))%nat ∨
   (Z.to_nat (width acc * height acc) < length accSh)%nat →
   mergeFocusStack acc accSh new ox oy sens thr true = Err RangeError ∧
   mergeFocusStack acc accSh new ox oy sens thr false = Err RangeError).
Proof.
  split; [| intros Hlong; by rewrite !mergeFocusStack_Err].
  intros Hpx Hsh.
  assert (∀ dbg, mergeFocusStack acc accSh new ox oy sens thr dbg =
    Ok (mkImageData (width acc) (height acc)
          (mergeLoop (width acc) (height acc)
             (computeSharpnessMap (data new) (width acc) (height acc)) (data new)
             ox oy sens thr dbg (startPixels acc, startSharpness acc accSh)).1,
        (mergeLoop (width acc) (height acc)
           (computeSharpnessMap (data new) (width acc) (height acc)) (data new)
           ox oy sens thr dbg (startPixels acc, startSharpness acc accSh)).2)) as Hok.
  { intros dbg. rewrite mergeFocusStack_unfold.
    destruct (Nat.ltb_spec (Z.to_nat (width acc * height acc * 4)) (length (data acc)));
      [lia |].
    by destruct (Nat.ltb_spec (Z.to_nat (width acc * height acc)) (length accSh)); [lia |]. }
  eexists _, _, _. split.
  { rewrite Hok.
    rewrite (mergeLoop_sharpness_debug _ _ _ _ _ _ _ _ _
               (startPixels acc, startSharpness acc accSh)) by done.
    reflexivity. }
  split; [by rewrite Hok |].
  split; [done |]. split; [done |]. split.
  { cbn [data].
    destruct (mergeLoop_length (width acc) (height acc)
      (computeSharpnessMap (data new) (width acc) (height acc)) (data new)
      ox oy sens thr true (startPixels acc, startSharpness acc accSh)) as [-> _].
    destruct (mergeLoop_length (width acc) (height acc)
      (computeSharpnessMap (data new) (width acc) (height acc)) (data new)
      ox oy sens thr false (startPixels acc, startSharpness acc accSh)) as [-> _].
    done. }
  intros x y Hx Hy. unfold pixelOf. cbn [data width].
  assert (∀ dbg,
    (cellAt (mergeLoop (width acc) (height acc)
       (computeSharpnessMap (data new) (width acc) (height acc)) (data new)
       ox oy sens thr dbg (startPixels acc, startSharpness acc accSh)).1 []
       (y * width acc + x)).2 =
    (mergeCell (width acc) (height acc)
       (computeSharpnessMap (data new) (width acc) (height acc)) (data new)
       ox oy sens thr dbg x y
       (cellAt (startPixels acc) (startSharpness acc accSh) (y * width acc + x))).2) as Hcell.
  { intros dbg. rewrite <- (mergeLoop_cells _ _ _ _ _ _ _ _ dbg (startPixels acc, startSharpness acc accSh));
      cbn [fst snd]; try done.
    - rewrite length_startPixels by done. nia.
    - rewrite length_startSharpness by done. nia. }
  rewrite !Hcell, !mergeFocusStack_rule by done. cbv zeta.
  by destruct (ruleAt _ _ _ _ _ _ _ _ _).
Qed.

(** ** The merge on a well-formed accumulator *)

Lemma blit_full {A} (dst src : list A) : length src = length dst → blit dst src = src.
Proof. intros H. unfold blit. rewrite drop_ge by lia. apply app_nil_r. Qed.

Lemma startPixels_wf acc accSh : wf_acc acc accSh → startPixels acc = data acc.
Proof.
  intros [H1 H2]. unfold startPixels. apply blit_full. rewrite length_replicate. lia.
Qed.

Lemma startSharpness_wf acc accSh : wf_acc acc accSh → startSharpness acc accSh = accSh.
Proof.
  intros [H1 H2]. unfold startSharpness. apply blit_full. rewrite length_replicate. lia.
Qed.

Lemma oldSharpness_wf acc accSh x y :
  wf_acc acc accSh → 0 ≤ x < width acc → 0 ≤ y < height acc →
  oldSharpness acc accSh x y = sharpnessOf accSh (width acc) x y ∧
  oldSharpness acc accSh x y ∈ accSh.
Proof.
  intros [H1 H2] Hx Hy. unfold oldSharpness, sharpnessOf, rdf.
  destruct (aget_is_Some accSh (y * width acc + x)) as [v Hv]; [nia |].
  rewrite Hv. split; [done |]. simpl.
  apply aget_Some in Hv as [_ Hv]. apply list_elem_of_lookup. eauto.
Qed.

(** The merge of a well-formed accumulator returns an accumulator of the
    same dimensions whose pixel [(x, y)] is given by the rule that applies
    there. *)
Lemma mergeFocusStack_spec acc accSh new ox oy sens thr dbg :
  wf_acc acc accSh →
  ∃ im sh,
    mergeFocusStack acc accSh new ox oy sens thr dbg = Ok (im, sh) ∧
    width im = width acc ∧ height im = height acc ∧ wf_acc im sh ∧
    ∀ x y, 0 ≤ x < width acc → 0 ≤ y < height acc →
      (sharpnessOf sh (width acc) x y, pixelOf im x y) =
      match ruleAt acc accSh new ox oy sens thr x y with
      | Rule1 => (sharpnessOf accSh (width acc) x y, pixelOf acc x y)
      | Rule3 => (newSharpnessAt acc new ox oy x y,
                  if dbg then magenta else newPixel acc new ox oy x y)
      | Rule4 => (Fin 0, transparent (pixelOf acc x y))
      | Rule5 => (sharpnessOf accSh (width acc) x y,
                  if dbg then magenta else pixelOf acc x y)
      end.
Proof.
  intros Hwf. pose proof Hwf as [H1 H2].
  destruct (mergeFocusStack_cells acc accSh new ox oy sens thr dbg)
    as (px & sh & Hm & Hl1 & Hl2 & Hcell); [lia | lia |].
  exists (mkImageData (width acc) (height acc) px), sh.
  split; [done |]. split; [done |]. split; [done |]. split.
  { split; cbn [data width height]; lia. }
  intros x y Hx Hy. specialize (Hcell x y Hx Hy).
  rewrite mergeFocusStack_rule in Hcell by (done || lia). cbv zeta in Hcell.
  rewrite (startPixels_wf acc accSh Hwf) in Hcell.
  destruct (oldSharpness_wf acc accSh x y Hwf Hx Hy) as [Hold _].
  rewrite Hold in Hcell.
  unfold sharpnessOf at 1. unfold pixelOf. cbn [data width].
  change (cellAt px [] (y * width acc + x)).2 with (cellAt px sh (y * width acc + x)).2.
  change (rdf sh (y * width acc + x)) with (cellAt px sh (y * width acc + x)).1.
  rewrite Hcell.
  by destruct (ruleAt _ _ _ _ _ _ _ _ _).
Qed.

(** ** Order facts on numbers *)

Ltac rhyps :=
  repeat match goal with
  | H : Rltb _ _ = true |- _ => apply Rltb_true in H
  | H : Rltb _ _ = false |- _ => apply Rltb_false in H
  | H : negb _ = true |- _ => apply negb_true_iff in H
  | H : negb _ = false |- _ => apply negb_false_iff in H
  | H : Fin _ = Fin _ |- _ => injection H as H
  end.

(** Decides order goals on numbers by cases on the constructors. *)
Ltac num_cases :=
  unfold ngt, nge, ofZ in *; simpl in *; rhyps; rcases;
  try done; try lra; try (exfalso; lra).

Lemma nlt_asym a b : (a <? b)%num = true → (b <? a)%num = false.
Proof. destruct a, b; intros H; num_cases. Qed.

Lemma nle_refl a : a ≠ NaN → (a <=? a)%num = true.
Proof. destruct a; intros H; num_cases. Qed.

Lemma nlt_add_nonneg a s b :
  (ofZ 0 <=? s)%num = true → (a + s <? b)%num = true → (a <=? b)%num = true.
Proof. destruct a, s, b; intros H1 H2; num_cases. Qed.

Lemma nle_via a t b :
  a ≠ NaN → (a >? t)%num = false → (b >? t)%num = true → (a <=? b)%num = true.
Proof. destruct a, t, b; intros H0 H1 H2; num_cases. Qed.

Lemma ngt_false_nle a t :
  a ≠ NaN → (ofZ 0 <=? t)%num = true → (a >? t)%num = false → (a <=? t)%num = true.
Proof. destruct a, t; intros H0 H1 H2; num_cases. Qed.

Lemma ngt_nonneg_nonzero a t :
  (ofZ 0 <=? t)%num = true → (a >? t)%num = true → a ≠ Fin 0.
Proof. destruct a, t; intros H1 H2 H3; num_cases. Qed.

Lemma rdf_elem (l : list num) i : rdf l i = NaN ∨ rdf l i ∈ l.
Proof.
  unfold rdf. destruct (aget l i) as [v |] eqn:E; [| by left].
  right. apply aget_Some in E as [_ E]. apply list_elem_of_lookup. eauto.
Qed.

(** ** Rounding of integers *)

Lemma Int_part_IZR z : Int_part (IZR z) = z.
Proof. symmetry. apply Int_part_spec. lra. Qed.

Lemma Rround_IZR z : Rround (IZR z) = z.
Proof. unfold Rround. symmetry. apply Int_part_spec. lra. Qed.

Lemma Rtrunc_IZR z : Rtrunc (IZR z) = z.
Proof.
  unfold Rtrunc. destruct (Rltb (IZR z) 0).
  - rewrite <- opp_IZR, Int_part_IZR. lia.
  - apply Int_part_IZR.
Qed.

Lemma nround_ofZ_add x k : nround (ofZ x + ofZ k) = ofZ (x + k).
Proof. unfold ofZ. simpl. by rewrite <- plus_IZR, Rround_IZR. Qed.

Lemma inBounds_ofZ w h kx ky x y :
  inBounds w h (ofZ kx) (ofZ ky) x y =
  (0 <=? x + kx) && (x + kx <? w) && (0 <=? y + ky) && (y + ky <? h).
Proof.
  unfold inBounds. cbv zeta. rewrite !nround_ofZ_add. unfold nge, nle, nlt, ofZ.
  assert (∀ a b, Rltb (IZR a) (IZR b) = (a <? b)) as Hlt.
  { intros a b. destruct (Z.ltb_spec a b) as [H | H].
    - apply Rltb_true. by apply IZR_lt.
    - apply Rltb_false. by apply IZR_le. }
  rewrite !Hlt. by rewrite <- !Z.leb_antisym.
Qed.

Lemma inBounds_zero_offset w h x y :
  0 ≤ x < w → 0 ≤ y < h → inBounds w h (ofZ 0) (ofZ 0) x y = true.
Proof.
  intros Hx Hy. rewrite inBounds_ofZ.
  destruct (Z.leb_spec 0 (x + 0)), (Z.ltb_spec (x + 0) w),
    (Z.leb_spec 0 (y + 0)), (Z.ltb_spec (y + 0) h); (done || lia).
Qed.

(** ** Transparent background *)

(** The claim fails when the offset samples outside the new frame: merging
    [dot] into itself at offset (3, 0) with threshold 20 keeps the opaque
    pixel and its sharpness 5. *)
Lemma transparent_background_counterexample : ¬ transparent_background_claim.
Proof.
  intros Hclaim.
  assert (wf_acc dot [Fin 5]) as Hwf by (split; reflexivity).
  destruct (mergeFocusStack_spec dot [Fin 5] dot (ofZ 3) (ofZ 0) (Fin 5) (Fin 20) false Hwf)
    as (im & sh & Hm & _ & _ & _ & Hcell).
  specialize (Hcell 0 0 ltac:(simpl; lia) ltac:(simpl; lia)).
  assert (ruleAt dot [Fin 5] dot (ofZ 3) (ofZ 0) (Fin 5) (Fin 20) 0 0 = Rule1) as Hr.
  { unfold ruleAt, mergeRule. by rewrite inBounds_ofZ. }
  rewrite Hr in Hcell.
  destruct (Hclaim dot [Fin 5] dot (ofZ 3) (ofZ 0) (Fin 5) (Fin 20) false im sh Hwf)
    with (x := 0) (y := 0) as [_ Hs]; try done; try (simpl; lia).
  - intros v Hv. apply list_elem_of_singleton in Hv as ->. simpl. apply Rltb_true. lra.
  - intros v Hv. change (computeSharpnessMap (data dot) (width dot) (height dot))
      with [Fin 0] in Hv.
    apply list_elem_of_singleton in Hv as ->. simpl. apply Rltb_true. lra.
  - rewrite Hs in Hcell. unfold sharpnessOf, rdf in Hcell. simpl in Hcell.
    assert (0 = 5)%R as H5 by congruence. lra.
Qed.

(** C5, amended: under the same hypotheses the merge returns an
    accumulator in which every pixel whose sampled position lies inside the
    frame has alpha 0 and sharpness 0; a pixel whose sampled position lies
    outside keeps the alpha and the sharpness the accumulator had. *)
Theorem transparent_background_in_bounds
    (acc : ImageData) (accSh : list num) (new : ImageData)
    (ox oy sens thr : num) (dbg : bool) :
  wf_acc acc accSh →
  (∀ v, v ∈ accSh → (v <? thr)%num = true) →
  (∀ v, v ∈ computeSharpnessMap (data new) (width acc) (height acc) →
        (v <? thr)%num = true) →
  ∃ im sh,
    mergeFocusStack acc accSh new ox oy sens thr dbg = Ok (im, sh) ∧
    ∀ x y, 0 ≤ x < width acc → 0 ≤ y < height acc →
      if inBounds (width acc) (height acc) ox oy x y
      then alphaOf im x y = 0 ∧ sharpnessOf sh (width acc) x y = Fin 0
      else alphaOf im x y = alphaOf acc x y ∧
           sharpnessOf sh (width acc) x y = sharpnessOf accSh (width acc) x y.
Proof.
  intros Hwf Hold Hnew.
  destruct (mergeFocusStack_spec acc accSh new ox oy sens thr dbg Hwf)
    as (im & sh & Hm & _ & _ & _ & Hcell).
  exists im, sh. split; [done |]. intros x y Hx Hy.
  specialize (Hcell x y Hx Hy).
  destruct (oldSharpness_wf acc accSh x y Hwf Hx Hy) as [_ Hin].
  assert ((oldSharpness acc accSh x y >? thr)%num = false) as Ho.
  { apply nlt_asym. by apply Hold. }
  unfold ruleAt, mergeRule in Hcell. cbv zeta in Hcell.
  destruct (inBounds _ _ _ _ _ _).
  - assert ((rdf (computeSharpnessMap (data new) (width acc) (height acc))
               (srcIndex (width acc) ox oy x y) >? thr)%num = false) as Hn.
    { destruct (rdf_elem (computeSharpnessMap (data new) (width acc) (height acc))
                  (srcIndex (width acc) ox oy x y)) as [-> | Hel].
      - by destruct thr.
      - apply nlt_asym. by apply Hnew. }
    rewrite Hn, Ho in Hcell. simpl in Hcell. apply pair_equal_spec in Hcell as [Hs Hp].
    split; [| done]. unfold alphaOf. by rewrite Hp.
  - apply pair_equal_spec in Hcell as [Hs Hp]. split; [| done]. unfold alphaOf. by rewrite Hp.
Qed.

Lemma transparent_background_witness :
  ∃ im sh,
    mergeFocusStack dot [Fin 5] dot (ofZ 0) (ofZ 0) (Fin 5) (Fin 20) false = Ok (im, sh) ∧
    ∀ x y, 0 ≤ x < width dot → 0 ≤ y < height dot →
      if inBounds (width dot) (height dot) (ofZ 0) (ofZ 0) x y
      then alphaOf im x y = 0 ∧ sharpnessOf sh (width dot) x y = Fin 0
      else alphaOf im x y = alphaOf dot x y ∧
           sharpnessOf sh (width dot) x y = sharpnessOf [Fin 5] (width dot) x y.
Proof.
  apply transparent_background_in_bounds.
  - split; reflexivity.
  - intros v Hv. apply list_elem_of_singleton in Hv as ->. simpl. apply Rltb_true. lra.
  - intros v Hv. change (computeSharpnessMap (data dot) (width dot) (height dot))
      with [Fin 0] in Hv.
    apply list_elem_of_singleton in Hv as ->. simpl. apply Rltb_true. lra.
Defined.

(** ** Sharpness never decreases *)

(** Whatever the threshold: a sharpness above it is never decreased; and
    when the threshold is ≥ 0 and the accumulator's sharpness is a number,
    the output sharpness is 0 or at least the accumulator's, and it is 0
    only if the accumulator's was at most the threshold. *)
Lemma merge_sharpness_order
    (acc : ImageData) (accSh : list num) (new : ImageData)
    (ox oy sens thr : num) (dbg : bool) :
  wf_acc acc accSh →
  (ofZ 0 <=? sens)%num = true →
  ∃ im sh,
    mergeFocusStack acc accSh new ox oy sens thr dbg = Ok (im, sh) ∧
    ∀ x y, 0 ≤ x < width acc → 0 ≤ y < height acc →
      let old := sharpnessOf accSh (width acc) x y in
      let out := sharpnessOf sh (width acc) x y in
      ((old >? thr)%num = true → (old <=? out)%num = true) ∧
      ((ofZ 0 <=? thr)%num = true → old ≠ NaN →
         (out = Fin 0 ∨ (old <=? out)%num = true) ∧
         (out = Fin 0 → (old <=? thr)%num = true)).
Proof.
  intros Hwf Hsens.
  destruct (mergeFocusStack_spec acc accSh new ox oy sens thr dbg Hwf)
    as (im & sh & Hm & _ & _ & _ & Hcell).
  exists im, sh. split; [done |]. intros x y Hx Hy. cbv zeta.
  specialize (Hcell x y Hx Hy).
  destruct (oldSharpness_wf acc accSh x y Hwf Hx Hy) as [Hold _].
  unfold ruleAt, mergeRule in Hcell. cbv zeta in Hcell. rewrite Hold in Hcell.
  fold (newSharpnessAt acc new ox oy x y) in Hcell.
  set (old := sharpnessOf accSh (width acc) x y) in *.
  set (newVal := newSharpnessAt acc new ox oy x y) in *.
  destruct (inBounds _ _ _ _ _ _).
  2: { apply pair_equal_spec in Hcell as [-> _]. split.
       - intros Hgt. apply nle_refl. intros E. rewrite E in Hgt. by destruct thr.
       - intros Hthr Hnan. split; [right; by apply nle_refl |]. by intros ->. }
  destruct (newVal >? thr)%num eqn:Hnew; simpl in Hcell.
  - destruct (newVal >? old + sens)%num eqn:Hwin; simpl in Hcell.
    + apply pair_equal_spec in Hcell as [-> _].
      assert ((old <=? newVal)%num = true) as Hle by (by apply nlt_add_nonneg with sens).
      split; [done |]. intros Hthr Hnan. split; [by right |].
      intros E. by apply (ngt_nonneg_nonzero newVal thr) in E.
    + destruct (old >? thr)%num eqn:Hold'; simpl in Hcell.
      * apply pair_equal_spec in Hcell as [-> _].
        assert (old ≠ NaN) as Hn by (intros E; rewrite E in Hold'; by destruct thr).
        split; [intros _; by apply nle_refl |].
        intros Hthr _. split; [right; by apply nle_refl |].
        intros E. by apply (ngt_nonneg_nonzero old thr) in E.
      * apply pair_equal_spec in Hcell as [-> _].
        split; [done |]. intros Hthr Hnan.
        assert ((old <=? newVal)%num = true) as Hle by (by apply nle_via with thr).
        split; [by right |].
        intros E. by apply (ngt_nonneg_nonzero newVal thr) in E.
  - destruct (old >? thr)%num eqn:Hold'; simpl in Hcell.
    + apply pair_equal_spec in Hcell as [-> _].
      assert (old ≠ NaN) as Hn by (intros E; rewrite E in Hold'; by destruct thr).
      split; [intros _; by apply nle_refl |].
      intros Hthr _. split; [right; by apply nle_refl |].
      intros E. by apply (ngt_nonneg_nonzero old thr) in E.
    + apply pair_equal_spec in Hcell as [-> _].
      split; [done |]. intros Hthr Hnan. split; [by left |].
      intros _. by apply ngt_false_nle.
Qed.

(** C10: for every well-formed accumulator whose sharpness cells are
    numbers, every new frame and offsets, every threshold ≥ 0 and every
    sensitivity ≥ 0, the merge returns, and at every pixel the output
    sharpness is 0 or at least the accumulator's, and it is 0 only if the
    accumulator's was at most the threshold; in particular a sharpness
    above the threshold is never decreased. *)
Theorem sharpness_monotone
    (acc : ImageData) (accSh : list num) (new : ImageData)
    (ox oy sens thr : num) (dbg : bool) :
  wf_acc acc accSh → (∀ v, v ∈ accSh → v ≠ NaN) →
  (ofZ 0 <=? thr)%num = true → (ofZ 0 <=? sens)%num = true →
  ∃ im sh,
    mergeFocusStack acc accSh new ox oy sens thr dbg = Ok (im, sh) ∧
    ∀ x y, 0 ≤ x < width acc → 0 ≤ y < height acc →
      let old := sharpnessOf accSh (width acc) x y in
      let out := sharpnessOf sh (width acc) x y in
      (out = Fin 0 ∨ (old <=? out)%num = true) ∧
      (out = Fin 0 → (old <=? thr)%num = true) ∧
      ((old >? thr)%num = true → (old <=? out)%num = true).
Proof.
  intros Hwf Hnum Hthr Hsens.
  destruct (merge_sharpness_order acc accSh new ox oy sens thr dbg Hwf Hsens)
    as (im & sh & Hm & Hcell).
  exists im, sh. split; [done |]. intros x y Hx Hy. cbv zeta.
  destruct (Hcell x y Hx Hy) as [Habove Hdomain].
  destruct (oldSharpness_wf acc accSh x y Hwf Hx Hy) as [Hold Hin].
  destruct Hdomain as [Hout Hzero]; [done | |].
  - rewrite <- Hold. by apply Hnum.
  - done.
Qed.

(** ** The alignment score *)

Lemma sq_nonneg_or_nan a b :
  real_or_nan a → real_or_nan b → nonneg_or_nan ((a - b) * (a - b)).
Proof.
  intros [-> | [x ->]] [-> | [y ->]]; simpl; try (by left).
  right. eexists. split; [done |]. apply Rle_0_sqr.
Qed.

Lemma nadd_nonneg_or_nan a b :
  nonneg_or_nan a → nonneg_or_nan b → nonneg_or_nan (a + b).
Proof.
  intros [-> | (x & -> & Hx)] [-> | (y & -> & Hy)]; simpl; try (by left).
  right. eexists. split; [done |]. lra.
Qed.

Lemma scoreAt_fold w h pad e1 e2 dx dy :
  scoreAt w h pad e1 e2 dx dy =
  fold_left (λ acc p, ((acc.1 + sqdiff w e1 e2 dx dy p)%num, acc.2 + 1))
    (samples w h pad) (Fin 0, 0).
Proof.
  unfold scoreAt, for_, samples.
  rewrite (fold_nested (λ x y (acc : num * Z),
    let '(diff, count) := acc in
    ((diff + (rdf e1 (y * w + x) - rdf e2 ((y + dy) * w + (x + dx)))
             * (rdf e1 (y * w + x) - rdf e2 ((y + dy) * w + (x + dx))))%num, count + 1))).
  apply fold_left_pointwise. intros [diff count] [x y]. reflexivity.
Qed.

Lemma scoreAt_count w h pad e1 e2 dx dy :
  (scoreAt w h pad e1 e2 dx dy).2 = Z.of_nat (length (samples w h pad)).
Proof.
  rewrite scoreAt_fold. generalize (samples w h pad). intros l.
  enough (∀ a, (fold_left (λ acc p, ((acc.1 + sqdiff w e1 e2 dx dy p)%num, acc.2 + 1)) l a).2
               = a.2 + Z.of_nat (length l)) as H by (rewrite H; simpl; lia).
  induction l as [| p l IH]; intros a; simpl; [lia |]. rewrite IH. simpl. lia.
Qed.

Lemma scoreAt_nonneg_or_nan w h pad e1 e2 dx dy :
  Forall real_or_nan e1 → Forall real_or_nan e2 →
  nonneg_or_nan (scoreAt w h pad e1 e2 dx dy).1.
Proof.
  intros H1 H2. rewrite scoreAt_fold. generalize (samples w h pad). intros l.
  assert (nonneg_or_nan (Fin 0, 0).1) as H0 by (right; exists 0%R; split; [done | simpl; lra]).
  revert H0. generalize ((Fin 0, 0) : num * Z).
  induction l as [| p l IH]; intros a Ha; simpl; [done |].
  apply IH. simpl. apply nadd_nonneg_or_nan; [done |].
  assert (∀ (e : list num) i, Forall real_or_nan e → real_or_nan (rdf e i)) as Hrd.
  { intros e i He. destruct (rdf_elem e i) as [-> | Hin]; [by left |].
    by apply (proj1 (Forall_forall _ _) He). }
  apply sq_nonneg_or_nan; by apply Hrd.
Qed.

Lemma scoreAt_zero w h pad e1 e2 dx dy :
  (∀ p, p ∈ samples w h pad → sqdiff w e1 e2 dx dy p = Fin 0) →
  (scoreAt w h pad e1 e2 dx dy).1 = Fin 0.
Proof.
  rewrite scoreAt_fold. generalize (samples w h pad). intros l Hl.
  enough (∀ a, a.1 = Fin 0 →
    (fold_left (λ acc p, ((acc.1 + sqdiff w e1 e2 dx dy p)%num, acc.2 + 1)) l a).1 = Fin 0)
    as H by (by apply H).
  induction l as [| p l IH]; intros a Ha; simpl; [done |].
  apply IH.
  - intros q Hq. apply Hl. by right.
  - simpl. rewrite Ha, Hl by left. simpl. f_equal. lra.
Qed.

Lemma samples_nil w h pad : h ≤ 2 * pad ∨ w ≤ 2 * pad → samples w h pad = [].
Proof.
  intros [H | H]; unfold samples.
  - by rewrite (zrange_nil pad (h - pad)) by lia.
  - rewrite (zrange_nil pad (w - pad)) by lia. unfold positions.
    induction (zrange pad (h - pad) 2); [done |]. done.
Qed.

Lemma samples_bounds w h pad x y :
  (x, y) ∈ samples w h pad → pad ≤ x < w - pad ∧ pad ≤ y < h - pad.
Proof.
  intros H. apply elem_of_positions in H as [Hx Hy].
  apply elem_of_zrange in Hx, Hy; lia.
Qed.

(** ** The exhaustive search *)

Lemma nle_false_nlt a b : (a <=? b)%num = false → (a <? b)%num = false.
Proof. destruct a, b; intros H; num_cases. Qed.

Lemma nlt_irrefl a : (a <? a)%num = false.
Proof. destruct a; num_cases. Qed.

Lemma nlt_displaced a b m :
  (a <? m)%num = false → (b <? m)%num = true → (a <=? b)%num = false.
Proof. destruct a, b, m; intros H1 H2; num_cases. Qed.

Lemma nlt_real a b : (a <? b)%num = true → (a <? PInf)%num = true.
Proof. destruct a, b; intros H; num_cases. Qed.

Lemma nlt_antisym a b :
  (a <? PInf)%num = true → (b <? PInf)%num = true →
  (a <? b)%num = false → (b <? a)%num = false → a = b.
Proof. destruct a, b; intros H1 H2 H3 H4; num_cases. f_equal. lra. Qed.

Lemma nle_total_real a b :
  (a <? PInf)%num = true → (b <? PInf)%num = true →
  (a <=? b)%num = false → (b <? a)%num = true.
Proof. destruct a, b; intros H1 H2 H3; num_cases. Qed.

Lemma StronglySorted_zrange lo hi : StronglySorted Z.lt (zrange lo hi 1).
Proof.
  rewrite zrange_unit.
  apply (StronglySorted_fmap _ lt); [intros a b Hab; lia |].
  generalize 0%nat. induction (Z.to_nat (hi - lo)) as [| n IH]; intros j; simpl.
  - constructor.
  - constructor; [apply IH |]. apply Forall_forall. intros k Hk.
    apply elem_of_seq in Hk. lia.
Qed.

Lemma StronglySorted_positions ys xs :
  StronglySorted Z.lt ys → StronglySorted Z.lt xs →
  StronglySorted scanned_before (positions ys xs).
Proof.
  intros Hys Hxs. induction Hys as [| y ys Hys IH Hy]; [constructor |].
  change (positions (y :: ys) xs) with (((λ x, (x, y)) <$> xs) ++ positions ys xs).
  apply StronglySorted_app_2; [| | done].
  - intros [x1 y1] [x2 y2] H1 H2.
    apply list_elem_of_fmap in H1 as (x & Heq & _). simplify_eq.
    apply elem_of_positions in H2 as [_ H2]. left. simpl.
    by apply (proj1 (Forall_forall _ _) Hy).
  - apply (StronglySorted_fmap _ Z.lt); [| done].
    intros a b Hab. right. simpl. done.
Qed.

Lemma offsets_sorted sw : StronglySorted scanned_before (offsets sw).
Proof. apply StronglySorted_positions; apply StronglySorted_zrange. Qed.

Lemma elem_of_offsets sw dx dy :
  (dx, dy) ∈ offsets sw ↔ - sw ≤ dx ≤ sw ∧ - sw ≤ dy ≤ sw.
Proof. unfold offsets. rewrite elem_of_positions, !elem_of_zrange_unit. lia. Qed.

Lemma searchOffsets_fold sw w h e1 e2 :
  searchOffsets sw w h e1 e2 =
  fold_left (λ st p, searchStep w h (sw + 2) e1 e2 p.1 p.2 st) (offsets sw)
    (mkSearchState 0 0 PInf ∅).
Proof.
  unfold searchOffsets, for_, offsets. cbv zeta.
  apply (fold_nested (λ dx dy st, searchStep w h (sw + 2) e1 e2 dx dy st)).
Qed.

Section search.
Variables (w h pad : Z) (e1 e2 : list num).

Lemma searchStep_eq p st :
  searchStep w h pad e1 e2 p.1 p.2 st =
  if 0 <? sampleCount w h pad then
    if (score w h pad e1 e2 p <? minDiff st)%num
    then mkSearchState p.1 p.2 (score w h pad e1 e2 p) (<[p := score w h pad e1 e2 p]> (scores st))
    else mkSearchState (bestX st) (bestY st) (minDiff st) (<[p := score w h pad e1 e2 p]> (scores st))
  else st.
Proof.
  unfold searchStep, score, sampleCount.
  rewrite <- (scoreAt_count w h pad e1 e2 p.1 p.2).
  destruct p as [dx dy]. simpl. by destruct (scoreAt w h pad e1 e2 dx dy).
Qed.

Lemma searchList_unsampled l st : sampleCount w h pad ≤ 0 → searchList w h pad e1 e2 l st = st.
Proof.
  intros Hc. unfold searchList. induction l as [| p l IH]; simpl; [done |].
  rewrite searchStep_eq. destruct (Z.ltb_spec 0 (sampleCount w h pad)); [lia | done].
Qed.

Lemma searchList_snoc l p st :
  searchList w h pad e1 e2 (l ++ [p]) st = searchStep w h pad e1 e2 p.1 p.2 (searchList w h pad e1 e2 l st).
Proof. unfold searchList. by rewrite fold_left_app. Qed.

Lemma search_inv_holds l :
  0 < sampleCount w h pad → search_inv w h pad e1 e2 l (searchList w h pad e1 e2 l (mkSearchState 0 0 PInf ∅)).
Proof.
  intros Hc. induction l as [| p l IH] using rev_ind.
  { split; [| split].
    - intros q Hq. by apply elem_of_nil in Hq.
    - intros k. cbn [scores searchList fold_left]. rewrite lookup_empty.
      rewrite decide_False; [done | apply not_elem_of_nil].
    - by left. }
  rewrite searchList_snoc, searchStep_eq.
  destruct (Z.ltb_spec 0 (sampleCount w h pad)); [| lia].
  set (st := searchList w h pad e1 e2 l (mkSearchState 0 0 PInf ∅)) in *.
  destruct IH as (Hlow & Hsc & Hbest).
  assert (∀ k, <[p := score w h pad e1 e2 p]> (scores st) !! k =
               if decide (k ∈ l ++ [p]) then Some (score w h pad e1 e2 k) else None) as Hsc'.
  { intros k. destruct (decide (k = p)) as [-> | Hne].
    - rewrite lookup_insert_eq. rewrite decide_True; [done |].
      apply elem_of_app. right. by left.
    - rewrite lookup_insert_ne by done. rewrite Hsc.
      repeat case_decide; try done.
      + exfalso. apply H1. apply elem_of_app. by left.
      + exfalso. apply elem_of_app in H1 as [H1 | H1]; [done |].
        apply list_elem_of_singleton in H1. done. }
  destruct (score w h pad e1 e2 p <? minDiff st)%num eqn:Hlt.
  - split; [| split]; cbn [minDiff scores bestX bestY]; [| done |].
    + intros q Hq. apply elem_of_app in Hq as [Hq | Hq].
      * apply nle_false_nlt. apply nlt_displaced with (minDiff st); auto.
      * apply list_elem_of_singleton in Hq as ->. apply nlt_irrefl.
    + right. exists l, []. split; [by destruct p |]. split; [by destruct p |].
      split; [by apply nlt_real with (minDiff st) |].
      intros q Hq. apply nlt_displaced with (minDiff st); auto.
  - split; [| split]; cbn [minDiff scores bestX bestY]; [| done |].
    + intros q Hq. apply elem_of_app in Hq as [Hq | Hq]; [auto |].
      by apply list_elem_of_singleton in Hq as ->.
    + destruct Hbest as [Hb | (la & lb & Hl & Hm & Hr & Hla)]; [by left |].
      right. exists la, (lb ++ [p]). split; [| done].
      rewrite Hl. by rewrite <- app_assoc.
Qed.

(** The selected offset is the first, in the order of the scan, among the
    offsets of least score. *)
Lemma search_first_min l p :
  0 < sampleCount w h pad → StronglySorted scanned_before l →
  p ∈ l → (score w h pad e1 e2 p <? PInf)%num = true →
  (∀ q, q ∈ l → (score w h pad e1 e2 q <? score w h pad e1 e2 p)%num = false) →
  let st := searchList w h pad e1 e2 l (mkSearchState 0 0 PInf ∅) in
  minDiff st = score w h pad e1 e2 p ∧
  score w h pad e1 e2 (bestX st, bestY st) = score w h pad e1 e2 p ∧
  (bestX st, bestY st) ∈ l ∧
  ((bestX st, bestY st) = p ∨ scanned_before (bestX st, bestY st) p).
Proof.
  intros Hc Hsorted Hp Hreal Hmin. cbv zeta.
  destruct (search_inv_holds l Hc) as (Hlow & _ & Hbest).
  set (st := searchList w h pad e1 e2 l (mkSearchState 0 0 PInf ∅)) in *.
  destruct Hbest as [(Hinf & _ & _) | (la & lb & Hl & Hm & Hr & Hla)].
  { specialize (Hlow p Hp). rewrite Hinf in Hlow. congruence. }
  assert ((bestX st, bestY st) ∈ l) as Hbin.
  { rewrite Hl. apply elem_of_app. right. by left. }
  assert (minDiff st = score w h pad e1 e2 p) as Heq.
  { apply nlt_antisym; try done.
    - rewrite Hm. by apply Hmin.
    - by apply Hlow. }
  split; [done |]. split; [congruence |]. split; [done |].
  rewrite Hl in Hp. apply elem_of_app in Hp as [Hp | Hp].
  - specialize (Hla p Hp). rewrite Heq in Hla.
    rewrite nle_refl in Hla; [done |]. intros E. rewrite E in Hreal. done.
  - apply elem_of_cons in Hp as [-> | Hp]; [by left |]. right.
    rewrite Hl in Hsorted. apply StronglySorted_app_1_r in Hsorted.
    apply StronglySorted_inv in Hsorted as [_ Hall].
    by apply (proj1 (Forall_forall _ _) Hall).
Qed.
End search.

Lemma sampleCount_pos w h pad : 2 * pad < w → 2 * pad < h → 0 < sampleCount w h pad.
Proof.
  intros Hw Hh. unfold sampleCount.
  assert ((pad, pad) ∈ samples w h pad) as Hin.
  { apply elem_of_positions. rewrite !elem_of_zrange by lia.
    rewrite Z.sub_diag. change (0 mod 2) with 0. lia. }
  destruct (samples w h pad); [by apply elem_of_nil in Hin | simpl; lia].
Qed.

Lemma sampleCount_zero w h pad : h ≤ 2 * pad ∨ w ≤ 2 * pad → sampleCount w h pad = 0.
Proof. intros H. unfold sampleCount. by rewrite samples_nil. Qed.

(** C2: when the scoring loops sample at least one pixel and [(dx, dy)] is
    an offset of the window whose score is least, the offset the search
    selects has that same score and is [(dx, dy)] itself or an offset
    scanned before it ([dy] outermost, [dx] innermost, both ascending).
    So among several offsets of identical least score the first scanned is
    selected, whatever their distance to (0, 0). *)
Theorem search_ties_first_scanned (sw w h : Z) (e1 e2 : list num) (dx dy : Z) :
  2 * (sw + 2) < w → 2 * (sw + 2) < h →
  - sw ≤ dx ≤ sw → - sw ≤ dy ≤ sw →
  (score w h (sw + 2) e1 e2 (dx, dy) <? PInf)%num = true →
  (∀ dx' dy', - sw ≤ dx' ≤ sw → - sw ≤ dy' ≤ sw →
     (score w h (sw + 2) e1 e2 (dx', dy') <? score w h (sw + 2) e1 e2 (dx, dy))%num = false) →
  let st := searchOffsets sw w h e1 e2 in
  (- sw ≤ bestX st ≤ sw ∧ - sw ≤ bestY st ≤ sw) ∧
  minDiff st = score w h (sw + 2) e1 e2 (dx, dy) ∧
  score w h (sw + 2) e1 e2 (bestX st, bestY st) = score w h (sw + 2) e1 e2 (dx, dy) ∧
  (bestY st < dy ∨ (bestY st = dy ∧ bestX st ≤ dx)).
Proof.
  intros Hw Hh Hdx Hdy Hreal Hmin. cbv zeta. rewrite searchOffsets_fold.
  destruct (search_first_min w h (sw + 2) e1 e2 (offsets sw) (dx, dy))
    as (Hm & Hs & Hin & Hord).
  - by apply sampleCount_pos.
  - apply offsets_sorted.
  - by apply elem_of_offsets.
  - done.
  - intros [dx' dy'] Hq. apply elem_of_offsets in Hq as [Hx' Hy']. by apply Hmin.
  - unfold searchList in *. cbv zeta in *.
    set (st := fold_left _ (offsets sw) _) in *.
    apply elem_of_offsets in Hin. split; [done |]. split; [done |]. split; [done |].
    destruct Hord as [Heq | [Hlt | [Heq Hlt]]]; simpl in *.
    + injection Heq as -> ->. lia.
    + lia.
    + lia.
Qed.

(** ** Edge maps hold reals (or NaN), never an infinity *)

Lemma real_or_nan_rd8 l i : real_or_nan (rd8 l i).
Proof. unfold rd8. destruct (aget l i); [right; by eexists | by left]. Qed.

Lemma real_or_nan_add a b : real_or_nan a → real_or_nan b → real_or_nan (a + b).
Proof. intros [-> | [x ->]] [-> | [y ->]]; simpl; (by left) || (right; by eexists). Qed.

Lemma real_or_nan_sub a b : real_or_nan a → real_or_nan b → real_or_nan (a - b).
Proof. intros [-> | [x ->]] [-> | [y ->]]; simpl; (by left) || (right; by eexists). Qed.

Lemma real_or_nan_mul a b : real_or_nan a → real_or_nan b → real_or_nan (a * b).
Proof.
  intros [-> | [x ->]] [-> | [y ->]]; simpl; rcases; (by left) || (right; by eexists).
Qed.

Lemma real_or_nan_sqrt a : real_or_nan a → real_or_nan (nsqrt a).
Proof.
  intros [-> | [x ->]]; simpl; [by left |].
  destruct (Rltb x 0); [by left | right; by eexists].
Qed.

Lemma real_or_nan_ofZ z : real_or_nan (ofZ z).
Proof. right. by eexists. Qed.

Lemma Forall_aset {A} (P : A → Prop) l i v : Forall P l → P v → Forall P (aset l i v).
Proof. intros Hl Hv. unfold aset. destruct (i <? 0); [done |]. by apply Forall_insert. Qed.

Lemma Forall_paint {A} (P : A → Prop) w (f : Z → Z → A) ylo yhi xlo xhi m :
  Forall P m → (∀ x y, P (f x y)) → Forall P (paint w f ylo yhi xlo xhi m).
Proof.
  intros Hm Hf. rewrite paint_fold.
  apply (fold_inv (λ (p : Z * Z) m, aset m (p.2 * w + p.1) (f p.1 p.2)) (Forall P)); [| done].
  intros p s Hs. by apply Forall_aset.
Qed.

Lemma computeEdgeMap_paint pixels w h :
  computeEdgeMap pixels w h =
  paint w (edgeAt pixels w) 1 (h - 1) 1 (w - 1) (replicate (Z.to_nat (w * h)) (Fin 0)).
Proof. reflexivity. Qed.

Lemma computeEdgeMap_real_or_nan pixels w h : Forall real_or_nan (computeEdgeMap pixels w h).
Proof.
  rewrite computeEdgeMap_paint. apply Forall_paint.
  - apply Forall_replicate. right. by eexists.
  - intros x y. unfold edgeAt. cbv zeta.
    apply real_or_nan_sqrt.
    repeat first [ apply real_or_nan_sub | apply real_or_nan_add | apply real_or_nan_mul
                 | apply real_or_nan_ofZ | apply real_or_nan_rd8 ].
Qed.

(** ** Shape of the search result *)

Lemma searchOffsets_shape sw w h e1 e2 :
  Forall real_or_nan e1 → Forall real_or_nan e2 →
  search_shape sw w h (searchOffsets sw w h e1 e2).
Proof.
  intros H1 H2. rewrite searchOffsets_fold.
  fold (searchList w h (sw + 2) e1 e2 (offsets sw) (mkSearchState 0 0 PInf ∅)).
  destruct (Z.le_gt_cases (sampleCount w h (sw + 2)) 0) as [Hc | Hc].
  { rewrite searchList_unsampled by done. left. simpl. repeat split; done. }
  assert (∀ q, nonneg_or_nan (score w h (sw + 2) e1 e2 q)) as Hsc.
  { intros q. by apply scoreAt_nonneg_or_nan. }
  destruct (search_inv_holds w h (sw + 2) e1 e2 (offsets sw)) as (Hlow & Hmap & Hbest); [lia |].
  set (st := searchList _ _ _ _ _ _ _) in *.
  assert (∀ k v, scores st !! k = Some v → v = score w h (sw + 2) e1 e2 k ∧ k ∈ offsets sw) as Hval.
  { intros k v Hk. rewrite Hmap in Hk. case_decide; [| done]. by simplify_eq. }
  destruct Hbest as [(Hinf & Hx & Hy) | (la & lb & Hl & Hm & Hr & _)].
  - left. repeat split; try done. intros k v Hk.
    apply Hval in Hk as [-> Hin]. specialize (Hlow k Hin). rewrite Hinf in Hlow.
    destruct (Hsc k) as [E | (r & E & _)]; [done |]. rewrite E in Hlow. done.
  - right. destruct (Hsc (bestX st, bestY st)) as [E | (m & E & Hpos)].
    { rewrite <- Hm in E. rewrite E in Hr. done. }
    exists m. split; [congruence |]. split; [done |].
    assert (¬ (h ≤ 2 * (sw + 2) ∨ w ≤ 2 * (sw + 2))) as Hdim.
    { intros Hd. apply sampleCount_zero in Hd. lia. }
    assert ((bestX st, bestY st) ∈ offsets sw) as Hin.
    { rewrite Hl. apply elem_of_app. right. by left. }
    apply elem_of_offsets in Hin.
    split; [lia |]. split; [lia |]. split; [lia |].
    intros k v Hk. apply Hval in Hk as [-> _]. apply Hsc.
Qed.

(** ** Refinement, deadband and confidence *)

Lemma refine_eq S scale w h st :
  refine S scale w h st =
  let v0 := minDiff st in
  let sx := subPixel (bestX st) v0
              (default v0 (scores st !! (bestX st - 1, bestY st)))
              (default v0 (scores st !! (bestX st + 1, bestY st))) in
  let sy := subPixel (bestY st) v0
              (default v0 (scores st !! (bestX st, bestY st - 1)))
              (default v0 (scores st !! (bestX st, bestY st + 1))) in
  let f := snap S (sx * scale) (sy * scale) in
  mkAlignment f.1 f.2 (nmax (ofZ 0) (ofZ 1 - minDiff st / ofZ (w * h * 100))).
Proof.
  unfold refine, subPixel, snap. cbv zeta.
  by destruct (_ <? Fin (DRIFT_DEADBAND S))%num.
Qed.

Lemma subPixel_real best v0 vm vp :
  (v0 = PInf ∧ (vm = NaN ∨ vm = PInf) ∧ (vp = NaN ∨ vp = PInf)) ∨
  ((∃ m, v0 = Fin m) ∧ real_or_nan vm ∧ real_or_nan vp) →
  ∃ r, subPixel best v0 vm vp = Fin r.
Proof.
  unfold subPixel, ofZ.
  intros [(-> & [-> | ->] & [-> | ->]) | ([m ->] & [-> | [a ->]] & [-> | [b ->]])];
    cbv zeta; simpl; rcases; try (by eexists).
  all: try (exfalso; lra).
  all: exfalso.
  all: assert (a + - (2 * m) + b = 0)%R as E by lra; rewrite E, Rabs_R0 in Hlt; lra.
Qed.

Lemma snap_spec S fx fy :
  snap S (Fin fx) (Fin fy) = (Fin 0, Fin 0) ∨
  (snap S (Fin fx) (Fin fy) = (Fin fx, Fin fy) ∧ (DRIFT_DEADBAND S <= sqrt (fx² + fy²))%R).
Proof.
  unfold snap. cbv zeta. rewrite nsqrt_sqsum. simpl.
  destruct (Rltb _ _) eqn:E; [by left |]. right. split; [done |]. by apply Rltb_false.
Qed.

(** From a search result of the right shape and a finite scale, [refine]
    returns finite offsets that are (0, 0) or at least the deadband long. *)
Lemma refine_deadband S s sw w h st :
  search_shape sw w h st →
  let r := refine S (Fin s) w h st in
  (alignX r = Fin 0 ∧ alignY r = Fin 0) ∨
  ∃ fx fy, alignX r = Fin fx ∧ alignY r = Fin fy ∧
           (DRIFT_DEADBAND S <= sqrt (fx² + fy²))%R.
Proof.
  intros Hshape. cbv zeta. rewrite refine_eq. cbv zeta.
  assert (∀ k, (minDiff st = PInf ∧
                 (default (minDiff st) (scores st !! k) = NaN ∨
                  default (minDiff st) (scores st !! k) = PInf)) ∨
               ((∃ m, minDiff st = Fin m) ∧
                 real_or_nan (default (minDiff st) (scores st !! k)))) as Hk.
  { intros k. destruct Hshape as [(Hinf & _ & _ & Hnan) | (m & Hm & _ & _ & _ & _ & Hsc)].
    - left. split; [done |]. destruct (scores st !! k) as [v |] eqn:E; simpl.
      + left. by apply (Hnan k).
      + by right.
    - right. split; [by eexists |]. destruct (scores st !! k) as [v |] eqn:E; simpl.
      + destruct (Hsc k v E) as [-> | (r & -> & _)]; [by left | right; by eexists].
      + right. by eexists. }
  assert (∀ best k1 k2, ∃ r,
    subPixel best (minDiff st) (default (minDiff st) (scores st !! k1))
      (default (minDiff st) (scores st !! k2)) = Fin r) as Hsub.
  { intros best k1 k2. apply subPixel_real.
    destruct (Hk k1) as [[Hinf H1] | [Hm H1]], (Hk k2) as [[Hinf' H2] | [Hm' H2]].
    - by left.
    - destruct Hm' as [m Hm']. congruence.
    - destruct Hm as [m Hm]. congruence.
    - by right. }
  destruct (Hsub (bestX st) (bestX st - 1, bestY st) (bestX st + 1, bestY st)) as [sx ->].
  destruct (Hsub (bestY st) (bestX st, bestY st - 1) (bestX st, bestY st + 1)) as [sy ->].
  cbn [nmul alignX alignY].
  destruct (snap_spec S (sx * s) (sy * s)) as [-> | [-> Hd]]; [by left |].
  right. by exists (sx * s)%R, (sy * s)%R.
Qed.

Lemma Rdiv_nonneg a b : (0 <= a)%R → (0 < b)%R → (0 <= a / b)%R.
Proof.
  intros Ha Hb. unfold Rdiv. apply Rmult_le_pos; [done |].
  left. by apply Rinv_0_lt_compat.
Qed.

(** The confidence lies in [0, 1]. *)
Lemma refine_confidence S scale sw w h st :
  search_shape sw w h st → 0 ≤ w * h →
  confidence (refine S scale w h st)
    = nmax (ofZ 0) (ofZ 1 - minDiff st / ofZ (w * h * 100)) ∧
  ∃ c, confidence (refine S scale w h st) = Fin c ∧ (0 <= c <= 1)%R.
Proof.
  intros Hshape Hwh. rewrite refine_eq. cbv zeta. cbn [confidence]. split; [done |].
  destruct Hshape as [(-> & _) | (m & -> & Hm & Hsw & Hw & Hh & _)].
  - assert (0 <= IZR (w * h * 100))%R as HD by (apply IZR_le; lia).
    unfold ofZ. simpl. rcases; simpl; try (exfalso; lra); exists 0%R; (split; [done | lra]).
  - assert (0 < IZR (w * h * 100))%R as HD by (apply IZR_lt; nia).
    pose proof (Rdiv_nonneg m (IZR (w * h * 100)) Hm HD) as Hq.
    unfold ofZ. simpl. rcases; simpl; rcases; try (exfalso; lra); eexists; (split; [done | lra]).
Qed.

(** ** Crop and resize *)

Section resized.
Variable has2d : Z → Z → bool.
Variable drawImage : ImageData → num → num → num → num → Z → Z → list Z.

Lemma resizeAndCropImageData_Ok S src tw :
  has2d tw (smallHeight S src tw) = true →
  resizeAndCropImageData has2d drawImage S src tw = Ok (resized drawImage S src tw).
Proof.
  intros Hc. unfold smallHeight in Hc. cbv zeta in Hc.
  unfold resizeAndCropImageData. cbv zeta. by rewrite Hc.
Qed.

Lemma alignFrames_Ok S prev curr :
  canvasGives has2d S prev → canvasGives has2d S curr →
  alignFrames has2d drawImage S prev curr =
  Ok (refine S (alignScale S prev) (ALIGNMENT_DOWNSAMPLE S)
        (smallHeight S prev (ALIGNMENT_DOWNSAMPLE S)) (alignSearch drawImage S prev curr)).
Proof.
  intros Hp Hc. unfold alignFrames. cbv zeta.
  by rewrite !resizeAndCropImageData_Ok by done.
Qed.

Lemma alignSearch_shape S prev curr :
  search_shape (SEARCH_WINDOW S) (ALIGNMENT_DOWNSAMPLE S)
    (smallHeight S prev (ALIGNMENT_DOWNSAMPLE S)) (alignSearch drawImage S prev curr).
Proof. apply searchOffsets_shape; apply computeEdgeMap_real_or_nan. Qed.
End resized.

Lemma Rround_bounds x : (IZR (Rround x) <= x + / 2 < IZR (Rround x) + 1)%R.
Proof. unfold Rround. destruct (base_Int_part (x + / 2)). lra. Qed.

Lemma toInt_ofZ z : toInt (ofZ z) = z.
Proof. apply Rtrunc_IZR. Qed.

(** With a non-zero crop ratio the resized height is
    [round (height * targetWidth / width)]. *)
Lemma smallHeight_formula S src tw :
  width src ≠ 0 → CROP_RATIO S ≠ 0%R →
  smallHeight S src tw = Rround (IZR (height src) * IZR tw / IZR (width src)).
Proof.
  intros Hw Hc. unfold smallHeight, ofZ. cbv zeta. cbn [nmul ndiv].
  assert (IZR (width src) ≠ 0%R) as Hw' by (by apply not_0_IZR).
  assert (IZR (width src) * CROP_RATIO S ≠ 0)%R as Hp by (by apply Rmult_integral_contrapositive).
  rewrite (proj2 (Reqb_false _ _) Hp). cbn [nmul nround].
  rewrite toInt_ofZ. f_equal. by field.
Qed.

Lemma Rround_sign x :
  ((0 <= x)%R → 0 ≤ Rround x) ∧ ((x <= 0)%R → Rround x ≤ 0).
Proof.
  pose proof (Rround_bounds x) as [H1 H2]. split; intros Hx.
  - assert (-1 < Rround x); [| lia]. apply lt_IZR. lra.
  - assert (Rround x < 1); [| lia]. apply lt_IZR. lra.
Qed.

Lemma smallHeight_sign S src tw :
  0 < width src → 0 ≤ height src → 0 ≤ tw * smallHeight S src tw.
Proof.
  intros Hw Hh. destruct (Req_dec_T (CROP_RATIO S) 0) as [Hc | Hc].
  - assert (smallHeight S src tw = 0) as ->; [| lia].
    unfold smallHeight, ofZ. cbv zeta. rewrite Hc. cbn [nmul ndiv].
    rewrite (proj2 (Reqb_true (IZR (width src) * 0) 0)) by lra.
    rcases; simpl; rcases; done.
  - rewrite smallHeight_formula by (done || lia).
    assert (0 < IZR (width src))%R as Hw' by (by apply IZR_lt).
    assert (0 <= IZR (height src))%R as Hh' by (by apply IZR_le).
    destruct (Z.le_gt_cases 0 tw) as [Ht | Ht].
    + assert (0 <= IZR tw)%R as Ht' by (by apply IZR_le).
      apply Z.mul_nonneg_nonneg; [done |]. apply Rround_sign.
      apply Rdiv_nonneg; [| done]. by apply Rmult_le_pos.
    + assert (IZR tw < 0)%R as Ht' by (by apply IZR_lt).
      enough (Rround (IZR (height src) * IZR tw / IZR (width src)) ≤ 0) by nia.
      apply Rround_sign.
      assert (0 <= IZR (height src) * - IZR tw / IZR (width src))%R.
      { apply Rdiv_nonneg; [| done]. apply Rmult_le_pos; lra. }
      unfold Rdiv in *. lra.
Qed.

(** ** Deadband, confidence and unsampled frames *)

Section alignment.
Variable has2d : Z → Z → bool.
Variable drawImage : ImageData → num → num → num → num → Z → Z → list Z.

Lemma alignScale_real S prev :
  ALIGNMENT_DOWNSAMPLE S ≠ 0 → ∃ s, alignScale S prev = Fin s.
Proof.
  intros Hw. unfold alignScale, ofZ. cbn [nmul ndiv].
  rewrite (proj2 (Reqb_false _ _)); [by eexists |]. by apply not_0_IZR.
Qed.


(** C8: when the canvas gives its contexts, the confidence [alignFrames]
    returns for frames of positive dimensions is
    [max(0, 1 - minDiff / (width * height * 100))] at the downsampled size,
    where [minDiff] is +Infinity or a non-negative real, and it lies in
    [0, 1]. *)
Theorem alignFrames_confidence_range (S : Settings) (prev curr : ImageData) :
  canvasGives has2d S prev → canvasGives has2d S curr →
  0 < width prev → 0 < height prev →
  ∃ r, alignFrames has2d drawImage S prev curr = Ok r ∧
    let m := minDiff (alignSearch drawImage S prev curr) in
    let w := ALIGNMENT_DOWNSAMPLE S in
    let h := smallHeight S prev w in
    (m = PInf ∨ ∃ x, m = Fin x ∧ (0 <= x)%R) ∧
    confidence r = nmax (ofZ 0) (ofZ 1 - m / ofZ (w * h * 100)) ∧
    ∃ c, confidence r = Fin c ∧ (0 <= c <= 1)%R.
Proof.
  intros Hp Hc Hw Hh. rewrite alignFrames_Ok by done. eexists. split; [done |].
  cbv zeta. pose proof (alignSearch_shape drawImage S prev curr) as Hshape.
  split.
  - destruct Hshape as [(-> & _) | (m & -> & Hm & _)]; [by left | right; by eexists].
  - apply refine_confidence with (SEARCH_WINDOW S); [done |].
    apply smallHeight_sign; lia.
Qed.

Lemma subPixel_unsampled best : subPixel best PInf PInf PInf = ofZ best.
Proof. unfold subPixel, ofZ. cbv zeta. simpl. rcases; simpl; try done; exfalso; lra. Qed.

Lemma refine_unsampled S s w h :
  0 ≤ w * h →
  refine S (Fin s) w h (mkSearchState 0 0 PInf ∅) = mkAlignment (Fin 0) (Fin 0) (Fin 0).
Proof.
  intros Hwh. rewrite refine_eq. cbv zeta. cbn [minDiff scores bestX bestY].
  rewrite !lookup_empty. cbn [default]. rewrite subPixel_unsampled.
  unfold ofZ. cbn [nmul]. replace (0 * s)%R with 0%R by lra.
  assert (snap S (Fin 0) (Fin 0) = (Fin 0, Fin 0)) as ->.
  { by destruct (snap_spec S 0 0) as [-> | [-> _]]. }
  cbn [fst snd]. f_equal.
  assert (0 <= IZR (w * h * 100))%R as HD by (apply IZR_le; lia).
  simpl. rcases; simpl; try done; exfalso; lra.
Qed.

(** C4: when the canvas gives its contexts, the settings are positive and
    the downsampled height [round (height * resolution / width)] of the
    previous frame is at most [2 * (searchWindow + 2)], the scoring loops
    sample no pixel at any offset and [alignFrames] returns offset (0, 0)
    with confidence 0, whatever the two frames contain. *)
Theorem alignFrames_unsampled (S : Settings) (prev curr : ImageData) :
  canvasGives has2d S prev → canvasGives has2d S curr →
  0 < ALIGNMENT_DOWNSAMPLE S → (0 < CROP_RATIO S)%R →
  0 < width prev → 0 < height prev →
  Rround (IZR (height prev) * IZR (ALIGNMENT_DOWNSAMPLE S) / IZR (width prev))
    ≤ 2 * (SEARCH_WINDOW S + 2) →
  (∀ dx dy e1 e2,
     (scoreAt (ALIGNMENT_DOWNSAMPLE S) (smallHeight S prev (ALIGNMENT_DOWNSAMPLE S))
        (SEARCH_WINDOW S + 2) e1 e2 dx dy).2 = 0) ∧
  alignFrames has2d drawImage S prev curr = Ok (mkAlignment (Fin 0) (Fin 0) (Fin 0)).
Proof.
  intros Hp Hc Hw Hcr Hpw Hph Hsmall.
  rewrite <- (smallHeight_formula S prev) in Hsmall by (lia || lra).
  assert (sampleCount (ALIGNMENT_DOWNSAMPLE S) (smallHeight S prev (ALIGNMENT_DOWNSAMPLE S))
            (SEARCH_WINDOW S + 2) = 0) as Hzero by (apply sampleCount_zero; by left).
  split.
  - intros dx dy e1 e2. by rewrite scoreAt_count.
  - rewrite alignFrames_Ok by done. f_equal.
    destruct (alignScale_real S prev) as [s ->]; [lia |].
    unfold alignSearch. rewrite searchOffsets_fold.
    fold (searchList (ALIGNMENT_DOWNSAMPLE S) (smallHeight S prev (ALIGNMENT_DOWNSAMPLE S))
            (SEARCH_WINDOW S + 2) (edgesOf drawImage S prev) (edgesOf drawImage S curr)
            (offsets (SEARCH_WINDOW S)) (mkSearchState 0 0 PInf ∅)).
    rewrite searchList_unsampled by lia.
    apply refine_unsampled. apply smallHeight_sign; lia.
Qed.
End alignment.

(** ** Frames of one colour *)

Lemma lookup_concat_quads (n : nat) (r g b a : Z) (i : nat) :
  (i < n)%nat →
  concat (replicate n [r; g; b; a]) !! (i * 4)%nat = Some r ∧
  concat (replicate n [r; g; b; a]) !! (i * 4 + 1)%nat = Some g ∧
  concat (replicate n [r; g; b; a]) !! (i * 4 + 2)%nat = Some b.
Proof.
  revert i. induction n as [| n IH]; intros i Hi; [lia |].
  destruct i as [| i]; [done |].
  destruct (IH i ltac:(lia)) as (H1 & H2 & H3). simpl. done.
Qed.

Lemma solidFrame_uniform w h r g b a : uniformRGB (solidFrame w h r g b a) r g b.
Proof.
  intros i Hi. cbn [solidFrame width height data] in *.
  destruct (lookup_concat_quads (Z.to_nat (w * h)) r g b a (Z.to_nat i)) as (H1 & H2 & H3);
    [lia |].
  unfold aget.
  destruct (Z.ltb_spec (i * 4) 0), (Z.ltb_spec (i * 4 + 1) 0), (Z.ltb_spec (i * 4 + 2) 0);
    try lia.
  replace (Z.to_nat (i * 4)) with (Z.to_nat i * 4)%nat by lia.
  replace (Z.to_nat (i * 4 + 1)) with (Z.to_nat i * 4 + 1)%nat by lia.
  replace (Z.to_nat (i * 4 + 2)) with (Z.to_nat i * 4 + 2)%nat by lia.
  done.
Qed.

(** A single loop that writes [f i] at cell [i]. *)
Lemma fill_inside {A} (f : Z → A) lo hi (m : list A) i :
  lo ≤ i < hi → 0 ≤ i < Z.of_nat (length m) →
  aget (for_ lo hi 1 (λ i m, aset m i (f i)) m) i = Some (f i).
Proof.
  intros Hi Hin. unfold for_.
  rewrite (fold_view_self (λ i : Z, i) (λ k m, aget m k) (λ i m, aset m i (f i))
             (λ i o, (λ _, f i) <$> o) (λ _, True) (λ _, True)); auto.
  - by destruct (aget_is_Some m i Hin) as [v ->].
  - intros p s k Hk. by apply aget_aset_ne.
  - intros p s _ _. apply aget_aset_same.
  - by apply Forall_forall.
  - rewrite list_fmap_id. apply NoDup_zrange. lia.
  - by apply elem_of_zrange_unit.
Qed.

Lemma length_fill {A} (f : Z → A) lo hi (m : list A) :
  length (for_ lo hi 1 (λ i m, aset m i (f i)) m) = length m.
Proof.
  unfold for_.
  apply (fold_inv (λ i m, aset m i (f i)) (λ m', length m' = length m)); [| done].
  intros p s Hs. by rewrite length_aset.
Qed.

Lemma length_toGrayscale im : length (toGrayscale im) = Z.to_nat (width im * height im).
Proof. unfold toGrayscale. cbv zeta. by rewrite length_fill, length_replicate. Qed.

Lemma toGrayscale_uniform im r g b i :
  uniformRGB im r g b → 0 ≤ i < width im * height im →
  aget (toGrayscale im) i = Some (grayOf r g b).
Proof.
  intros Hu Hi. unfold toGrayscale. cbv zeta. rewrite length_replicate.
  rewrite fill_inside; [| lia | rewrite length_replicate; lia].
  destruct (Hu i Hi) as (H1 & H2 & H3). unfold rd8. by rewrite H1, H2, H3.
Qed.

Lemma fastBlur_paint pixels w h :
  fastBlur pixels w h =
  paint w (blurAt pixels w) 1 (h - 1) 1 (w - 1) (replicate (length pixels) 0).
Proof. reflexivity. Qed.

Lemma fastBlur_flat pixels w h c x y :
  Z.of_nat (length pixels) = w * h →
  (∀ i, 0 ≤ i < w * h → aget pixels i = Some c) →
  1 ≤ x ≤ w - 2 → 1 ≤ y ≤ h - 2 →
  aget (fastBlur pixels w h) (y * w + x) = Some (blurOf c).
Proof.
  intros Hlen Hflat Hx Hy. rewrite fastBlur_paint.
  rewrite paint_inside; [| lia | lia | lia | lia | rewrite length_replicate; nia].
  f_equal. unfold blurAt, blurOf, rd8. cbv zeta.
  rewrite !Hflat by nia. done.
Qed.

Lemma edgeAt_flat pixels w b x y :
  (∀ x' y', x - 1 ≤ x' ≤ x + 1 → y - 1 ≤ y' ≤ y + 1 →
     aget pixels (y' * w + x') = Some b) →
  edgeAt pixels w x y = Fin 0.
Proof.
  intros Hflat. unfold edgeAt, rd8. cbv zeta.
  replace (y * w + x - w - 1) with ((y - 1) * w + (x - 1)) by lia.
  replace (y * w + x - w + 1) with ((y - 1) * w + (x + 1)) by lia.
  replace (y * w + x - w) with ((y - 1) * w + x) by lia.
  replace (y * w + x - 1) with (y * w + (x - 1)) by lia.
  replace (y * w + x + 1) with (y * w + (x + 1)) by lia.
  replace (y * w + x + w - 1) with ((y + 1) * w + (x - 1)) by lia.
  replace (y * w + x + w + 1) with ((y + 1) * w + (x + 1)) by lia.
  replace (y * w + x + w) with ((y + 1) * w + x) by lia.
  rewrite !Hflat by lia. unfold ofZ. cbn [nmul nadd nsub nneg].
  match goal with |- nsqrt (Fin ?e) = _ => replace e with 0%R by ring end.
  simpl. rewrite (proj2 (Rltb_false 0 0)) by lra. by rewrite sqrt_0.
Qed.

(** The edge map of a one-colour image is 0 two pixels away from the
    border. *)
Lemma edges_flat im r g b x y :
  uniformRGB im r g b →
  2 ≤ x ≤ width im - 3 → 2 ≤ y ≤ height im - 3 →
  rdf (computeEdgeMap (fastBlur (toGrayscale im) (width im) (height im))
         (width im) (height im)) (y * width im + x) = Fin 0.
Proof.
  intros Hu Hx Hy. unfold rdf. rewrite computeEdgeMap_paint.
  rewrite paint_inside; [| lia | lia | lia | lia | rewrite length_replicate; nia].
  apply (edgeAt_flat _ _ (blurOf (grayOf r g b))).
  intros x' y' Hx' Hy'. apply fastBlur_flat; try lia.
  - rewrite length_toGrayscale. nia.
  - intros i Hi. by apply toGrayscale_uniform.
Qed.

(** ** Alignment of flat edge maps *)

Lemma score_flat sw w h e1 e2 dx dy :
  0 ≤ sw →
  (∀ x y, 2 ≤ x ≤ w - 3 → 2 ≤ y ≤ h - 3 →
     rdf e1 (y * w + x) = Fin 0 ∧ rdf e2 (y * w + x) = Fin 0) →
  - sw ≤ dx ≤ sw → - sw ≤ dy ≤ sw →
  score w h (sw + 2) e1 e2 (dx, dy) = Fin 0.
Proof.
  intros Hsw Hflat Hdx Hdy. unfold score. apply scoreAt_zero.
  intros [x y] Hin. apply samples_bounds in Hin as [Hx Hy].
  unfold sqdiff. cbn [fst snd].
  destruct (Hflat x y) as [-> _]; [lia | lia |].
  destruct (Hflat (x + dx) (y + dy)) as [_ ->]; [lia | lia |].
  simpl. f_equal. lra.
Qed.

(** On flat edge maps every offset scores 0 and the search keeps the first
    offset it visits, [(- sw, - sw)]. *)
Lemma searchOffsets_flat sw w h e1 e2 :
  0 ≤ sw → 2 * (sw + 2) < w → 2 * (sw + 2) < h →
  (∀ x y, 2 ≤ x ≤ w - 3 → 2 ≤ y ≤ h - 3 →
     rdf e1 (y * w + x) = Fin 0 ∧ rdf e2 (y * w + x) = Fin 0) →
  let st := searchOffsets sw w h e1 e2 in
  bestX st = - sw ∧ bestY st = - sw ∧ minDiff st = Fin 0 ∧
  ∀ k, default (Fin 0) (scores st !! k) = Fin 0.
Proof.
  intros Hsw Hw Hh Hflat. cbv zeta. rewrite searchOffsets_fold.
  fold (searchList w h (sw + 2) e1 e2 (offsets sw) (mkSearchState 0 0 PInf ∅)).
  assert (∀ q, q ∈ offsets sw → score w h (sw + 2) e1 e2 q = Fin 0) as Hsc.
  { intros [dx dy] Hq. apply elem_of_offsets in Hq as [Hdx Hdy]. by apply score_flat. }
  assert ((- sw, - sw) ∈ offsets sw) as Hfirst by (apply elem_of_offsets; lia).
  destruct (search_first_min w h (sw + 2) e1 e2 (offsets sw) (- sw, - sw))
    as (Hm & _ & Hin & Hord).
  - by apply sampleCount_pos.
  - apply offsets_sorted.
  - done.
  - by rewrite Hsc.
  - intros q Hq. rewrite !Hsc by done. apply nlt_irrefl.
  - destruct (search_inv_holds w h (sw + 2) e1 e2 (offsets sw)) as (_ & Hmap & _).
    { by apply sampleCount_pos. }
    set (st := searchList _ _ _ _ _ _ _) in *.
    apply elem_of_offsets in Hin.
    assert (bestX st = - sw ∧ bestY st = - sw) as [Hx Hy].
    { destruct Hord as [Heq | [Hlt | [Heq Hlt]]]; simpl in *.
      - by injection Heq.
      - lia.
      - lia. }
    split; [done |]. split; [done |]. split; [by rewrite Hm, Hsc |].
    intros k. rewrite Hmap. case_decide; [| done]. simpl. by apply Hsc.
Qed.

Lemma subPixel_flat best : subPixel best (Fin 0) (Fin 0) (Fin 0) = ofZ best.
Proof.
  unfold subPixel, ofZ. cbv zeta. simpl.
  replace (0 + - (2 * 0) + 0)%R with 0%R by lra. rewrite Rabs_R0.
  rewrite (proj2 (Rltb_false 1e-5 0)); [done | lra].
Qed.

Lemma refine_flat S s sw w h st :
  0 < w * h →
  bestX st = - sw → bestY st = - sw → minDiff st = Fin 0 →
  (∀ k, default (Fin 0) (scores st !! k) = Fin 0) →
  refine S (Fin s) w h st =
  mkAlignment (snap S (Fin (IZR (- sw) * s)) (Fin (IZR (- sw) * s))).1
              (snap S (Fin (IZR (- sw) * s)) (Fin (IZR (- sw) * s))).2 (Fin 1).
Proof.
  intros Hwh Hx Hy Hm Hsc. rewrite refine_eq. cbv zeta. rewrite Hm, !Hsc, Hx, Hy.
  rewrite subPixel_flat. unfold ofZ. cbn [nmul]. f_equal.
  assert (0 < IZR (w * h * 100))%R as HD by (apply IZR_lt; lia).
  simpl. rewrite (proj2 (Reqb_false _ 0)) by lra. simpl.
  replace (1 + - (0 / IZR (w * h * 100)))%R with 1%R by (unfold Rdiv; lra).
  rewrite (proj2 (Rltb_true 0 1)); [done | lra].
Qed.

(** Two identical 64 by 64 frames of one colour, under the default
    settings: every offset of the window scores 0, the search keeps the
    first one, (-40, -40), and the result is its rescaling (-12, -12) with
    confidence 1. *)
Lemma alignFrames_flat64 has2d drawImage F r g b :
  has2d 128 128 = true → keeps_solid drawImage →
  width F = 64 → height F = 64 → uniformRGB F r g b →
  alignFrames has2d drawImage SETTINGS F F
  = Ok (mkAlignment (Fin (-12)) (Fin (-12)) (Fin 1)).
Proof.
  intros Hc Hsolid HwF HhF HuF.
  assert (smallHeight SETTINGS F 128 = 128) as Hh.
  { rewrite smallHeight_formula; [| lia | simpl; lra]. rewrite HwF, HhF.
    replace (IZR 64 * IZR 128 / IZR 64)%R with (IZR 128) by lra. apply Rround_IZR. }
  assert (canvasGives has2d SETTINGS F) as Hgives.
  { unfold canvasGives. change (ALIGNMENT_DOWNSAMPLE SETTINGS) with 128. by rewrite Hh. }
  rewrite alignFrames_Ok by done. f_equal.
  change (ALIGNMENT_DOWNSAMPLE SETTINGS) with 128.
  assert (alignScale SETTINGS F = Fin 0.3) as ->.
  { unfold alignScale, ofZ. rewrite HwF.
    cbn [SETTINGS CROP_RATIO ALIGNMENT_DOWNSAMPLE nmul ndiv].
    rewrite (proj2 (Reqb_false (IZR 128) 0)) by lra. f_equal. lra. }
  assert (∃ r' g' b', uniformRGB (resized drawImage SETTINGS F 128) r' g' b')
    as (r' & g' & b' & Hu).
  { unfold resized. cbv zeta. by eapply Hsolid. }
  assert (∀ x y, 2 ≤ x ≤ 128 - 3 → 2 ≤ y ≤ 128 - 3 →
            rdf (edgesOf drawImage SETTINGS F) (y * 128 + x) = Fin 0) as Hflat.
  { intros x y Hx Hy.
    pose proof (edges_flat (resized drawImage SETTINGS F 128) r' g' b' x y Hu) as He.
    unfold edgesOf. cbv zeta. change (ALIGNMENT_DOWNSAMPLE SETTINGS) with 128.
    change (width (resized drawImage SETTINGS F 128)) with 128 in He.
    change (height (resized drawImage SETTINGS F 128)) with (smallHeight SETTINGS F 128) in *.
    rewrite Hh in *. apply He; lia. }
  rewrite Hh.
  destruct (searchOffsets_flat 40 128 128 (edgesOf drawImage SETTINGS F)
              (edgesOf drawImage SETTINGS F)) as (Hx & Hy & Hm & Hsc); try lia.
  { intros x y Hx Hy. split; by apply Hflat. }
  unfold alignSearch. change (ALIGNMENT_DOWNSAMPLE SETTINGS) with 128.
  change (SEARCH_WINDOW SETTINGS) with 40. rewrite Hh.
  rewrite (refine_flat SETTINGS 0.3 40 128 128) by (done || lia).
  change (Z.opp 40) with (-40). replace (IZR (-40) * 0.3)%R with (-12)%R by lra.
  assert (snap SETTINGS (Fin (-12)) (Fin (-12)) = (Fin (-12), Fin (-12))) as ->; [| done].
  unfold snap. cbv zeta. rewrite nsqrt_sqsum. cbn [nlt SETTINGS DRIFT_DEADBAND].
  rewrite (proj2 (Rltb_false _ _)); [done |].
  apply Rle_trans with (sqrt 1); [rewrite sqrt_1; lra |].
  apply sqrt_le_1_alt. unfold Rsqr. lra.
Qed.

(** ** Two flat frames *)

Lemma fillCanvas_keeps_solid : keeps_solid fillCanvas.
Proof.
  intros src cx cy cw ch tw th r g b _. do 3 eexists.
  apply (solidFrame_uniform tw th).
Qed.

(** The code returns (-12, -12), not (0, 0). *)
Lemma flat_frames_counterexample : ¬ flat_frames_claim.
Proof.
  intros Hclaim.
  specialize (Hclaim (λ _ _, true) fillCanvas 128 ltac:(done) fillCanvas_keeps_solid).
  rewrite (alignFrames_flat64 _ _ _ 128 128 128) in Hclaim;
    [| done | apply fillCanvas_keeps_solid | done | done | apply solidFrame_uniform].
  assert ((-12)%R = 0%R) as H by congruence. lra.
Qed.

(** C1, amended: when the canvas gives its contexts and draws a one-colour
    frame as a one-colour image, two identical 64 by 64 frames of one gray
    level align, under the default settings, at offset (-12, -12), which is
    the first offset scanned, (-40, -40), rescaled by 0.3, with
    confidence 1. *)
Theorem flat_frames_first_offset
    (has2d : Z → Z → bool) (drawImage : ImageData → num → num → num → num → Z → Z → list Z)
    (g : Z) :
  has2d 128 128 = true → keeps_solid drawImage →
  alignFrames has2d drawImage SETTINGS
    (solidFrame 64 64 g g g 255) (solidFrame 64 64 g g g 255)
  = Ok (mkAlignment (Fin (-12)) (Fin (-12)) (Fin 1)).
Proof.
  intros Hc Hsolid. apply (alignFrames_flat64 _ _ _ g g g); try done.
  apply solidFrame_uniform.
Qed.

Lemma flat_frames_witness :
  alignFrames (λ _ _, true) fillCanvas SETTINGS
    (solidFrame 64 64 128 128 128 255) (solidFrame 64 64 128 128 128 255)
  = Ok (mkAlignment (Fin (-12)) (Fin (-12)) (Fin 1)).
Proof.
  apply flat_frames_first_offset.
  - reflexivity.
  - apply fillCanvas_keeps_solid.
Defined.

(** ** Mismatched inputs *)

Lemma fold_left_on {A B} (f g : A → B → A) (l : list B) a :
  (∀ a x, x ∈ l → f a x = g a x) → fold_left f l a = fold_left g l a.
Proof.
  revert a. induction l as [| x l IH]; intros a H; simpl; [done |].
  rewrite H by left. apply IH. intros a' y Hy. apply H. by right.
Qed.

Lemma fold_left_nan {B} (t : B → num) (l : list B) :
  fold_left (λ d i, (d + t i)%num) l NaN = NaN.
Proof. induction l as [| x l IH]; simpl; [done | apply IH]. Qed.

Lemma fold_left_hits_nan {B} (t : B → num) (l : list B) d k :
  k ∈ l → t k = NaN → fold_left (λ d i, (d + t i)%num) l d = NaN.
Proof.
  revert d. induction l as [| x l IH]; intros d Hk Ht; [by apply elem_of_nil in Hk |].
  simpl. apply elem_of_cons in Hk as [<- | Hk].
  - rewrite Ht. replace (d + NaN)%num with NaN by (by destruct d). apply fold_left_nan.
  - by apply IH.
Qed.

(** Merging a 2 by 2 frame into the one-pixel accumulator [dot] returns an
    accumulator, and the similarity of fingerprints of lengths 1 and 2 is
    the number 1: neither call signals an error. *)
Lemma mismatch_counterexample :
  ¬ merge_mismatch_claim ∧ getFingerprintSimilarity [10] [10; 200] = Fin 1.
Proof.
  split.
  - intros Hclaim.
    assert (wf_acc dot [Fin 0]) as Hwf by (split; reflexivity).
    destruct (Hclaim dot [Fin 0] (solidFrame 2 2 9 9 9 255) (ofZ 0) (ofZ 0) (Fin 5) (Fin 20)
                false Hwf) as [e He].
    + repeat split; simpl; lia.
    + left. simpl. lia.
    + destruct (mergeFocusStack_spec dot [Fin 0] (solidFrame 2 2 9 9 9 255)
                  (ofZ 0) (ofZ 0) (Fin 5) (Fin 20) false Hwf) as (im & sh & Hm & _).
      congruence.
  - unfold getFingerprintSimilarity, for_, rd8, ofZ. simpl.
    change (Z.of_nat 1 * 255) with 255.
    rewrite (proj2 (Reqb_false (IZR 255) 0)) by lra. f_equal.
    replace (10 + - (10))%R with 0%R by lra. rewrite Rabs_R0. lra.
Qed.

(** C3, amended: neither operation checks dimensions.  On a well-formed
    accumulator [mergeFocusStack] returns a well-formed accumulator of the
    same dimensions, whatever the dimensions of the new frame.
    [getFingerprintSimilarity] returns a number for any two fingerprints:
    entries of the second beyond the length of the first are ignored, and
    a second fingerprint shorter than the first gives NaN. *)
Theorem no_dimension_check :
  (∀ acc accSh new ox oy sens thr dbg,
     wf_acc acc accSh →
     ∃ im sh, mergeFocusStack acc accSh new ox oy sens thr dbg = Ok (im, sh) ∧
              width im = width acc ∧ height im = height acc ∧ wf_acc im sh) ∧
  (∀ fp1 fp2 extra,
     (length fp1 ≤ length fp2)%nat →
     getFingerprintSimilarity fp1 (fp2 ++ extra) = getFingerprintSimilarity fp1 fp2) ∧
  (∀ fp1 fp2,
     (length fp2 < length fp1)%nat → getFingerprintSimilarity fp1 fp2 = NaN).
Proof.
  split; [| split].
  - intros acc accSh new ox oy sens thr dbg Hwf.
    destruct (mergeFocusStack_spec acc accSh new ox oy sens thr dbg Hwf)
      as (im & sh & Hm & Hw & Hh & Hwf' & _).
    by exists im, sh.
  - intros fp1 fp2 extra Hlen. unfold getFingerprintSimilarity, for_. cbv zeta.
    do 2 f_equal. apply fold_left_on. intros d i Hi.
    apply elem_of_zrange_unit in Hi. do 3 f_equal.
    unfold rd8, aget. destruct (Z.ltb_spec i 0); [lia |].
    rewrite lookup_app_l; [done | lia].
  - intros fp1 fp2 Hlen. unfold getFingerprintSimilarity, for_. cbv zeta.
    rewrite (fold_left_hits_nan (λ i, nabs (rd8 fp1 i - rd8 fp2 i)) _ _ (Z.of_nat (length fp2))).
    + done.
    + apply elem_of_zrange_unit. lia.
    + unfold rd8 at 2. rewrite aget_None by lia.
      by destruct (rd8 fp1 _).
Qed.

Lemma no_dimension_check_witness :
  ∃ im sh,
    mergeFocusStack dot [Fin 0] (solidFrame 2 2 9 9 9 255) (ofZ 0) (ofZ 0) (Fin 5) (Fin 20) false
      = Ok (im, sh) ∧
    width im = width dot ∧ height im = height dot ∧ wf_acc im sh.
Proof.
  apply (proj1 no_dimension_check). split; reflexivity.
Defined.

(** ** Instances *)

Example computeSharpnessMap_tile3 : rdf (computeSharpnessMap tile3 3 3) (1 * 3 + 1) = Fin 5.
Proof.
  unfold rdf. rewrite computeSharpnessMap_paint.
  rewrite paint_inside by (rewrite ?length_replicate; lia).
  unfold sharpnessAt, rd8, ofZ. simpl.
  rewrite (proj2 (Rltb_false _ 0)).
  - f_equal. rewrite !Rabs_left by lra.
    match goal with |- sqrt ?e = _ => replace e with (5 * 5)%R by lra end.
    apply sqrt_square. lra.
  - apply Rplus_le_le_0_compat; apply Rle_0_sqr.
Qed.

Lemma computeSharpnessMap_spec_witness :
  length (computeSharpnessMap tile3 3 3) = Z.to_nat (3 * 3) ∧
  (∀ x y, 1 ≤ x ≤ 3 - 2 → 1 ≤ y ≤ 3 - 2 →
     aget (computeSharpnessMap tile3 3 3) (y * 3 + x) =
       Some (Fin (sqrt ((Rabs (red tile3 3 (x - 1) y - red tile3 3 (x + 1) y))²
                        + (Rabs (red tile3 3 x (y - 1) - red tile3 3 x (y + 1)))²)))) ∧
  (∀ x y, 0 ≤ x < 3 → 0 ≤ y < 3 → x = 0 ∨ x = 3 - 1 ∨ y = 0 ∨ y = 3 - 1 →
     aget (computeSharpnessMap tile3 3 3) (y * 3 + x) = Some (Fin 0)).
Proof. apply computeSharpnessMap_spec. reflexivity. Defined.

(** Flat 7 by 7 edge maps and a window of radius 1: all nine offsets tie,
    and the search keeps an offset scanned no later than (1, 1). *)
Lemma search_ties_first_scanned_witness :
  let e := replicate 49 (Fin 0) in
  let st := searchOffsets 1 7 7 e e in
  (- 1 ≤ bestX st ≤ 1 ∧ - 1 ≤ bestY st ≤ 1) ∧
  minDiff st = score 7 7 (1 + 2) e e (1, 1) ∧
  score 7 7 (1 + 2) e e (bestX st, bestY st) = score 7 7 (1 + 2) e e (1, 1) ∧
  (bestY st < 1 ∨ (bestY st = 1 ∧ bestX st ≤ 1)).
Proof.
  assert (∀ dx dy, - 1 ≤ dx ≤ 1 → - 1 ≤ dy ≤ 1 →
            score 7 7 (1 + 2) (replicate 49 (Fin 0)) (replicate 49 (Fin 0)) (dx, dy) = Fin 0)
    as Hflat.
  { intros dx dy Hdx Hdy. apply score_flat; try lia.
    intros x y Hx Hy. unfold rdf. rewrite aget_replicate by lia. done. }
  apply (search_ties_first_scanned 1 7 7 (replicate 49 (Fin 0)) (replicate 49 (Fin 0)) 1 1).
  - lia.
  - lia.
  - lia.
  - lia.
  - rewrite Hflat by lia. reflexivity.
  - intros dx' dy' Hx Hy. rewrite !Hflat by lia. apply nlt_irrefl.
Defined.


Lemma alignFrames_confidence_range_witness :
  let prev := solidFrame 64 64 128 128 128 255 in
  ∃ r, alignFrames (λ _ _, true) fillCanvas SETTINGS prev prev = Ok r ∧
    let m := minDiff (alignSearch fillCanvas SETTINGS prev prev) in
    let w := ALIGNMENT_DOWNSAMPLE SETTINGS in
    let h := smallHeight SETTINGS prev w in
    (m = PInf ∨ ∃ x, m = Fin x ∧ (0 <= x)%R) ∧
    confidence r = nmax (ofZ 0) (ofZ 1 - m / ofZ (w * h * 100)) ∧
    ∃ c, confidence r = Fin c ∧ (0 <= c <= 1)%R.
Proof.
  apply alignFrames_confidence_range.
  - reflexivity.
  - reflexivity.
  - reflexivity.
  - reflexivity.
Defined.

(** A 1280 by 720 frame under the default settings: the downsampled height
    is 72, below twice the padding 42. *)
Lemma alignFrames_unsampled_witness :
  let prev := mkImageData 1280 720 [] in
  (∀ dx dy e1 e2,
     (scoreAt (ALIGNMENT_DOWNSAMPLE SETTINGS)
        (smallHeight SETTINGS prev (ALIGNMENT_DOWNSAMPLE SETTINGS))
        (SEARCH_WINDOW SETTINGS + 2) e1 e2 dx dy).2 = 0) ∧
  alignFrames (λ _ _, true) fillCanvas SETTINGS prev prev
  = Ok (mkAlignment (Fin 0) (Fin 0) (Fin 0)).
Proof.
  apply alignFrames_unsampled.
  - reflexivity.
  - reflexivity.
  - simpl. lia.
  - simpl. lra.
  - simpl. lia.
  - simpl. lia.
  - simpl. replace (IZR 720 * IZR 128 / IZR 1280)%R with (IZR 72) by lra.
    rewrite Rround_IZR. lia.
Defined.

(** ** A 4 by 4 accumulator and frame *)

Lemma sqrt_axis (a : R) : (0 <= a)%R → sqrt ((Rabs (0 - a))² + (Rabs (0 - 0))²) = a.
Proof.
  intros Ha. replace (0 - 0)%R with 0%R by lra. rewrite Rabs_R0.
  rewrite Rabs_left1 by lra. unfold Rsqr.
  replace (- (0 - a) * - (0 - a) + 0 * 0)%R with (a * a)%R by lra.
  by apply sqrt_square.
Qed.

(** The sharpness map of [tile4]: 200 at the pixels (2, 1) and (2, 2). *)
Example computeSharpnessMap_tile4 :
  computeSharpnessMap (data tile4) 4 4 =
  [Fin 0; Fin 0; Fin 0; Fin 0;   Fin 0; Fin 0; Fin 200; Fin 0;
   Fin 0; Fin 0; Fin 200; Fin 0;   Fin 0; Fin 0; Fin 0; Fin 0].
Proof.
  assert (∀ x y, 1 ≤ x ≤ 2 → 1 ≤ y ≤ 2 →
            sharpnessAt (data tile4) 4 x y = if x =? 2 then Fin 200 else Fin 0) as Hat.
  { intros x y Hx Hy.
    rewrite (sharpnessAt_interior (data tile4) 4 4) by (done || lia).
    assert (x = 1 ∨ x = 2) as [-> | ->] by lia;
      assert (y = 1 ∨ y = 2) as [-> | ->] by lia; cbn [Z.eqb Pos.eqb]; f_equal.
    - change (sqrt ((Rabs (0 - 0))² + (Rabs (0 - 0))²) = 0)%R.
      rewrite sqrt_axis; lra.
    - change (sqrt ((Rabs (0 - 0))² + (Rabs (0 - 0))²) = 0)%R.
      rewrite sqrt_axis; lra.
    - change (sqrt ((Rabs (0 - 200))² + (Rabs (0 - 0))²) = 200)%R.
      rewrite sqrt_axis; lra.
    - change (sqrt ((Rabs (0 - 200))² + (Rabs (0 - 0))²) = 200)%R.
      rewrite sqrt_axis; lra. }
  rewrite computeSharpnessMap_paint. unfold paint, for_.
  change (zrange 1 (4 - 1) 1) with [1; 2]. cbn [fold_left].
  rewrite !Hat by lia. reflexivity.
Qed.

Lemma srcIndex_ofZ w kx ky x y :
  srcIndex w (ofZ kx) (ofZ ky) x y = (y + ky) * w + (x + kx).
Proof.
  unfold srcIndex. rewrite !nround_ofZ_add. unfold ofZ. cbn [nmul nadd].
  rewrite <- mult_IZR, <- plus_IZR. apply Rtrunc_IZR.
Qed.

Lemma nle_zero (t : R) : (0 <= t)%R → (ofZ 0 <=? Fin t)%num = true.
Proof. intros Ht. unfold ofZ. cbn [nle]. apply negb_true_iff, Rltb_false. lra. Qed.

Lemma wf_acc_spot : wf_acc spotPixels spotSharpness.
Proof. split; reflexivity. Qed.

Lemma spotSharpness_numbers v : v ∈ spotSharpness → v ≠ NaN.
Proof.
  unfold spotSharpness. intros Hv.
  repeat (apply elem_of_cons in Hv as [-> | Hv]; [done |]).
  by apply elem_of_nil in Hv.
Qed.

(** Merging [tile4] into the spot accumulator one pixel to the left, with
    sensitivity 5 and threshold 20, meets the four rules: the opaque pixel
    (0, 0) is kept (rule 5), the pixel (1, 1) takes the sharp pixel (2, 1)
    of the frame (rule 3), the pixel (2, 1) stays transparent (rule 4),
    and the pixel (3, 1) samples outside the frame (rule 1). *)
Example spot_merge_rules :
  ruleAt spotPixels spotSharpness tile4 (ofZ 1) (ofZ 0) (Fin 5) (Fin 20) 0 0 = Rule5 ∧
  ruleAt spotPixels spotSharpness tile4 (ofZ 1) (ofZ 0) (Fin 5) (Fin 20) 1 1 = Rule3 ∧
  ruleAt spotPixels spotSharpness tile4 (ofZ 1) (ofZ 0) (Fin 5) (Fin 20) 2 1 = Rule4 ∧
  ruleAt spotPixels spotSharpness tile4 (ofZ 1) (ofZ 0) (Fin 5) (Fin 20) 3 1 = Rule1.
Proof.
  unfold ruleAt, mergeRule. rewrite !inBounds_ofZ, !srcIndex_ofZ.
  change (computeSharpnessMap (data tile4) (width spotPixels) (height spotPixels))
    with (computeSharpnessMap (data tile4) 4 4).
  rewrite computeSharpnessMap_tile4.
  repeat split; simpl; num_cases.
Qed.

Lemma debug_mode_overrides_colour_only_witness :
  ∃ imD im sh,
    mergeFocusStack spotPixels spotSharpness tile4 (ofZ 1) (ofZ 0) (Fin 5) (Fin 20) true
      = Ok (imD, sh) ∧
    mergeFocusStack spotPixels spotSharpness tile4 (ofZ 1) (ofZ 0) (Fin 5) (Fin 20) false
      = Ok (im, sh) ∧
    width imD = width im ∧ height imD = height im ∧
    length (data imD) = length (data im) ∧
    ∀ x y, 0 ≤ x < width spotPixels → 0 ≤ y < height spotPixels →
      match ruleAt spotPixels spotSharpness tile4 (ofZ 1) (ofZ 0) (Fin 5) (Fin 20) x y with
      | Rule3 | Rule5 => pixelOf imD x y = magenta
      | Rule1 | Rule4 => pixelOf imD x y = pixelOf im x y
      end.
Proof.
  apply (proj1 (debug_mode_overrides_colour_only spotPixels spotSharpness tile4
                  (ofZ 1) (ofZ 0) (Fin 5) (Fin 20))); simpl; lia.
Defined.

Lemma sharpness_monotone_witness :
  ∃ im sh,
    mergeFocusStack spotPixels spotSharpness tile4 (ofZ 1) (ofZ 0) (Fin 5) (Fin 20) false
      = Ok (im, sh) ∧
    ∀ x y, 0 ≤ x < width spotPixels → 0 ≤ y < height spotPixels →
      let old := sharpnessOf spotSharpness (width spotPixels) x y in
      let out := sharpnessOf sh (width spotPixels) x y in
      (out = Fin 0 ∨ (old <=? out)%num = true) ∧
      (out = Fin 0 → (old <=? Fin 20)%num = true) ∧
      ((old >? Fin 20)%num = true → (old <=? out)%num = true).
Proof.
  apply sharpness_monotone.
  - apply wf_acc_spot.
  - apply spotSharpness_numbers.
  - apply nle_zero. lra.
  - apply nle_zero. lra.
Defined.

(** * Further properties

    Properties of the routines that the claims above do not cover, and of
    the components that call them. *)

(** ** Sums of integers *)

Lemma fold_left_sumZ (t : Z → num) (g : Z → Z) (l : list Z) (d : Z) :
  (∀ i, i ∈ l → t i = ofZ (g i)) →
  fold_left (λ d i, (d + t i)%num) l (ofZ d) = ofZ (d + sumZ g l).
Proof.
  revert d. induction l as [| i l IH]; intros d H; cbn [fold_left].
  - unfold sumZ. simpl. by rewrite Z.add_0_r.
  - change (sumZ g (i :: l)) with (g i + sumZ g l). rewrite H by left. unfold ofZ at 1 2. cbn [nadd]. rewrite <- plus_IZR.
    fold (ofZ (d + g i)). rewrite IH by (intros j Hj; apply H; by right).
    f_equal. lia.
Qed.

Lemma sumZ_bounds (g : Z → Z) (l : list Z) lo hi :
  (∀ i, i ∈ l → lo ≤ g i ≤ hi) →
  lo * Z.of_nat (length l) ≤ sumZ g l ≤ hi * Z.of_nat (length l).
Proof.
  induction l as [| i l IH]; intros H; [unfold sumZ; simpl; lia |].
  change (sumZ g (i :: l)) with (g i + sumZ g l). rewrite length_cons.
  pose proof (H i ltac:(left)). 
  assert (∀ j, j ∈ l → lo ≤ g j ≤ hi) as H' by (intros j Hj; apply H; by right).
  specialize (IH H'). lia.
Qed.

Lemma sumZ_zero (g : Z → Z) (l : list Z) :
  (∀ i, i ∈ l → 0 ≤ g i) → sumZ g l = 0 ↔ ∀ i, i ∈ l → g i = 0.
Proof.
  induction l as [| i l IH]; intros H; simpl.
  - split; [| done]. intros _ j Hj. by apply elem_of_nil in Hj.
  - pose proof (H i ltac:(left)).
    assert (∀ j, j ∈ l → 0 ≤ g j) as H' by (intros j Hj; apply H; by right).
    pose proof (sumZ_bounds g l 0 (sumZ g l)) as Hb.
    assert (0 ≤ sumZ g l).
    { clear -H'. induction l as [| j l IH]; simpl; [lia |].
      pose proof (H' j ltac:(left)).
      assert (0 ≤ sumZ g l) by (apply IH; intros k Hk; apply H'; by right). lia. }
    split.
    + intros Hs j Hj. apply elem_of_cons in Hj as [-> | Hj]; [lia |].
      apply IH; [done | lia | done].
    + intros Hz. rewrite (Hz i) by left.
      rewrite (proj2 (IH H')); [done |]. intros j Hj. apply Hz. by right.
Qed.

Lemma sumZ_ext (g g' : Z → Z) (l : list Z) :
  (∀ i, i ∈ l → g i = g' i) → sumZ g l = sumZ g' l.
Proof.
  induction l as [| i l IH]; intros H; simpl; [done |].
  rewrite H by left. rewrite IH; [done |]. intros j Hj. apply H. by right.
Qed.

(** ** Fingerprint similarity *)

Lemma length_zrange_unit lo hi : length (zrange lo hi 1) = Z.to_nat (hi - lo).
Proof. by rewrite zrange_unit, length_fmap, length_seq. Qed.

(** The loop of [getFingerprintSimilarity] adds whole numbers when every
    cell it reads exists. *)
Lemma fingerprint_diff fp1 fp2 :
  (length fp1 ≤ length fp2)%nat →
  fold_left (λ diff i, (diff + nabs (rd8 fp1 i - rd8 fp2 i))%num)
    (zrange 0 (Z.of_nat (length fp1)) 1) (Fin 0) =
  ofZ (sumZ (λ i, Z.abs (default 0 (aget fp1 i) - default 0 (aget fp2 i)))
         (zrange 0 (Z.of_nat (length fp1)) 1)).
Proof.
  intros Hlen. change (Fin 0) with (ofZ 0).
  rewrite (fold_left_sumZ _ (λ i, Z.abs (default 0 (aget fp1 i) - default 0 (aget fp2 i)))).
  - done.
  - intros i Hi. apply elem_of_zrange_unit in Hi.
    rewrite !rd8_in by lia. unfold ofZ. cbn [nsub nneg nadd nabs].
    by rewrite <- opp_IZR, <- plus_IZR, <- abs_IZR, Z.add_opp_r.
Qed.

Lemma getFingerprintSimilarity_eq fp1 fp2 :
  fp1 ≠ [] → (length fp1 ≤ length fp2)%nat →
  getFingerprintSimilarity fp1 fp2 =
  Fin (1 - IZR (sumZ (λ i, Z.abs (default 0 (aget fp1 i) - default 0 (aget fp2 i)))
                  (zrange 0 (Z.of_nat (length fp1)) 1))
           / IZR (Z.of_nat (length fp1) * 255)).
Proof.
  intros Hne Hlen. unfold getFingerprintSimilarity, for_. cbv zeta.
  rewrite fingerprint_diff by done. unfold ofZ. cbn [ndiv].
  assert (0 < Z.of_nat (length fp1) * 255) as Hn.
  { destruct fp1 as [| a l]; [done |]. rewrite length_cons. lia. }
  apply IZR_lt in Hn.
  rewrite (proj2 (Reqb_false _ 0)) by lra. done.
Qed.

Lemma Rdiv_le_1 a b : (a <= b)%R → (0 < b)%R → (a / b <= 1)%R.
Proof.
  intros Hab Hb. apply Rmult_le_reg_r with b; [done |].
  unfold Rdiv. rewrite Rmult_assoc, Rinv_l by lra. lra.
Qed.

Lemma aget_byte l i : bytes l → 0 ≤ default 0 (aget l i) ≤ 255.
Proof.
  intros Hb. destruct (aget l i) as [v |] eqn:E; simpl; [| lia].
  apply aget_Some in E as [_ E]. by apply (Forall_lookup_1 _ _ _ _ Hb E).
Qed.

(** An empty first fingerprint: the loop does not run and 0 is divided
    by 0. *)
Lemma similarity_empty fp2 : getFingerprintSimilarity [] fp2 = NaN.
Proof.
  unfold getFingerprintSimilarity, for_, ofZ. simpl.
  change (Z.of_nat 0 * 255) with 0.
  rewrite (proj2 (Reqb_true 0 0)) by done.
  rewrite (proj2 (Rltb_false 0 0)) by lra. done.
Qed.

Lemma similarity_unit fp1 fp2 :
  bytes fp1 → bytes fp2 → fp1 ≠ [] → (length fp1 ≤ length fp2)%nat →
  ∃ s, getFingerprintSimilarity fp1 fp2 = Fin s ∧ (0 <= s <= 1)%R.
Proof.
  intros H1 H2 Hne Hlen. rewrite getFingerprintSimilarity_eq by done.
  eexists. split; [done |].
  set (d := sumZ _ _).
  assert (0 * Z.of_nat (length (zrange 0 (Z.of_nat (length fp1)) 1)) ≤ d
          ≤ 255 * Z.of_nat (length (zrange 0 (Z.of_nat (length fp1)) 1))) as Hd.
  { apply sumZ_bounds. intros i _.
    pose proof (aget_byte fp1 i H1). pose proof (aget_byte fp2 i H2). lia. }
  rewrite length_zrange_unit in Hd.
  assert (0 < Z.of_nat (length fp1)) as Hn.
  { destruct fp1 as [| a l]; [done |]. rewrite length_cons. lia. }
  assert (0 ≤ d ≤ Z.of_nat (length fp1) * 255) as [Hd1 Hd2] by lia.
  apply IZR_le in Hd1, Hd2.
  assert (0 < IZR (Z.of_nat (length fp1) * 255))%R as HD by (apply IZR_lt; lia).
  assert (0 <= IZR d / IZR (Z.of_nat (length fp1) * 255) <= 1)%R; [| lra].
  split.
  - by apply Rdiv_nonneg.
  - by apply Rdiv_le_1.
Qed.

(** X1: on fingerprints of bytes, [getFingerprintSimilarity] returns NaN
    exactly when the first fingerprint is empty or longer than the second
    (it divides by zero, or reads cells that do not exist), and otherwise
    a real number between 0 and 1. *)
Theorem getFingerprintSimilarity_range (fp1 fp2 : list Z) :
  bytes fp1 → bytes fp2 →
  (fp1 = [] ∨ (length fp2 < length fp1)%nat → getFingerprintSimilarity fp1 fp2 = NaN) ∧
  (fp1 ≠ [] → (length fp1 ≤ length fp2)%nat →
   ∃ s, getFingerprintSimilarity fp1 fp2 = Fin s ∧ (0 <= s <= 1)%R).
Proof.
  intros H1 H2. split.
  - intros [-> | Hlt]; [apply similarity_empty |].
    unfold getFingerprintSimilarity, for_. cbv zeta.
    rewrite (fold_left_hits_nan (λ i, nabs (rd8 fp1 i - rd8 fp2 i)) _ _ (Z.of_nat (length fp2))).
    + done.
    + apply elem_of_zrange_unit. lia.
    + unfold rd8 at 2. rewrite aget_None by lia. by destruct (rd8 fp1 _).
  - intros Hne Hlen. by apply similarity_unit.
Qed.

(** X2: two non-empty fingerprints of the same length have similarity 1
    if and only if they are equal. *)
Theorem getFingerprintSimilarity_one_iff (fp1 fp2 : list Z) :
  fp1 ≠ [] → length fp1 = length fp2 →
  getFingerprintSimilarity fp1 fp2 = Fin 1 ↔ fp1 = fp2.
Proof.
  intros Hne Hlen. rewrite getFingerprintSimilarity_eq by (done || lia).
  set (d := sumZ _ _).
  assert (0 < IZR (Z.of_nat (length fp1) * 255))%R as HD.
  { apply IZR_lt. destruct fp1 as [| a l]; [done |]. rewrite length_cons. lia. }
  assert (d = 0 ↔ fp1 = fp2) as <-.
  { unfold d. rewrite sumZ_zero by (intros; lia). split.
    - intros Hz. apply list_eq. intros k.
      destruct (decide (k < length fp1)%nat) as [Hk | Hk].
      + specialize (Hz (Z.of_nat k)). rewrite !aget_nat in Hz.
        destruct (lookup_lt_is_Some_2 fp1 k Hk) as [a Ha].
        destruct (lookup_lt_is_Some_2 fp2 k ltac:(lia)) as [b Hb].
        rewrite Ha, Hb in *. simpl in Hz. f_equal.
        assert (Z.abs (a - b) = 0); [| lia]. apply Hz. apply elem_of_zrange_unit. lia.
      + rewrite !lookup_ge_None_2 by lia. done.
    - intros -> i _. rewrite Z.sub_diag. done. }
  split.
  - intros H. injection H as H. 
    assert (IZR d / IZR (Z.of_nat (length fp1) * 255) = 0)%R as Hq by lra.
    apply Rmult_eq_compat_r with (r := IZR (Z.of_nat (length fp1) * 255)) in Hq.
    unfold Rdiv in Hq. rewrite Rmult_assoc, Rinv_l, Rmult_1_r, Rmult_0_l in Hq by lra.
    by apply eq_IZR.
  - intros ->. f_equal. unfold Rdiv. lra.
Qed.

(** X3: on fingerprints of the same length the similarity is symmetric. *)
Theorem getFingerprintSimilarity_sym (fp1 fp2 : list Z) :
  length fp1 = length fp2 →
  getFingerprintSimilarity fp1 fp2 = getFingerprintSimilarity fp2 fp1.
Proof.
  intros Hlen. unfold getFingerprintSimilarity, for_. cbv zeta. rewrite Hlen.
  do 2 f_equal. apply fold_left_pointwise. intros d i. f_equal.
  destruct (rd8 fp1 i), (rd8 fp2 i); simpl; try done.
  f_equal. rewrite <- Rabs_Ropp. f_equal. lra.
Qed.

(** ** The average colour *)

Lemma Rceil_div a b : 0 < b → Rceil (IZR a / IZR b) = (a + b - 1) / b.
Proof.
  intros Hb. unfold Rceil. set (q := (a + b - 1) / b).
  assert ((q - 1) * b < a ≤ q * b) as [H1 H2].
  { pose proof (Z.div_mod (a + b - 1) b ltac:(lia)) as Hdm.
    pose proof (Z.mod_pos_bound (a + b - 1) b Hb). fold q in Hdm. nia. }
  assert (0 < IZR b)%R as Hb' by (by apply IZR_lt).
  apply IZR_lt in H1. apply IZR_le in H2. rewrite mult_IZR in H1, H2. rewrite minus_IZR in H1.
  assert (IZR q - 1 < IZR a / IZR b <= IZR q)%R as [H3 H4].
  { split.
    - apply Rmult_lt_reg_r with (IZR b); [done |].
      unfold Rdiv. rewrite Rmult_assoc, Rinv_l by lra. lra.
    - apply Rmult_le_reg_r with (IZR b); [done |].
      unfold Rdiv. rewrite Rmult_assoc, Rinv_l by lra. lra. }
  rewrite <- (Int_part_spec (- (IZR a / IZR b)) (- q)); [lia |].
  rewrite opp_IZR. lra.
Qed.

Lemma zrange_scale n : zrange 0 (4 * n) 40 = (λ p, p * 4) <$> zrange 0 n 10.
Proof.
  unfold zrange. rewrite <- list_fmap_compose.
  replace ((4 * n - 0 + 40 - 1) / 40) with ((n - 0 + 10 - 1) / 10)
    by (Z.div_mod_to_equations; lia).
  apply list_fmap_ext. intros _ k _. simpl. lia.
Qed.

Lemma sumZ_fmap (g : Z → Z) (f : Z → Z) l : sumZ g (f <$> l) = sumZ (λ i, g (f i)) l.
Proof.
  induction l as [| i l IH]; [done |]. rewrite fmap_cons.
  change (sumZ g (f i :: (f <$> l))) with (g (f i) + sumZ g (f <$> l)). by rewrite IH.
Qed.

Lemma sumZ_const (c : Z) l : sumZ (λ _, c) l = c * Z.of_nat (length l).
Proof.
  induction l as [| i l IH]; [unfold sumZ; simpl; lia |].
  change (sumZ (λ _, c) (i :: l)) with (c + sumZ (λ _, c) l). rewrite IH, length_cons. lia.
Qed.

(** Three sums kept side by side. *)
Lemma fold_left_sum3 (t0 t1 t2 : Z → num) (g0 g1 g2 : Z → Z) (l : list Z) (a b c : Z) :
  (∀ i, i ∈ l → t0 i = ofZ (g0 i) ∧ t1 i = ofZ (g1 i) ∧ t2 i = ofZ (g2 i)) →
  fold_left (λ (s : num * num * num) i,
      let '(r, g, b) := s in ((r + t0 i)%num, (g + t1 i)%num, (b + t2 i)%num))
    l (ofZ a, ofZ b, ofZ c) =
  (ofZ (a + sumZ g0 l), ofZ (b + sumZ g1 l), ofZ (c + sumZ g2 l)).
Proof.
  revert a b c. induction l as [| i l IH]; intros a b c H; cbn [fold_left].
  - unfold sumZ. simpl. by rewrite !Z.add_0_r.
  - destruct (H i ltac:(left)) as (-> & -> & ->).
    change (sumZ ?g (i :: l)) with (g i + sumZ g l).
    unfold ofZ at 1 2 3 4 5 6. cbn [nadd]. rewrite <- !plus_IZR.
    fold (ofZ (a + g0 i)). fold (ofZ (b + g1 i)). fold (ofZ (c + g2 i)).
    rewrite IH by (intros j Hj; apply H; by right).
    by rewrite !Z.add_assoc.
Qed.

Lemma numToString_ofZ z : numToString (ofZ z) = pretty z.
Proof. unfold numToString, ofZ. by rewrite Int_part_IZR. Qed.

Lemma length_sampledPixels img :
  0 < width img * height img → 0 < Z.of_nat (length (sampledPixels img)).
Proof.
  intros Hwh. unfold sampledPixels.
  assert (0 ∈ zrange 0 (width img * height img) 10) as Hin.
  { apply elem_of_zrange; [lia |]. split; [lia |]. done. }
  destruct (zrange _ _ _); [by apply elem_of_nil in Hin | rewrite length_cons; lia].
Qed.

Lemma getAverageColor_eq img :
  wf_image img →
  getAverageColor img = rgbString (sampledMean img 0) (sampledMean img 1) (sampledMean img 2).
Proof.
  intros (Hw & Hh & Hlen). unfold getAverageColor, for_. cbv zeta.
  rewrite Hlen, zrange_scale.
  change (Fin 0, Fin 0, Fin 0) with (ofZ 0, ofZ 0, ofZ 0).
  assert (0 < width img * height img) as Hwh by nia.
  rewrite (fold_left_sum3 _ _ _
             (λ i, default 0 (aget (data img) (i + 0)))
             (λ i, default 0 (aget (data img) (i + 1)))
             (λ i, default 0 (aget (data img) (i + 2)))).
  2:{ intros i Hi. apply list_elem_of_fmap in Hi as (p & -> & Hp).
      apply elem_of_zrange in Hp as [Hp _]; [| lia].
      rewrite !rd8_in by lia. by rewrite Z.add_0_r. }
  rewrite !sumZ_fmap, !Z.add_0_l.
  assert (nceil (ofZ (4 * (width img * height img)) / ofZ 40)
          = ofZ (Z.of_nat (length (sampledPixels img)))) as ->.
  { unfold ofZ. cbn [ndiv]. rewrite (proj2 (Reqb_false (IZR 40) 0)) by lra.
    cbn [nceil]. unfold ofZ. do 2 f_equal. rewrite Rceil_div by lia.
    unfold sampledPixels, zrange. rewrite length_fmap, length_seq.
    rewrite Z2Nat.id; [Z.div_mod_to_equations; lia |].
    apply Z.div_pos; lia. }
  pose proof (length_sampledPixels img Hwh) as Hn. apply IZR_lt in Hn.
  unfold ofZ at 1 2 3 4 5 6. cbn [ndiv].
  rewrite (proj2 (Reqb_false _ 0)) by lra. cbn [nround].
  rewrite !numToString_ofZ. unfold rgbString, sampledMean, channel.
  by fold (sampledPixels img).
Qed.

Lemma Rround_range x lo hi : (IZR lo <= x <= IZR hi)%R → lo ≤ Rround x ≤ hi.
Proof.
  intros [H1 H2]. pose proof (Rround_bounds x) as [H3 H4]. split.
  - assert (lo - 1 < Rround x); [| lia]. apply lt_IZR. rewrite minus_IZR. lra.
  - assert (Rround x < hi + 1); [| lia]. apply lt_IZR. rewrite plus_IZR. lra.
Qed.

(** X5: on a frame of positive dimensions [getAverageColor] returns the
    text rgb(R, G, B) where R, G and B are the means, rounded to the
    nearest integer, of the red, green and blue samples of every tenth
    pixel (pixels 0, 10, 20, ...): the byte stride 40 of the loop is a
    stride of ten pixels, and the divisor [ceil (len / 40)] is the number
    of pixels sampled.  On bytes each of the three lies in 0..255. *)
Theorem getAverageColor_spec (img : ImageData) :
  wf_image img →
  getAverageColor img = rgbString (sampledMean img 0) (sampledMean img 1) (sampledMean img 2) ∧
  (bytes (data img) → ∀ c, 0 ≤ sampledMean img c ≤ 255).
Proof.
  intros Hwf. split; [by apply getAverageColor_eq |].
  intros Hb c. destruct Hwf as (Hw & Hh & Hlen).
  pose proof (length_sampledPixels img ltac:(nia)) as Hn.
  unfold sampledMean. set (l := sampledPixels img) in *.
  assert (0 * Z.of_nat (length l) ≤ sumZ (channel img c) l ≤ 255 * Z.of_nat (length l))
    as [H1 H2].
  { apply sumZ_bounds. intros p _. by apply aget_byte. }
  apply IZR_le in H1, H2. rewrite mult_IZR in H1, H2. apply IZR_lt in Hn.
  apply Rround_range. split.
  - apply Rdiv_nonneg; lra.
  - apply Rmult_le_reg_r with (IZR (Z.of_nat (length l))); [done |].
    unfold Rdiv. rewrite Rmult_assoc, Rinv_l by lra. lra.
Qed.

(** X6: the average colour of a frame of one colour is that colour. *)
Theorem getAverageColor_solid (img : ImageData) (r g b : Z) :
  wf_image img → uniformRGB img r g b →
  getAverageColor img = rgbString r g b.
Proof.
  intros Hwf Hu. rewrite getAverageColor_eq by done.
  destruct Hwf as (Hw & Hh & Hlen).
  pose proof (length_sampledPixels img ltac:(nia)) as Hn.
  assert (∀ c v, (∀ p, 0 ≤ p < width img * height img → channel img c p = v) →
            sampledMean img c = v) as Hmean.
  { intros c v Hc. unfold sampledMean.
    rewrite (sumZ_ext _ (λ _, v)).
    - rewrite sumZ_const, mult_IZR. apply IZR_lt in Hn.
      replace (IZR v * IZR (Z.of_nat (length (sampledPixels img)))
               / IZR (Z.of_nat (length (sampledPixels img))))%R with (IZR v)
        by (field; lra).
      apply Rround_IZR.
    - intros p Hp. apply elem_of_zrange in Hp as [Hp _]; [| lia]. by apply Hc. }
  rewrite (Hmean 0 r), (Hmean 1 g), (Hmean 2 b); [done | | |].
  all: intros p Hp; destruct (Hu p Hp) as (H0 & H1 & H2); unfold channel.
  - by rewrite H2.
  - by rewrite H1.
  - by rewrite Z.add_0_r, H0.
Qed.

(** ** Blur and edge map, in integers *)

Lemma Int_part_div a b : 0 < b → Int_part (IZR a / IZR b) = a / b.
Proof.
  intros Hb. symmetry. apply Int_part_spec.
  pose proof (Z.div_mod a b ltac:(lia)) as Hdm.
  pose proof (Z.mod_pos_bound a b Hb) as Hm.
  assert (b * (a / b) ≤ a < b * (a / b) + b) as [H1 H2] by lia.
  assert (0 < IZR b)%R as Hb' by (by apply IZR_lt).
  apply IZR_le in H1. apply IZR_lt in H2. rewrite plus_IZR, mult_IZR in H2. rewrite mult_IZR in H1.
  split.
  - apply Rmult_lt_reg_r with (IZR b); [done |].
    unfold Rdiv, Rminus. rewrite Rmult_plus_distr_r, Rmult_assoc, Rinv_l by lra. lra.
  - apply Rmult_le_reg_r with (IZR b); [done |].
    unfold Rdiv. rewrite Rmult_assoc, Rinv_l by lra. lra.
Qed.

Lemma rd8_sample pixels w x y :
  0 ≤ y * w + x < Z.of_nat (length pixels) → rd8 pixels (y * w + x) = ofZ (sample pixels w x y).
Proof. intros H. by rewrite rd8_in. Qed.

Lemma sample_byte pixels w x y : bytes pixels → 0 ≤ sample pixels w x y ≤ 255.
Proof. intros Hb. by apply aget_byte. Qed.

(** The nine reads of the loop bodies of [fastBlur] and [computeEdgeMap],
    by coordinates. *)
Ltac by_coordinates w x y :=
  replace (y * w + x - w - 1) with ((y - 1) * w + (x - 1)) by lia;
  replace (y * w + x - w + 1) with ((y - 1) * w + (x + 1)) by lia;
  replace (y * w + x - w) with ((y - 1) * w + x) by lia;
  replace (y * w + x - 1) with (y * w + (x - 1)) by lia;
  replace (y * w + x + 1) with (y * w + (x + 1)) by lia;
  replace (y * w + x + w - 1) with ((y + 1) * w + (x - 1)) by lia;
  replace (y * w + x + w + 1) with ((y + 1) * w + (x + 1)) by lia;
  replace (y * w + x + w) with ((y + 1) * w + x) by lia.

Lemma blurAt_interior pixels w h x y :
  bytes pixels → Z.of_nat (length pixels) = w * h →
  1 ≤ x ≤ w - 2 → 1 ≤ y ≤ h - 2 →
  blurAt pixels w x y = neighbourSum pixels w x y / 9.
Proof.
  intros Hb Hlen Hx Hy. unfold blurAt. cbv zeta. by_coordinates w x y.
  rewrite !rd8_sample by nia.
  unfold ofZ. cbn [nadd ndiv]. rewrite (proj2 (Reqb_false (IZR 9) 0)) by lra.
  rewrite <- !plus_IZR. fold (neighbourSum pixels w x y).
  pose proof (sample_byte pixels w (x - 1) (y - 1) Hb).
  pose proof (sample_byte pixels w x (y - 1) Hb).
  pose proof (sample_byte pixels w (x + 1) (y - 1) Hb).
  pose proof (sample_byte pixels w (x - 1) y Hb).
  pose proof (sample_byte pixels w x y Hb).
  pose proof (sample_byte pixels w (x + 1) y Hb).
  pose proof (sample_byte pixels w (x - 1) (y + 1) Hb).
  pose proof (sample_byte pixels w x (y + 1) Hb).
  pose proof (sample_byte pixels w (x + 1) (y + 1) Hb).
  assert (0 ≤ neighbourSum pixels w x y ≤ 9 * 255) as Hs by (unfold neighbourSum; lia).
  unfold toUint8, Rtrunc.
  assert (0 <= IZR (neighbourSum pixels w x y) / IZR 9)%R as Hq.
  { apply Rdiv_nonneg; [apply IZR_le; lia | lra]. }
  rewrite (proj2 (Rltb_false _ 0)) by done.
  rewrite Int_part_div by lia.
  apply Z.mod_small. Z.div_mod_to_equations. lia.
Qed.

(** X7: on an image of [w * h] bytes, [fastBlur] returns an image of the
    same size whose interior pixels hold the integer quotient by 9 of the
    sum of the nine samples around them, and whose border pixels are 0
    (not the samples of the input). *)
Theorem fastBlur_spec (pixels : list Z) (w h : Z) :
  bytes pixels → Z.of_nat (length pixels) = w * h →
  length (fastBlur pixels w h) = length pixels ∧
  (∀ x y, 1 ≤ x ≤ w - 2 → 1 ≤ y ≤ h - 2 →
     aget (fastBlur pixels w h) (y * w + x) = Some (neighbourSum pixels w x y / 9)) ∧
  (∀ x y, 0 ≤ x < w → 0 ≤ y < h → x = 0 ∨ x = w - 1 ∨ y = 0 ∨ y = h - 1 →
     aget (fastBlur pixels w h) (y * w + x) = Some 0).
Proof.
  intros Hb Hlen. rewrite fastBlur_paint. split; [| split].
  - by rewrite length_paint, length_replicate.
  - intros x y Hx Hy.
    rewrite paint_inside; [| lia | lia | lia | lia | rewrite length_replicate; nia].
    f_equal. by apply blurAt_interior with h.
  - intros x y Hx Hy Hborder.
    rewrite paint_outside by lia. apply aget_replicate. nia.
Qed.

Lemma edgeAt_interior pixels w h x y :
  Z.of_nat (length pixels) = w * h →
  1 ≤ x ≤ w - 2 → 1 ≤ y ≤ h - 2 →
  edgeAt pixels w x y =
  Fin (sqrt (IZR (sobelX pixels w x y * sobelX pixels w x y
                  + sobelY pixels w x y * sobelY pixels w x y))).
Proof.
  intros Hlen Hx Hy. unfold edgeAt. cbv zeta. by_coordinates w x y.
  rewrite !rd8_sample by nia.
  unfold ofZ. cbn [nadd nsub nneg nmul].
  rewrite <- !mult_IZR, <- !opp_IZR, <- !plus_IZR, <- !mult_IZR, <- plus_IZR.
  cbn [nsqrt].
  match goal with |- context [Rltb (IZR (?a * ?a + ?b * ?b)) 0] =>
    assert (0 ≤ a * a + b * b) as He
      by (pose proof (Z.square_nonneg a); pose proof (Z.square_nonneg b); lia);
    apply IZR_le in He;
    rewrite (proj2 (Rltb_false (IZR (a * a + b * b)) 0)) by done
  end.
  do 3 f_equal; unfold sobelX, sobelY; lia.
Qed.

(** X8: on an image of [w * h] samples, [computeEdgeMap] returns a map of
    [w * h] cells; an interior cell holds [sqrt (gx² + gy²)] for the two
    Sobel responses [gx] and [gy] at that pixel, and a border cell
    holds 0. *)
Theorem computeEdgeMap_spec (pixels : list Z) (w h : Z) :
  Z.of_nat (length pixels) = w * h →
  length (computeEdgeMap pixels w h) = Z.to_nat (w * h) ∧
  (∀ x y, 1 ≤ x ≤ w - 2 → 1 ≤ y ≤ h - 2 →
     aget (computeEdgeMap pixels w h) (y * w + x) =
     Some (Fin (sqrt (IZR (sobelX pixels w x y * sobelX pixels w x y
                           + sobelY pixels w x y * sobelY pixels w x y))))) ∧
  (∀ x y, 0 ≤ x < w → 0 ≤ y < h → x = 0 ∨ x = w - 1 ∨ y = 0 ∨ y = h - 1 →
     aget (computeEdgeMap pixels w h) (y * w + x) = Some (Fin 0)).
Proof.
  intros Hlen. rewrite computeEdgeMap_paint. split; [| split].
  - by rewrite length_paint, length_replicate.
  - intros x y Hx Hy.
    rewrite paint_inside; [| lia | lia | lia | lia | rewrite length_replicate; nia].
    f_equal. by apply edgeAt_interior with h.
  - intros x y Hx Hy Hborder.
    rewrite paint_outside by lia. apply aget_replicate. nia.
Qed.

Lemma sample_shift pixels w c x y :
  0 ≤ y * w + x < Z.of_nat (length pixels) →
  sample ((λ v, v + c) <$> pixels) w x y = sample pixels w x y + c.
Proof.
  intros H. unfold sample, aget. destruct (Z.ltb_spec (y * w + x) 0); [lia |].
  rewrite list_lookup_fmap.
  destruct (lookup_lt_is_Some_2 pixels (Z.to_nat (y * w + x)) ltac:(lia)) as [v ->]. done.
Qed.

(** X9: adding one constant to every sample leaves the edge map as it
    is. *)
Theorem computeEdgeMap_brightness (pixels : list Z) (w h c : Z) :
  Z.of_nat (length pixels) = w * h →
  computeEdgeMap ((λ v, v + c) <$> pixels) w h = computeEdgeMap pixels w h.
Proof.
  intros Hlen. rewrite !computeEdgeMap_paint, !paint_fold.
  apply fold_left_on. intros m [x y] Hin. cbn [fst snd]. f_equal.
  apply elem_of_positions in Hin as [Hx Hy]. apply elem_of_zrange_unit in Hx, Hy.
  rewrite (edgeAt_interior _ w h), (edgeAt_interior pixels w h);
    [| done | lia | lia | by rewrite length_fmap | lia | lia].
  unfold sobelX, sobelY. rewrite !sample_shift by nia. do 3 f_equal; lia.
Qed.

(** ** What the search reads *)

Lemma scoreAt_on w h pad e1 e1' e2 e2' dx dy :
  (∀ p, p ∈ samples w h pad → sqdiff w e1 e2 dx dy p = sqdiff w e1' e2' dx dy p) →
  scoreAt w h pad e1 e2 dx dy = scoreAt w h pad e1' e2' dx dy.
Proof.
  intros H. rewrite !scoreAt_fold. apply fold_left_on.
  intros a p Hp. by rewrite H.
Qed.

(** X10: the search reads the previous edge map only at the sampled
    positions and the current one only two pixels or more away from the
    border: two pairs of edge maps that agree there give the same search
    result (best offset, least score and table of scores).  The border
    left at 0 by [fastBlur] and [computeEdgeMap], and the cells next to
    it, never influence the alignment. *)
Theorem search_reads_interior (sw w h : Z) (e1 e1' e2 e2' : list num) :
  0 ≤ sw →
  (∀ x y, sw + 2 ≤ x < w - (sw + 2) → sw + 2 ≤ y < h - (sw + 2) →
     rdf e1 (y * w + x) = rdf e1' (y * w + x)) →
  (∀ x y, 2 ≤ x < w - 2 → 2 ≤ y < h - 2 →
     rdf e2 (y * w + x) = rdf e2' (y * w + x)) →
  searchOffsets sw w h e1 e2 = searchOffsets sw w h e1' e2'.
Proof.
  intros Hsw H1 H2. rewrite !searchOffsets_fold.
  apply fold_left_on. intros st [dx dy] Hin. cbn [fst snd].
  apply elem_of_offsets in Hin as [Hdx Hdy].
  unfold searchStep. rewrite (scoreAt_on w h (sw + 2) e1 e1' e2 e2'); [done |].
  intros [x y] Hp. apply samples_bounds in Hp as [Hx Hy].
  unfold sqdiff. cbn [fst snd]. by rewrite H1, H2 by lia.
Qed.

(** ** A frame aligned with itself *)

Lemma length_fastBlur pixels w h : length (fastBlur pixels w h) = length pixels.
Proof. by rewrite fastBlur_paint, length_paint, length_replicate. Qed.

(** Every cell of the edge map of a full image holds a real number. *)
Lemma computeEdgeMap_real pixels w h x y :
  Z.of_nat (length pixels) = w * h → 0 ≤ x < w → 0 ≤ y < h →
  ∃ v, rdf (computeEdgeMap pixels w h) (y * w + x) = Fin v.
Proof.
  intros Hlen Hx Hy. unfold rdf. rewrite computeEdgeMap_paint.
  destruct (decide (1 ≤ y < h - 1 ∧ 1 ≤ x < w - 1)) as [Hin | Hout].
  - rewrite paint_inside; [| lia | lia | lia | lia | rewrite length_replicate; nia].
    rewrite (edgeAt_interior pixels w h) by (done || lia). by eexists.
  - rewrite paint_outside by (done || lia).
    rewrite aget_replicate by nia. by eexists.
Qed.

Lemma score_self w h pad e :
  0 ≤ pad →
  (∀ x y, 0 ≤ x < w → 0 ≤ y < h → ∃ v, rdf e (y * w + x) = Fin v) →
  score w h pad e e (0, 0) = Fin 0.
Proof.
  intros Hpad Hreal. unfold score. apply scoreAt_zero.
  intros [x y] Hp. apply samples_bounds in Hp as [Hx Hy].
  unfold sqdiff. cbn [fst snd]. rewrite !Z.add_0_r.
  destruct (Hreal x y) as [v ->]; [lia | lia |].
  simpl. f_equal. lra.
Qed.

Lemma searchOffsets_self sw w h e :
  0 ≤ sw → 2 * (sw + 2) < w → 2 * (sw + 2) < h →
  Forall real_or_nan e →
  (∀ x y, 0 ≤ x < w → 0 ≤ y < h → ∃ v, rdf e (y * w + x) = Fin v) →
  minDiff (searchOffsets sw w h e e) = Fin 0.
Proof.
  intros Hsw Hw Hh Hron Hreal.
  pose proof (searchOffsets_shape sw w h e e Hron Hron) as Hshape.
  rewrite searchOffsets_fold in *.
  destruct (search_inv_holds w h (sw + 2) e e (offsets sw)) as (Hlow & _ & _).
  { by apply sampleCount_pos. }
  unfold searchList in Hlow.
  set (st := fold_left _ (offsets sw) _) in *.
  specialize (Hlow (0, 0)). rewrite score_self in Hlow by (done || lia).
  assert ((0, 0) ∈ offsets sw) as Hin by (apply elem_of_offsets; lia).
  specialize (Hlow Hin).
  destruct Hshape as [(Hinf & _) | (m & Hm & Hpos & _)].
  - rewrite Hinf in Hlow. done.
  - rewrite Hm in *. f_equal. simpl in Hlow. apply Rltb_false in Hlow. lra.
Qed.

Section self_alignment.
Variable has2d : Z → Z → bool.
Variable drawImage : ImageData → num → num → num → num → Z → Z → list Z.

(** X11: when the resized frame is large enough for the search to sample
    it, aligning a frame with itself gives confidence exactly 1.  The
    height of the resized frame is asked to reach [2 * (searchWindow + 2)
    + 1] before it is rounded, so that the rounding of the code, in
    binary64, cannot fall on the other side. *)
Theorem alignFrames_self_confidence (S : Settings) (F : ImageData) :
  canvasGives has2d S F →
  0 ≤ SEARCH_WINDOW S → (CROP_RATIO S ≠ 0)%R → width F ≠ 0 →
  2 * (SEARCH_WINDOW S + 2) < ALIGNMENT_DOWNSAMPLE S →
  (IZR (2 * (SEARCH_WINDOW S + 2) + 1)
     <= IZR (height F) * IZR (ALIGNMENT_DOWNSAMPLE S) / IZR (width F))%R →
  ∃ r, alignFrames has2d drawImage S F F = Ok r ∧ confidence r = Fin 1.
Proof.
  intros Hc Hsw Hcrop HwF Hw Hreal.
  assert (2 * (SEARCH_WINDOW S + 2)
            < Rround (IZR (height F) * IZR (ALIGNMENT_DOWNSAMPLE S) / IZR (width F))) as Hh.
  { pose proof (Rround_bounds
        (IZR (height F) * IZR (ALIGNMENT_DOWNSAMPLE S) / IZR (width F))) as [_ Hup].
    rewrite plus_IZR in Hreal. apply lt_IZR. lra. }
  rewrite <- (smallHeight_formula S F) in Hh by done.
  rewrite alignFrames_Ok by done. eexists. split; [done |].
  set (w := ALIGNMENT_DOWNSAMPLE S) in *. set (h := smallHeight S F w) in *.
  pose proof (alignSearch_shape drawImage S F F) as Hshape.
  destruct (refine_confidence S (alignScale S F) (SEARCH_WINDOW S) w h
              (alignSearch drawImage S F F) Hshape ltac:(nia)) as [-> _].
  unfold alignSearch. fold w h.
  rewrite searchOffsets_self; try done.
  - assert (0 < IZR (w * h * 100))%R as HD by (apply IZR_lt; nia).
    unfold ofZ. cbn [ndiv]. rewrite (proj2 (Reqb_false _ 0)) by lra.
    cbn [nsub nneg nadd nmax nlt].
    replace (1 + - (0 / IZR (w * h * 100)))%R with 1%R by (unfold Rdiv; lra).
    rewrite (proj2 (Rltb_true 0 1)); [done | lra].
  - apply computeEdgeMap_real_or_nan.
  - intros x y Hx Hy. unfold edgesOf. cbv zeta. fold w.
    change (height (resized drawImage S F w)) with h.
    apply computeEdgeMap_real; try done.
    rewrite length_fastBlur, length_toGrayscale.
    change (width (resized drawImage S F w)) with w.
    change (height (resized drawImage S F w)) with h. nia.
Qed.
End self_alignment.

(** ** Accumulators, cell by cell *)

Lemma list_eq_aget {A} (l1 l2 : list A) :
  length l1 = length l2 →
  (∀ i, 0 ≤ i < Z.of_nat (length l1) → aget l1 i = aget l2 i) → l1 = l2.
Proof.
  intros Hlen H. apply list_eq. intros k.
  destruct (decide (k < length l1)%nat) as [Hk | Hk].
  - specialize (H (Z.of_nat k) ltac:(lia)). by rewrite !aget_nat in H.
  - by rewrite !lookup_ge_None_2 by lia.
Qed.

(** Two accumulators of the same dimensions that agree at every pixel are
    equal. *)
Lemma accumulator_ext im1 sh1 im2 sh2 :
  wf_acc im1 sh1 → wf_acc im2 sh2 → 0 ≤ width im1 →
  width im2 = width im1 → height im2 = height im1 →
  (∀ x y, 0 ≤ x < width im1 → 0 ≤ y < height im1 →
     sharpnessOf sh2 (width im1) x y = sharpnessOf sh1 (width im1) x y ∧
     pixelOf im2 x y = pixelOf im1 x y) →
  im2 = im1 ∧ sh2 = sh1.
Proof.
  intros [Hp1 Hs1] [Hp2 Hs2] Hw0 Hw Hh Hcell.
  destruct im1 as [w h px1], im2 as [w2 h2 px2]. cbn [width height data] in *. subst w2 h2.
  assert (∀ t, 0 ≤ t < w * h → ∃ x y, 0 ≤ x < w ∧ 0 ≤ y < h ∧ t = y * w + x) as Hxy.
  { intros t Ht.
    assert (0 < w) by (destruct (Z.eq_dec w 0) as [-> | Hne]; lia).
    exists (t mod w), (t / w).
    pose proof (Z.mod_pos_bound t w ltac:(lia)). pose proof (Z.div_mod t w ltac:(lia)).
    split; [lia |]. split; [| lia].
    split; [apply Z.div_pos; lia |]. apply Z.div_lt_upper_bound; nia. }
  assert (sh2 = sh1) as ->.
  { apply list_eq_aget; [lia |]. intros t Ht.
    destruct (Hxy t ltac:(lia)) as (x & y & Hx & Hy & ->).
    destruct (Hcell x y Hx Hy) as [Hsh _]. unfold sharpnessOf, rdf in Hsh.
    destruct (aget_is_Some sh2 (y * w + x) ltac:(lia)) as [v2 E2].
    destruct (aget_is_Some sh1 (y * w + x) ltac:(lia)) as [v1 E1].
    rewrite E1, E2 in *. by f_equal. }
  split; [| done]. f_equal.
  apply list_eq_aget; [lia |]. intros i Hi.
  destruct (Hxy (i / 4)) as (x & y & Hx & Hy & Ht).
  { split; [apply Z.div_pos; lia |]. apply Z.div_lt_upper_bound; lia. }
  destruct (Hcell x y Hx Hy) as [_ Hpx]. unfold pixelOf, cellAt in Hpx.
  cbn [width data snd] in Hpx. rewrite <- Ht in Hpx.
  pose proof (Z.div_mod i 4 ltac:(lia)) as Hdm.
  pose proof (Z.mod_pos_bound i 4 ltac:(lia)) as Hm.
  assert (∀ j, 0 ≤ j < 4 * (w * h) →
            default 0 (aget px2 j) = default 0 (aget px1 j) → aget px2 j = aget px1 j) as Hget.
  { intros j Hj Hd.
    destruct (aget_is_Some px2 j ltac:(lia)) as [v2 Ev2].
    destruct (aget_is_Some px1 j ltac:(lia)) as [v1 Ev1].
    rewrite Ev1, Ev2 in *. simpl in Hd. by subst. }
  injection Hpx as H0 H1 H2 H3.
  assert (i = i / 4 * 4 ∨ i = i / 4 * 4 + 1 ∨ i = i / 4 * 4 + 2 ∨ i = i / 4 * 4 + 3)
    as [E | [E | [E | E]]] by lia; rewrite E; apply Hget; (lia || done).
Qed.

(** ** A merge that leaves the accumulator as it is *)

Lemma nround_out_high x o w :
  0 ≤ x → (IZR w <= o)%R → (nround (ofZ x + Fin o) <? ofZ w)%num = false.
Proof.
  intros Hx Ho. unfold ofZ. cbn [nadd nround]. unfold ofZ. cbn [nlt].
  apply Rltb_false. apply IZR_le.
  pose proof (Rround_bounds (IZR x + o)) as [_ H2].
  assert (w < Rround (IZR x + o) + 1); [| lia].
  apply lt_IZR. rewrite plus_IZR. apply IZR_le in Hx. lra.
Qed.

Lemma nround_out_low x o w :
  x < w → (o <= - IZR w)%R → (nround (ofZ x + Fin o) >=? ofZ 0)%num = false.
Proof.
  intros Hx Ho. unfold nge, ofZ. cbn [nadd nround]. unfold ofZ. cbn [nle].
  apply negb_false_iff. apply Rltb_true. apply IZR_lt.
  pose proof (Rround_bounds (IZR x + o)) as [H1 _].
  assert (Rround (IZR x + o) < 0); [| lia].
  apply lt_IZR. assert (IZR x <= IZR w - 1)%R by (rewrite <- minus_IZR; apply IZR_le; lia). lra.
Qed.

Lemma inBounds_out_of_reach w h ox oy x y :
  0 ≤ x < w → 0 ≤ y < h →
  ox = NaN ∨ oy = NaN ∨
  (nabs ox >=? ofZ w)%num = true ∨ (nabs oy >=? ofZ h)%num = true →
  inBounds w h ox oy x y = false.
Proof.
  intros Hx Hy Hout. unfold inBounds. cbv zeta.
  assert (∀ o v n, 0 ≤ v < n →
            o = NaN ∨ (nabs o >=? ofZ n)%num = true →
            (nround (ofZ v + o) >=? ofZ 0)%num && (nround (ofZ v + o) <? ofZ n)%num = false)
    as Haxis.
  { intros o v n Hv [-> | Ho]; [done |].
    destruct o as [r | | |]; try done.
    unfold nge, ofZ in Ho. cbn [nabs nle] in Ho. apply negb_true_iff, Rltb_false in Ho.
    destruct (Rle_lt_dec 0 r) as [Hr | Hr].
    - rewrite Rabs_right in Ho by lra.
      rewrite (nround_out_high v r n) by (lia || done). apply andb_false_r.
    - rewrite Rabs_left in Ho by done.
      rewrite (nround_out_low v r n) by (lia || lra). done. }
  destruct Hout as [Hox | [Hoy | [Hox | Hoy]]].
  - rewrite (Haxis ox x w) by auto. done.
  - rewrite <- andb_assoc. rewrite (Haxis oy y h) by auto. apply andb_false_r.
  - rewrite (Haxis ox x w) by auto. done.
  - rewrite <- andb_assoc. rewrite (Haxis oy y h) by auto. apply andb_false_r.
Qed.

(** X12: when an offset is NaN, or at least as large in absolute value as
    the accumulator's dimension on its axis, no sampled position falls
    inside the frame and [mergeFocusStack] returns the accumulator
    unchanged. *)
Theorem mergeFocusStack_out_of_reach
    (acc : ImageData) (accSh : list num) (new : ImageData)
    (ox oy sens thr : num) (dbg : bool) :
  wf_acc acc accSh →
  ox = NaN ∨ oy = NaN ∨
  (nabs ox >=? ofZ (width acc))%num = true ∨ (nabs oy >=? ofZ (height acc))%num = true →
  mergeFocusStack acc accSh new ox oy sens thr dbg = Ok (acc, accSh).
Proof.
  intros Hwf Hout. pose proof Hwf as [H1 H2]. rewrite mergeFocusStack_unfold.
  destruct (Nat.ltb_spec (Z.to_nat (width acc * height acc * 4)) (length (data acc))); [lia |].
  destruct (Nat.ltb_spec (Z.to_nat (width acc * height acc)) (length accSh)); [lia |].
  cbv zeta. rewrite (startPixels_wf acc accSh Hwf), (startSharpness_wf acc accSh Hwf).
  rewrite mergeLoop_fold.
  assert (∀ l st, Forall (λ p : Z * Z, 0 ≤ p.1 < width acc ∧ 0 ≤ p.2 < height acc) l →
    fold_left (λ s p, mergeStep (width acc) (height acc)
        (computeSharpnessMap (data new) (width acc) (height acc)) (data new)
        ox oy sens thr dbg p.1 p.2 s) l st = st) as Hid.
  { induction l as [| [x y] l IH]; intros st Hl; [done |].
    apply Forall_cons in Hl as [[Hx Hy] Hl]. cbn [fold_left fst snd] in *.
    destruct st as [px sh]. rewrite mergeStep_unfold. cbv zeta.
    unfold mergeRule. rewrite inBounds_out_of_reach by done. by apply IH. }
  rewrite Hid.
  - cbn [fst snd]. by destruct acc.
  - apply Forall_forall. intros [x y] Hin. apply elem_of_positions in Hin as [Hx Hy].
    apply elem_of_zrange_unit in Hx, Hy. simpl. lia.
Qed.

(** ** Merging the same frame twice *)

Lemma ruleAt_dims acc accSh im sh new ox oy sens thr x y :
  width im = width acc → height im = height acc →
  oldSharpness im sh x y = oldSharpness acc accSh x y →
  ruleAt im sh new ox oy sens thr x y = ruleAt acc accSh new ox oy sens thr x y.
Proof. intros Hw Hh Ho. unfold ruleAt. by rewrite Hw, Hh, Ho. Qed.

Lemma nlt_nonneg_zero t : (ofZ 0 <=? t)%num = true → (Fin 0 >? t)%num = false.
Proof. destruct t; intros H; num_cases. Qed.

(** X13: with a non-negative threshold, merging the same frame at the same
    offset a second time changes nothing. *)
Theorem mergeFocusStack_idempotent
    (acc : ImageData) (accSh : list num) (new : ImageData)
    (ox oy sens thr : num) (dbg : bool) :
  wf_acc acc accSh → 0 ≤ width acc →
  (ofZ 0 <=? thr)%num = true →
  ∃ im sh,
    mergeFocusStack acc accSh new ox oy sens thr dbg = Ok (im, sh) ∧
    mergeFocusStack im sh new ox oy sens thr dbg = Ok (im, sh).
Proof.
  intros Hwf Hw0 Hthr.
  destruct (mergeFocusStack_spec acc accSh new ox oy sens thr dbg Hwf)
    as (im & sh & Hm & Hw & Hh & Hwf' & Hcell).
  exists im, sh. split; [done |].
  destruct (mergeFocusStack_spec im sh new ox oy sens thr dbg Hwf')
    as (im2 & sh2 & Hm2 & Hw2 & Hh2 & Hwf2 & Hcell2).
  rewrite Hm2. f_equal.
  destruct (accumulator_ext im sh im2 sh2) as [-> ->]; try done; [lia |].
  rewrite Hw, Hh. intros x y Hx Hy.
  specialize (Hcell x y Hx Hy).
  specialize (Hcell2 x y ltac:(lia) ltac:(lia)). rewrite Hw in Hcell2.
  apply pair_equal_spec. rewrite Hcell2. clear Hcell2.
  destruct (oldSharpness_wf im sh x y Hwf' ltac:(lia) ltac:(lia)) as [Hold' _].
  destruct (oldSharpness_wf acc accSh x y Hwf Hx Hy) as [Hold _].
  rewrite Hw in Hold'.
  unfold ruleAt in *. rewrite Hw, Hh, Hold'. rewrite Hold in Hcell.
  unfold newSharpnessAt, newPixel in *. rewrite Hw, Hh.
  set (newSh := computeSharpnessMap (data new) (width acc) (height acc)) in *.
  set (a := sharpnessOf accSh (width acc) x y) in *.
  set (n := rdf newSh (srcIndex (width acc) ox oy x y)) in *.
  unfold mergeRule in *. fold n in Hcell |- *.
  destruct (inBounds (width acc) (height acc) ox oy x y).
  2:{ apply pair_equal_spec in Hcell as [Hs Hp]. by rewrite Hs, Hp. }
  destruct (n >? thr)%num eqn:En, (n >? a + sens)%num eqn:E1, (a >? thr)%num eqn:E2;
    cbn [andb orb negb] in Hcell; apply pair_equal_spec in Hcell as [Hs Hp];
    rewrite Hs, ?En, ?E2, ?E1, ?(nlt_nonneg_zero thr Hthr); cbn [andb orb negb];
    try (by destruct dbg; rewrite ?Hp).
  all: destruct (n >? n + sens)%num; by destruct dbg; rewrite ?Hp.
Qed.

(** ** Opaque where sharp *)

Lemma ngt_trans_zero a t :
  (ofZ 0 <=? t)%num = true → (a >? t)%num = true → (a >? ofZ 0)%num = true.
Proof. destruct a, t; intros H1 H2; num_cases. Qed.

Lemma nlt_zero_irrefl : (Fin 0 >? ofZ 0)%num = false.
Proof. num_cases. Qed.

(** The rule that decides a pixel keeps it transparent with sharpness 0 or
    opaque with a positive sharpness. *)
Lemma masked_cell (acc : ImageData) (accSh : list num) (new : ImageData)
    (ox oy sens thr : num) (dbg : bool) (x y : Z)
    (s : num) (p : Z * Z * Z * Z) :
  wf_acc acc accSh → (ofZ 0 <=? thr)%num = true →
  0 ≤ x < width acc → 0 ≤ y < height acc →
  (alphaOf acc x y = 0 ∧ sharpnessOf accSh (width acc) x y = Fin 0) ∨
  (alphaOf acc x y = 255 ∧ (sharpnessOf accSh (width acc) x y >? ofZ 0)%num = true) →
  (s, p) =
    match ruleAt acc accSh new ox oy sens thr x y with
    | Rule1 => (sharpnessOf accSh (width acc) x y, pixelOf acc x y)
    | Rule3 => (newSharpnessAt acc new ox oy x y,
                if dbg then magenta else newPixel acc new ox oy x y)
    | Rule4 => (Fin 0, transparent (pixelOf acc x y))
    | Rule5 => (sharpnessOf accSh (width acc) x y,
                if dbg then magenta else pixelOf acc x y)
    end →
  (p.2 = 0 ∧ s = Fin 0) ∨ (p.2 = 255 ∧ (s >? ofZ 0)%num = true).
Proof.
  intros Hwf Hthr Hx Hy Hmask Hcell. unfold alphaOf in *.
  assert (ruleAt acc accSh new ox oy sens thr x y = Rule3 →
          (newSharpnessAt acc new ox oy x y >? thr)%num = true) as H3.
  { unfold ruleAt, mergeRule, newSharpnessAt.
    destruct (inBounds _ _ _ _ _ _); [| done].
    destruct (_ >? thr)%num; [done |]. cbn [andb]. by destruct (negb _). }
  assert (ruleAt acc accSh new ox oy sens thr x y = Rule5 →
          (sharpnessOf accSh (width acc) x y >? thr)%num = true) as H5.
  { unfold ruleAt, mergeRule.
    destruct (oldSharpness_wf acc accSh x y Hwf Hx Hy) as [-> _].
    destruct (inBounds _ _ _ _ _ _); [| done].
    destruct (_ && _); [done |].
    by destruct (sharpnessOf accSh (width acc) x y >? thr)%num. }
  destruct (ruleAt acc accSh new ox oy sens thr x y);
    apply pair_equal_spec in Hcell as [-> ->].
  - done.
  - right. split; [by destruct dbg |]. by apply ngt_trans_zero with thr, H3.
  - by left.
  - specialize (H5 eq_refl). pose proof (ngt_trans_zero _ _ Hthr H5) as Hpos.
    right. split; [| done]. destruct dbg; [done |].
    destruct Hmask as [[_ Hz] | [Ha _]]; [| done].
    rewrite Hz in Hpos. by rewrite nlt_zero_irrefl in Hpos.
Qed.

(** X14: with a non-negative threshold, if every pixel of the accumulator
    is either transparent (alpha 0) with sharpness 0 or opaque (alpha 255)
    with a positive sharpness, the same holds of the result of a merge. *)
Theorem mergeFocusStack_keeps_mask
    (acc : ImageData) (accSh : list num) (new : ImageData)
    (ox oy sens thr : num) (dbg : bool) :
  wf_acc acc accSh → masked acc accSh →
  (ofZ 0 <=? thr)%num = true →
  ∃ im sh,
    mergeFocusStack acc accSh new ox oy sens thr dbg = Ok (im, sh) ∧ masked im sh.
Proof.
  intros Hwf Hmask Hthr.
  destruct (mergeFocusStack_spec acc accSh new ox oy sens thr dbg Hwf)
    as (im & sh & Hm & Hw & Hh & Hwf' & Hcell).
  exists im, sh. split; [done |].
  intros x y Hx Hy. rewrite Hw in *. rewrite Hh in Hy.
  apply (masked_cell acc accSh new ox oy sens thr dbg x y); try done.
  - by apply Hmask.
  - by apply Hcell.
Qed.

(** ** The first frame *)

Lemma wf_acc_blank w h : 0 ≤ w * h → wf_acc (blankPixels w h) (blankSharpness w h).
Proof.
  intros H. unfold wf_acc, blankPixels, blankSharpness. cbn [data width height].
  rewrite !length_replicate. lia.
Qed.

Lemma blank_cell w h x y :
  0 ≤ x < w → 0 ≤ y < h →
  sharpnessOf (blankSharpness w h) w x y = Fin 0 ∧ pixelOf (blankPixels w h) x y = (0, 0, 0, 0).
Proof.
  intros Hx Hy. unfold sharpnessOf, rdf, pixelOf, cellAt, blankSharpness, blankPixels.
  cbn [data width snd].
  rewrite !aget_replicate by nia. done.
Qed.

Lemma masked_blank w h : masked (blankPixels w h) (blankSharpness w h).
Proof.
  intros x y Hx Hy. left. cbn [blankPixels width height] in *.
  destruct (blank_cell w h x y Hx Hy) as [Hs Hp].
  unfold alphaOf. by rewrite Hp.
Qed.

Lemma toUint8Clamp_byte l i :
  bytes l → 0 ≤ i < Z.of_nat (length l) → toUint8Clamp (aget l i) = default 0 (aget l i).
Proof.
  intros Hb Hi. pose proof (aget_byte l i Hb) as Hv.
  destruct (aget_is_Some l i Hi) as [v E]. rewrite E in *. simpl in *. lia.
Qed.

(** X15: merging a frame into the blank accumulator of its dimensions at
    offset (0, 0), with a non-negative threshold, masks the frame by its
    sharpness: a pixel whose sharpness exceeds the threshold is copied
    opaque (magenta in debug mode) with that sharpness, and every other
    pixel is transparent black with sharpness 0. *)
Theorem mergeFocusStack_first_frame
    (new : ImageData) (sens thr : num) (dbg : bool) :
  wf_image new → bytes (data new) → (ofZ 0 <=? thr)%num = true →
  let w := width new in
  let h := height new in
  ∃ im sh,
    mergeFocusStack (blankPixels w h) (blankSharpness w h) new
      (ofZ 0) (ofZ 0) sens thr dbg = Ok (im, sh) ∧
    width im = w ∧ height im = h ∧
    ∀ x y, 0 ≤ x < w → 0 ≤ y < h →
      let s := sharpnessOf (computeSharpnessMap (data new) w h) w x y in
      if (s >? thr)%num
      then sharpnessOf sh w x y = s ∧
           pixelOf im x y = (if dbg then magenta else opaque (pixelOf new x y))
      else sharpnessOf sh w x y = Fin 0 ∧ pixelOf im x y = (0, 0, 0, 0).
Proof.
  intros (Hw & Hh & Hlen) Hb Hthr. cbv zeta.
  destruct (mergeFocusStack_spec (blankPixels (width new) (height new))
              (blankSharpness (width new) (height new)) new (ofZ 0) (ofZ 0) sens thr dbg)
    as (im & sh & Hm & Hwi & Hhi & _ & Hcell); [apply wf_acc_blank; nia |].
  exists im, sh. split; [done |]. split; [done |]. split; [done |].
  intros x y Hx Hy. cbn [blankPixels width height] in Hcell.
  specialize (Hcell x y Hx Hy).
  destruct (blank_cell (width new) (height new) x y Hx Hy) as [Hs0 Hp0].
  rewrite Hs0, Hp0 in Hcell.
  unfold ruleAt, mergeRule, newSharpnessAt, newPixel in Hcell.
  cbn [blankPixels width height] in Hcell.
  rewrite inBounds_zero_offset in Hcell by done.
  rewrite srcIndex_ofZ, !Z.add_0_r in Hcell.
  assert (oldSharpness (blankPixels (width new) (height new))
            (blankSharpness (width new) (height new)) x y = Fin 0) as Hold.
  { unfold oldSharpness, blankSharpness. cbn [blankPixels width].
    by rewrite aget_replicate by nia. }
  rewrite Hold, (nlt_nonneg_zero thr Hthr) in Hcell. cbn [negb] in Hcell.
  rewrite orb_true_r, andb_true_r in Hcell.
  unfold sharpnessOf at 1 3.
  destruct (rdf _ _ >? thr)%num; apply pair_equal_spec in Hcell as [-> ->].
  - split; [done |]. destruct dbg; [done |].
    unfold opaque, pixelOf, cellAt. cbn [snd fst].
    rewrite !toUint8Clamp_byte by (done || nia). done.
  - done.
Qed.

(** ** The panel's accumulator *)

Lemma wf_image_merged (acc im : ImageData) (sh : list num) :
  wf_image acc → wf_acc im sh → width im = width acc → height im = height acc → wf_image im.
Proof. intros (Hw & Hh & _) [Hl _] Ew Eh. unfold wf_image. rewrite Ew, Eh in *. done. Qed.

Lemma wf_image_blank w h : 0 < w → 0 < h → wf_image (blankPixels w h).
Proof.
  intros Hw Hh. unfold wf_image, blankPixels. cbn [width height data].
  rewrite length_replicate. split; [done |]. split; [done |]. nia.
Qed.

(** A merge takes an accumulator the panel may keep to another one, of the
    same dimensions. *)
Lemma merge_keeps_stack acc accSh new ox oy sens thr dbg :
  wf_image acc → wf_acc acc accSh → masked acc accSh →
  (ofZ 0 <=? thr)%num = true →
  ∃ im sh,
    mergeFocusStack acc accSh new ox oy sens thr dbg = Ok (im, sh) ∧
    width im = width acc ∧ height im = height acc ∧
    wf_image im ∧ wf_acc im sh ∧ masked im sh.
Proof.
  intros Hwi Hwf Hmask Hthr.
  destruct (mergeFocusStack_spec acc accSh new ox oy sens thr dbg Hwf)
    as (im & sh & Hm & Hw & Hh & Hwf' & Hcell).
  exists im, sh. split; [done |]. split; [done |]. split; [done |].
  split; [by apply (wf_image_merged acc im sh) |]. split; [done |].
  intros x y Hx Hy. rewrite Hw in *. rewrite Hh in Hy.
  apply (masked_cell acc accSh new ox oy sens thr dbg x y); try done.
  - by apply Hmask.
  - by apply Hcell.
Qed.

Section panel.
Variable has2d : Z → Z → bool.
Variable drawImage : ImageData → num → num → num → num → Z → Z → list Z.

Lemma stackInv_untouched st st' :
  FocusStack.accumulatorRef st' = FocusStack.accumulatorRef st → stackInv st → stackInv st'.
Proof. intros E H acc Hacc. apply H. by rewrite <- E. Qed.

(** X16: [performStacking] on a frame of positive dimensions, with a
    non-negative threshold, keeps the accumulator of the panel well
    formed (and opaque exactly where its sharpness is positive), and never
    throws a RangeError.  With a canvas context it either throws
    the error of [alignFrames] (no context), leaving the accumulator as it was and
    not calling [onStack], or it ends with an accumulator of the
    dimensions of the frame, calls [onStack] and clears [isProcessing]. *)
Theorem performStacking_keeps_accumulator
    (S : Settings) (cur : ImageData) (depth : Z) (canvas : option bool)
    (st : FocusStack.State) :
  stackInv st → wf_image cur →
  (ofZ 0 <=? FocusStack.threshold st)%num = true →
  let out := FocusStack.performStacking has2d drawImage S (Some cur) depth canvas st in
  stackInv (FocusStack.state out) ∧
  FocusStack.thrown out ≠ Some RangeError ∧
  (canvas = Some true →
     (FocusStack.thrown out = Some NoContext ∧ FocusStack.onStack out = None ∧
      FocusStack.accumulatorRef (FocusStack.state out) = FocusStack.accumulatorRef st) ∨
     (FocusStack.thrown out = None ∧ FocusStack.onStack out ≠ None ∧
      FocusStack.isProcessing (FocusStack.state out) = false ∧
      ∃ acc, FocusStack.accumulatorRef (FocusStack.state out) = Some acc ∧
        width (FocusStack.pixels acc) = width cur ∧
        height (FocusStack.pixels acc) = height cur)).
Proof.
  intros Hinv Hcur Hthr. cbv zeta. unfold FocusStack.performStacking.
  destruct canvas as [[|] |]; cbn [negb].
  2:{ split; [by apply (stackInv_untouched st) |]. split; done. }
  2:{ split; [done |]. split; done. }
  cbv zeta.
  set (st1 := FocusStack.setIsProcessing true st).
  assert (FocusStack.threshold st1 = FocusStack.threshold st) as Ethr by done.
  assert (FocusStack.accumulatorRef st1 = FocusStack.accumulatorRef st) as Eacc by done.
  (* the first frame *)
  assert (∀ P : FocusStack.Outcome → Prop,
    (∀ im sh, wf_image im → wf_acc im sh → masked im sh →
       width im = width cur → height im = height cur →
       P (FocusStack.mkOutcome
            (FocusStack.setIsProcessing false
               (FocusStack.setAccumulator (Some (FocusStack.mkAccumulator im sh))
                  (FocusStack.setBackgroundColor (getAverageColor cur) st1)))
            (Some 1) None)) →
    P (match mergeFocusStack (FocusStack.emptyAccPixels cur) (FocusStack.emptyAccSharpness cur)
               cur (ofZ 0) (ofZ 0)
               (FocusStack.sensitivity (FocusStack.setBackgroundColor (getAverageColor cur) st1))
               (FocusStack.threshold (FocusStack.setBackgroundColor (getAverageColor cur) st1))
               (FocusStack.debugMode (FocusStack.setBackgroundColor (getAverageColor cur) st1))
       with
       | Ok (imageData, sh) =>
           FocusStack.mkOutcome
             (FocusStack.setIsProcessing false
                (FocusStack.setAccumulator (Some (FocusStack.mkAccumulator imageData sh))
                   (FocusStack.setBackgroundColor (getAverageColor cur) st1)))
             (Some 1) None
       | Err e =>
           FocusStack.mkOutcome (FocusStack.setBackgroundColor (getAverageColor cur) st1)
             None (Some e)
       end)) as Hinit.
  { intros P HP. destruct Hcur as (Hw & Hh & Hlen).
    destruct (merge_keeps_stack (blankPixels (width cur) (height cur))
                (blankSharpness (width cur) (height cur)) cur (ofZ 0) (ofZ 0)
                (FocusStack.sensitivity st) (FocusStack.threshold st) (FocusStack.debugMode st))
      as (im & sh & Hm & Ew & Eh & Hwi & Hwf & Hmask).
    - by apply wf_image_blank.
    - apply wf_acc_blank. nia.
    - apply masked_blank.
    - done.
    - change (FocusStack.emptyAccPixels cur) with (blankPixels (width cur) (height cur)).
      change (FocusStack.emptyAccSharpness cur) with (blankSharpness (width cur) (height cur)).
      cbn [FocusStack.setBackgroundColor FocusStack.sensitivity FocusStack.threshold
           FocusStack.debugMode st1 FocusStack.setIsProcessing].
      rewrite Hm. by apply HP. }
  assert (∀ im sh, wf_image im → wf_acc im sh → masked im sh →
            ∀ st2, stackInv (FocusStack.setIsProcessing false
                     (FocusStack.setAccumulator (Some (FocusStack.mkAccumulator im sh)) st2)))
    as Hnew.
  { intros im sh H1 H2 H3 st2 acc Hacc. cbn in Hacc. by simplify_eq. }
  destruct (FocusStack.accumulatorRef st1) as [acc |] eqn:Hacc.
  2:{ apply Hinit. intros im sh H1 H2 H3 Ew Eh. cbn [FocusStack.state FocusStack.thrown
        FocusStack.onStack]. split; [by apply Hnew |]. split; [done |].
      intros _. right. repeat split; try done. by exists (FocusStack.mkAccumulator im sh). }
  destruct (negb (width (FocusStack.pixels acc) =? width cur)
            || negb (height (FocusStack.pixels acc) =? height cur)) eqn:Hdim.
  { apply Hinit. intros im sh H1 H2 H3 Ew Eh. cbn [FocusStack.state FocusStack.thrown
      FocusStack.onStack]. split; [by apply Hnew |]. split; [done |].
    intros _. right. repeat split; try done. by exists (FocusStack.mkAccumulator im sh). }
  apply orb_false_iff in Hdim as [Ew Eh].
  apply negb_false_iff, Z.eqb_eq in Ew, Eh.
  destruct (Hinv acc) as (Hwi & Hwf & Hmask); [by rewrite <- Eacc |].
  destruct (alignFrames has2d drawImage S (FocusStack.pixels acc) cur) as [alignment | e] eqn:Ha.
  2:{ cbn [FocusStack.state FocusStack.thrown FocusStack.onStack].
      split; [by apply (stackInv_untouched st) |].
      assert (e = NoContext) as ->.
      { unfold alignFrames, resizeAndCropImageData in Ha. cbv zeta in Ha.
        repeat match type of Ha with
               | context [if ?b then _ else _] => destruct b
               end; congruence. }
      split; [done |]. intros _. left. by rewrite Hacc, <- Eacc. }
  match goal with
  | |- context [if ?c then (ofZ 0, ofZ 0) else ?e] =>
      destruct (if c then (ofZ 0, ofZ 0) else e) as [finalX finalY]
  end.
  destruct (merge_keeps_stack (FocusStack.pixels acc) (FocusStack.sharpness acc) cur
              finalX finalY (FocusStack.sensitivity st) (FocusStack.threshold st)
              (FocusStack.debugMode st) Hwi Hwf Hmask Hthr)
    as (im & sh & Hm & Ew' & Eh' & Hwi' & Hwf' & Hmask').
  cbn [FocusStack.setOffsetDisplay FocusStack.sensitivity FocusStack.threshold
       FocusStack.debugMode st1 FocusStack.setIsProcessing].
  rewrite Hm. cbn [FocusStack.state FocusStack.thrown FocusStack.onStack].
  split; [by apply Hnew |]. split; [done |]. intros _. right.
  repeat split; try done. exists (FocusStack.mkAccumulator im sh).
  cbn. split; [done |]. split; congruence.
Qed.

(** X17: when the panel has no accumulator, or one whose dimensions differ
    from the frame's, [performStacking] discards it, merges the frame into
    a blank accumulator at offset (0, 0) without aligning, sets the
    background to the average colour of the frame and reports depth 1. *)
Theorem performStacking_first_frame
    (S : Settings) (cur : ImageData) (depth : Z) (st : FocusStack.State) :
  wf_image cur →
  match FocusStack.accumulatorRef st with
  | None => True
  | Some acc =>
      width (FocusStack.pixels acc) ≠ width cur ∨ height (FocusStack.pixels acc) ≠ height cur
  end →
  let out := FocusStack.performStacking has2d drawImage S (Some cur) depth (Some true) st in
  ∃ im sh,
    mergeFocusStack (blankPixels (width cur) (height cur))
      (blankSharpness (width cur) (height cur)) cur (ofZ 0) (ofZ 0)
      (FocusStack.sensitivity st) (FocusStack.threshold st) (FocusStack.debugMode st)
      = Ok (im, sh) ∧
    FocusStack.accumulatorRef (FocusStack.state out) = Some (FocusStack.mkAccumulator im sh) ∧
    FocusStack.backgroundColor (FocusStack.state out) = getAverageColor cur ∧
    FocusStack.offsetDisplay (FocusStack.state out) = FocusStack.offsetDisplay st ∧
    FocusStack.isProcessing (FocusStack.state out) = false ∧
    FocusStack.onStack out = Some 1 ∧ FocusStack.thrown out = None.
Proof.
  intros (Hw & Hh & Hlen) Hfresh. cbv zeta.
  destruct (mergeFocusStack_spec (blankPixels (width cur) (height cur))
              (blankSharpness (width cur) (height cur)) cur (ofZ 0) (ofZ 0)
              (FocusStack.sensitivity st) (FocusStack.threshold st) (FocusStack.debugMode st))
    as (im & sh & Hm & _); [apply wf_acc_blank; nia |].
  exists im, sh. split; [done |].
  unfold FocusStack.performStacking. cbn [negb]. cbv zeta.
  change (FocusStack.emptyAccPixels cur) with (blankPixels (width cur) (height cur)).
  change (FocusStack.emptyAccSharpness cur) with (blankSharpness (width cur) (height cur)).
  cbn [FocusStack.setBackgroundColor FocusStack.setIsProcessing FocusStack.sensitivity
       FocusStack.threshold FocusStack.debugMode FocusStack.accumulatorRef].
  rewrite Hm.
  destruct (FocusStack.accumulatorRef st) as [acc |]; [| done].
  destruct (negb (width (FocusStack.pixels acc) =? width cur)
            || negb (height (FocusStack.pixels acc) =? height cur)) eqn:Hdim; [done |].
  apply orb_false_iff in Hdim as [Ew Eh].
  apply negb_false_iff, Z.eqb_eq in Ew, Eh. lia.
Qed.

Lemma alignFrames_small S prev curr :
  canvasGives has2d S prev → canvasGives has2d S curr →
  0 < ALIGNMENT_DOWNSAMPLE S → (0 < CROP_RATIO S)%R →
  0 < width prev → 0 < height prev →
  Rround (IZR (height prev) * IZR (ALIGNMENT_DOWNSAMPLE S) / IZR (width prev))
    ≤ 2 * (SEARCH_WINDOW S + 2) →
  alignFrames has2d drawImage S prev curr = Ok (mkAlignment (Fin 0) (Fin 0) (Fin 0)).
Proof.
  intros Hp Hc Hw Hcr Hpw Hph Hsmall.
  rewrite <- (smallHeight_formula S prev) in Hsmall by (lia || lra).
  rewrite alignFrames_Ok by done. f_equal.
  destruct (alignScale_real S prev) as [s ->]; [lia |].
  unfold alignSearch. rewrite searchOffsets_fold.
  fold (searchList (ALIGNMENT_DOWNSAMPLE S) (smallHeight S prev (ALIGNMENT_DOWNSAMPLE S))
          (SEARCH_WINDOW S + 2) (edgesOf drawImage S prev) (edgesOf drawImage S curr)
          (offsets (SEARCH_WINDOW S)) (mkSearchState 0 0 PInf ∅)).
  rewrite searchList_unsampled by (rewrite sampleCount_zero; [lia | by left]).
  apply refine_unsampled. apply smallHeight_sign; lia.
Qed.

(** X18: when the resized frame is at most [2 * (searchWindow + 2)] pixels
    high (under the default settings, any frame at least 128/84 as wide as
    high, such as a 16:9 camera frame), the alignment samples nothing and
    [performStacking] merges at offset (0, 0). *)
Theorem performStacking_wide_frames
    (S : Settings) (cur : ImageData) (depth : Z) (st : FocusStack.State)
    (acc : FocusStack.Accumulator) :
  FocusStack.accumulatorRef st = Some acc →
  wf_image (FocusStack.pixels acc) →
  wf_acc (FocusStack.pixels acc) (FocusStack.sharpness acc) →
  width cur = width (FocusStack.pixels acc) → height cur = height (FocusStack.pixels acc) →
  canvasGives has2d S cur →
  0 < ALIGNMENT_DOWNSAMPLE S → (0 < CROP_RATIO S)%R →
  Rround (IZR (height cur) * IZR (ALIGNMENT_DOWNSAMPLE S) / IZR (width cur))
    ≤ 2 * (SEARCH_WINDOW S + 2) →
  let out := FocusStack.performStacking has2d drawImage S (Some cur) depth (Some true) st in
  ∃ im sh,
    mergeFocusStack (FocusStack.pixels acc) (FocusStack.sharpness acc) cur (ofZ 0) (ofZ 0)
      (FocusStack.sensitivity st) (FocusStack.threshold st) (FocusStack.debugMode st)
      = Ok (im, sh) ∧
    FocusStack.accumulatorRef (FocusStack.state out) = Some (FocusStack.mkAccumulator im sh) ∧
    FocusStack.offsetDisplay (FocusStack.state out) = (ofZ 0, ofZ 0) ∧
    FocusStack.onStack out = Some (depth + 1) ∧ FocusStack.thrown out = None.
Proof.
  intros Hacc (Hw & Hh & Hlen) Hwf Ew Eh Hc Hds Hcr Hsmall. cbv zeta.
  destruct (mergeFocusStack_spec (FocusStack.pixels acc) (FocusStack.sharpness acc) cur
              (ofZ 0) (ofZ 0) (FocusStack.sensitivity st) (FocusStack.threshold st)
              (FocusStack.debugMode st) Hwf) as (im & sh & Hm & _).
  exists im, sh. split; [done |].
  assert (canvasGives has2d S (FocusStack.pixels acc)) as Hp.
  { unfold canvasGives, smallHeight in *. by rewrite <- Ew, <- Eh. }
  unfold FocusStack.performStacking. cbn [negb]. cbv zeta.
  cbn [FocusStack.setIsProcessing FocusStack.accumulatorRef]. rewrite Hacc.
  rewrite <- Ew, <- Eh, !Z.eqb_refl. cbn [negb orb].
  rewrite alignFrames_small; [| done | done | done | done | lia | lia | by rewrite <- Ew, <- Eh].
  cbn [confidence alignX alignY].
  assert ((Fin 0 <=? Fin 0.5)%num = true) as -> by (simpl; apply negb_true_iff, Rltb_false; lra).
  cbn [orb FocusStack.setOffsetDisplay FocusStack.sensitivity FocusStack.threshold
       FocusStack.debugMode].
  change (FocusStack.sensitivity (FocusStack.setIsProcessing true st))
    with (FocusStack.sensitivity st).
  change (FocusStack.threshold (FocusStack.setIsProcessing true st))
    with (FocusStack.threshold st).
  change (FocusStack.debugMode (FocusStack.setIsProcessing true st))
    with (FocusStack.debugMode st).
  rewrite Hm. done.
Qed.

(** X19: the offset [performStacking] displays and merges at is a pair of
    real numbers of absolute value at most 100; it is (0, 0) or the offset
    [alignFrames] returned, and the latter only when the confidence
    exceeds 0.5. *)
Theorem performStacking_offset_gate
    (S : Settings) (cur : ImageData) (depth : Z) (st : FocusStack.State)
    (acc : FocusStack.Accumulator) :
  FocusStack.accumulatorRef st = Some acc →
  wf_image (FocusStack.pixels acc) →
  wf_acc (FocusStack.pixels acc) (FocusStack.sharpness acc) →
  width cur = width (FocusStack.pixels acc) → height cur = height (FocusStack.pixels acc) →
  canvasGives has2d S cur → ALIGNMENT_DOWNSAMPLE S ≠ 0 →
  let out := FocusStack.performStacking has2d drawImage S (Some cur) depth (Some true) st in
  ∃ a fx fy im sh,
    alignFrames has2d drawImage S (FocusStack.pixels acc) cur = Ok a ∧
    FocusStack.offsetDisplay (FocusStack.state out) = (Fin fx, Fin fy) ∧
    (Rabs fx <= 100)%R ∧ (Rabs fy <= 100)%R ∧
    ((fx = 0%R ∧ fy = 0%R) ∨
     (alignX a = Fin fx ∧ alignY a = Fin fy ∧ (Fin 0.5 <? confidence a)%num = true)) ∧
    mergeFocusStack (FocusStack.pixels acc) (FocusStack.sharpness acc) cur (Fin fx) (Fin fy)
      (FocusStack.sensitivity st) (FocusStack.threshold st) (FocusStack.debugMode st)
      = Ok (im, sh) ∧
    FocusStack.accumulatorRef (FocusStack.state out) = Some (FocusStack.mkAccumulator im sh) ∧
    FocusStack.onStack out = Some (depth + 1).
Proof.
  intros Hacc (Hw & Hh & Hlen) Hwf Ew Eh Hc Hds. cbv zeta.
  assert (canvasGives has2d S (FocusStack.pixels acc)) as Hp.
  { unfold canvasGives, smallHeight in *. by rewrite <- Ew, <- Eh. }
  pose proof (alignFrames_Ok has2d drawImage S (FocusStack.pixels acc) cur Hp Hc) as Ha.
  set (a := refine _ _ _ _ _) in Ha.
  pose proof (alignSearch_shape drawImage S (FocusStack.pixels acc) cur) as Hshape.
  destruct (alignScale_real S (FocusStack.pixels acc) Hds) as [s Hs].
  assert (∃ ax ay, alignX a = Fin ax ∧ alignY a = Fin ay) as (ax & ay & Hax & Hay).
  { pose proof (refine_deadband S s (SEARCH_WINDOW S) (ALIGNMENT_DOWNSAMPLE S)
                  (smallHeight S (FocusStack.pixels acc) (ALIGNMENT_DOWNSAMPLE S))
                  (alignSearch drawImage S (FocusStack.pixels acc) cur) Hshape) as Hd.
    cbv zeta in Hd. rewrite <- Hs in Hd. fold a in Hd.
    destruct Hd as [[-> ->] | (fx & fy & -> & -> & _)]; by do 2 eexists. }
  destruct (refine_confidence S (alignScale S (FocusStack.pixels acc)) (SEARCH_WINDOW S)
              (ALIGNMENT_DOWNSAMPLE S)
              (smallHeight S (FocusStack.pixels acc) (ALIGNMENT_DOWNSAMPLE S))
              (alignSearch drawImage S (FocusStack.pixels acc) cur) Hshape)
    as [_ (c & Hconf & Hc01)]; [apply smallHeight_sign; lia |].
  fold a in Hconf.
  unfold FocusStack.performStacking. cbn [negb]. cbv zeta.
  cbn [FocusStack.setIsProcessing FocusStack.accumulatorRef]. rewrite Hacc.
  rewrite <- Ew, <- Eh, !Z.eqb_refl. cbn [negb orb]. rewrite Ha.
  rewrite Hax, Hay, Hconf.
  set (gate := ((Fin c <=? Fin 0.5)%num || (nabs (Fin ax) >? ofZ 100)%num
                || (nabs (Fin ay) >? ofZ 100)%num)).
  assert (∃ fx fy,
    (if gate then (ofZ 0, ofZ 0) else (Fin ax, Fin ay)) = (Fin fx, Fin fy) ∧
    (Rabs fx <= 100)%R ∧ (Rabs fy <= 100)%R ∧
    ((fx = 0%R ∧ fy = 0%R) ∨ (fx = ax ∧ fy = ay ∧ (Fin 0.5 <? Fin c)%num = true)))
    as (fx & fy & -> & Hfx & Hfy & Hcases).
  { destruct gate eqn:Hg.
    - exists 0%R, 0%R. split; [done |]. rewrite Rabs_R0. split; [lra |]. split; [lra |]. by left.
    - exists ax, ay. split; [done |].
      apply orb_false_iff in Hg as [Hg Hy]. apply orb_false_iff in Hg as [Hcf Hx].
      unfold ngt, ofZ in Hx, Hy. cbn [nabs nlt nle] in Hx, Hy, Hcf.
      apply Rltb_false in Hx, Hy. apply negb_false_iff, Rltb_true in Hcf.
      split; [done |]. split; [done |]. right. repeat split; try done.
      by apply Rltb_true. }
  destruct (mergeFocusStack_spec (FocusStack.pixels acc) (FocusStack.sharpness acc) cur
              (Fin fx) (Fin fy) (FocusStack.sensitivity st) (FocusStack.threshold st)
              (FocusStack.debugMode st) Hwf) as (im & sh & Hm & _).
  exists a, fx, fy, im, sh. split; [done |].
  cbn [FocusStack.setOffsetDisplay FocusStack.setIsProcessing FocusStack.sensitivity
       FocusStack.threshold FocusStack.debugMode].
  rewrite Hm. cbn [FocusStack.state FocusStack.onStack FocusStack.setIsProcessing
    FocusStack.setAccumulator FocusStack.setOffsetDisplay FocusStack.offsetDisplay
    FocusStack.accumulatorRef].
  repeat split; try done.
  destruct Hcases as [? | (-> & -> & ?)]; [by left | right]. by rewrite Hconf.
Qed.

(** Two flat frames: when a 64 by 64 frame of one colour is stacked on an
    accumulator that holds the same frame, [alignFrames] answers
    (-12, -12) with confidence 1 under the default settings, and the gate
    lets that offset through. *)
Lemma performStacking_flat64 (F : ImageData) (r g b : Z) (depth : Z)
    (st : FocusStack.State) (acc : FocusStack.Accumulator) :
  has2d 128 128 = true → keeps_solid drawImage →
  width F = 64 → height F = 64 → uniformRGB F r g b →
  FocusStack.accumulatorRef st = Some acc → FocusStack.pixels acc = F →
  wf_acc F (FocusStack.sharpness acc) →
  let out := FocusStack.performStacking has2d drawImage SETTINGS (Some F) depth (Some true) st in
  FocusStack.offsetDisplay (FocusStack.state out) = (Fin (-12), Fin (-12)) ∧
  FocusStack.onStack out = Some (depth + 1).
Proof.
  intros Hc Hsolid Hw Hh Hu Hacc Hpx Hwf. cbv zeta.
  unfold FocusStack.performStacking. cbn [negb]. cbv zeta.
  cbn [FocusStack.setIsProcessing FocusStack.accumulatorRef]. rewrite Hacc, Hpx.
  rewrite !Z.eqb_refl. cbn [negb orb].
  rewrite (alignFrames_flat64 has2d drawImage F r g b) by done.
  cbn [confidence alignX alignY].
  assert (((Fin 1 <=? Fin 0.5)%num || (nabs (Fin (-12)) >? ofZ 100)%num
           || (nabs (Fin (-12)) >? ofZ 100)%num) = false) as ->.
  { unfold ngt, ofZ. cbn [nabs nle nlt]. rewrite Rabs_left by lra.
    rewrite (proj2 (Rltb_true 0.5 1)) by lra.
    rewrite (proj2 (Rltb_false 100 (- -12))) by lra. done. }
  destruct (mergeFocusStack_spec F (FocusStack.sharpness acc) F (Fin (-12)) (Fin (-12))
              (FocusStack.sensitivity st) (FocusStack.threshold st)
              (FocusStack.debugMode st) Hwf) as (im & sh & Hm & _).
  cbn [FocusStack.setOffsetDisplay FocusStack.setIsProcessing FocusStack.sensitivity
       FocusStack.threshold FocusStack.debugMode].
  rewrite Hm. done.
Qed.

(** Two flat 640 by 480 frames: the resized frames are 128 by 96, every
    offset scores 0 and the first one scanned, (-40, -40), is rescaled by
    3: [alignFrames] answers (-120, -120) with confidence 1. *)
Lemma alignFrames_flat640 (F : ImageData) (r g b : Z) :
  has2d 128 96 = true → keeps_solid drawImage →
  width F = 640 → height F = 480 → uniformRGB F r g b →
  alignFrames has2d drawImage SETTINGS F F
  = Ok (mkAlignment (Fin (-120)) (Fin (-120)) (Fin 1)).
Proof.
  intros Hc Hsolid HwF HhF HuF.
  assert (smallHeight SETTINGS F 128 = 96) as Hh.
  { rewrite smallHeight_formula; [| lia | simpl; lra]. rewrite HwF, HhF.
    replace (IZR 480 * IZR 128 / IZR 640)%R with (IZR 96) by lra. apply Rround_IZR. }
  assert (canvasGives has2d SETTINGS F) as Hgives.
  { unfold canvasGives. change (ALIGNMENT_DOWNSAMPLE SETTINGS) with 128. by rewrite Hh. }
  rewrite alignFrames_Ok by done. f_equal.
  change (ALIGNMENT_DOWNSAMPLE SETTINGS) with 128.
  assert (alignScale SETTINGS F = Fin 3) as ->.
  { unfold alignScale, ofZ. rewrite HwF.
    cbn [SETTINGS CROP_RATIO ALIGNMENT_DOWNSAMPLE nmul ndiv].
    rewrite (proj2 (Reqb_false (IZR 128) 0)) by lra. f_equal. lra. }
  assert (∃ r' g' b', uniformRGB (resized drawImage SETTINGS F 128) r' g' b')
    as (r' & g' & b' & Hu).
  { unfold resized. cbv zeta. by eapply Hsolid. }
  assert (∀ x y, 2 ≤ x ≤ 128 - 3 → 2 ≤ y ≤ 96 - 3 →
            rdf (edgesOf drawImage SETTINGS F) (y * 128 + x) = Fin 0) as Hflat.
  { intros x y Hx Hy.
    pose proof (edges_flat (resized drawImage SETTINGS F 128) r' g' b' x y Hu) as He.
    unfold edgesOf. cbv zeta. change (ALIGNMENT_DOWNSAMPLE SETTINGS) with 128.
    change (width (resized drawImage SETTINGS F 128)) with 128 in He.
    change (height (resized drawImage SETTINGS F 128)) with (smallHeight SETTINGS F 128) in *.
    rewrite Hh in *. apply He; lia. }
  rewrite Hh.
  destruct (searchOffsets_flat 40 128 96 (edgesOf drawImage SETTINGS F)
              (edgesOf drawImage SETTINGS F)) as (Hx & Hy & Hm & Hsc); try lia.
  { intros x y Hx Hy. split; by apply Hflat. }
  unfold alignSearch. change (ALIGNMENT_DOWNSAMPLE SETTINGS) with 128.
  change (SEARCH_WINDOW SETTINGS) with 40. rewrite Hh.
  rewrite (refine_flat SETTINGS 3 40 128 96) by (done || lia).
  change (Z.opp 40) with (-40). replace (IZR (-40) * 3)%R with (-120)%R by lra.
  assert (snap SETTINGS (Fin (-120)) (Fin (-120)) = (Fin (-120), Fin (-120))) as ->; [| done].
  unfold snap. cbv zeta. rewrite nsqrt_sqsum. cbn [nlt SETTINGS DRIFT_DEADBAND].
  rewrite (proj2 (Rltb_false _ _)); [done |].
  apply Rle_trans with (sqrt 1); [rewrite sqrt_1; lra |].
  apply sqrt_le_1_alt. unfold Rsqr. lra.
Qed.

(** When such a frame is stacked on an accumulator that holds the same
    frame, the gate refuses the offset, which is beyond 100 pixels, and the
    merge is made at (0, 0). *)
Lemma performStacking_flat640 (F : ImageData) (r g b : Z) (depth : Z)
    (st : FocusStack.State) (acc : FocusStack.Accumulator) :
  has2d 128 96 = true → keeps_solid drawImage →
  width F = 640 → height F = 480 → uniformRGB F r g b →
  FocusStack.accumulatorRef st = Some acc → FocusStack.pixels acc = F →
  wf_acc F (FocusStack.sharpness acc) →
  let out := FocusStack.performStacking has2d drawImage SETTINGS (Some F) depth (Some true) st in
  FocusStack.offsetDisplay (FocusStack.state out) = (ofZ 0, ofZ 0) ∧
  FocusStack.onStack out = Some (depth + 1).
Proof.
  intros Hc Hsolid Hw Hh Hu Hacc Hpx Hwf. cbv zeta.
  unfold FocusStack.performStacking. cbn [negb]. cbv zeta.
  cbn [FocusStack.setIsProcessing FocusStack.accumulatorRef]. rewrite Hacc, Hpx.
  rewrite !Z.eqb_refl. cbn [negb orb].
  rewrite (alignFrames_flat640 F r g b) by done.
  cbn [confidence alignX alignY].
  assert (((Fin 1 <=? Fin 0.5)%num || (nabs (Fin (-120)) >? ofZ 100)%num
           || (nabs (Fin (-120)) >? ofZ 100)%num) = true) as ->.
  { unfold ngt, ofZ. cbn [nabs nle nlt]. rewrite Rabs_left by lra.
    rewrite (proj2 (Rltb_true 100 (- -120))) by lra. by rewrite orb_true_r. }
  destruct (mergeFocusStack_spec F (FocusStack.sharpness acc) F (ofZ 0) (ofZ 0)
              (FocusStack.sensitivity st) (FocusStack.threshold st)
              (FocusStack.debugMode st) Hwf) as (im & sh & Hm & _).
  cbn [FocusStack.setOffsetDisplay FocusStack.setIsProcessing FocusStack.sensitivity
       FocusStack.threshold FocusStack.debugMode].
  rewrite Hm. done.
Qed.
End panel.

(** ** Fingerprints of two frames *)



Section fingerprints.
Variable has2d : Z → Z → bool.
Variable drawImage : ImageData → num → num → num → num → Z → Z → list Z.

End fingerprints.

(** ** The point cloud *)

Lemma fold_inv_on {A B} (Inv : A → Prop) (f : A → B → A) (l : list B) (a : A) :
  (∀ a x, x ∈ l → Inv a → Inv (f a x)) → Inv a → Inv (fold_left f l a).
Proof.
  revert a. induction l as [| x l IH]; intros a H Ha; [done |].
  simpl. apply IH.
  - intros a' y Hy. apply H. by right.
  - apply H; [by left | done].
Qed.

Lemma for_break_inv {S} (Inv : S → Prop) lo hi step (body : Z → S → S * bool) (s : S) :
  (∀ i s, i ∈ zrange lo hi step → Inv s → Inv (body i s).1) →
  Inv s → Inv (for_break lo hi step body s).
Proof.
  intros Hbody Hs. unfold for_break.
  apply (fold_inv_on (λ sb : S * bool, Inv sb.1)); [| done].
  intros [s' b] i Hi Hs'. cbn [fst snd] in *. destruct b; [done |]. by apply Hbody.
Qed.

(** Loops of two iterations. *)
Lemma for_two {S} lo hi step (body : Z → S → S) (s : S) a b :
  zrange lo hi step = [a; b] → for_ lo hi step body s = body b (body a s).
Proof. intros E. unfold for_. by rewrite E. Qed.

Lemma for_break_two {S} lo hi step (body : Z → S → S * bool) (s : S) a b :
  zrange lo hi step = [a; b] →
  for_break lo hi step body s =
  if (body a s).2 then (body a s).1
  else (body b (body a s).1).1.
Proof.
  intros E. unfold for_break. rewrite E. cbn [fold_left fst snd].
  destruct (body a s) as [s' [|]]; cbn [fst snd]; [done |].
  by destruct (body b s') as [s'' [|]].
Qed.

Lemma pointCloudEffect_unfold S random hasGeometry img currentDepth st :
  currentDepth ≠ 0 → currentDepth ≠ BioModel3D.lastDepth st →
  BioModel3D.pointCloudEffect S random hasGeometry (Some img) currentDepth st =
  let s := for_ 0 (height img) 2 (λ y s,
             for_break 0 (width img) 2
               (addPoint S random (computeSharpnessMap (data img) (width img) (height img))
                  (width img) (height img) currentDepth y) s)
             (BioModel3D.cursor st, BioModel3D.positions st, BioModel3D.randomCalls st) in
  BioModel3D.mkPointCloud s.1.1 currentDepth s.1.2
    (if hasGeometry then (ofZ 0, (ofZ s.1.1 / ofZ 3)%num) else BioModel3D.drawRange st) s.2.
Proof.
  intros H0 Hl. unfold BioModel3D.pointCloudEffect.
  rewrite (proj2 (Z.eqb_neq _ _) H0), (proj2 (Z.eqb_neq _ _) Hl). cbv zeta.
  unfold addPoint.
  by destruct (for_ 0 (height img) 2 _ _) as [[c p] n].
Qed.

Lemma addPoint_inv S random sharpness w h depth y x st s :
  cloudInv st s → cloudInv st (addPoint S random sharpness w h depth y x s).1.
Proof.
  destruct s as [[c p] n]. intros (Hc & Hm & Hlen & Hout). unfold addPoint. cbv zeta.
  destruct (_ >? _)%num; [| done].
  destruct (Z.geb_spec c (BioModel3D.MAX_POINTS * 3)) as [Hfull | Hroom]; [done |].
  cbn [fst]. unfold cloudInv.
  split; [Z.div_mod_to_equations; lia |]. split; [Z.div_mod_to_equations; lia |].
  split; [by rewrite !length_aset |].
  intros i Hi. rewrite !aget_aset_ne by lia. apply Hout. lia.
Qed.

Lemma addPoint_skip S random sharpness w h depth y x s :
  (rdf sharpness (y * w + x) >? Fin (SHARPNESS_THRESHOLD S) * Fin 1.5)%num = false →
  addPoint S random sharpness w h depth y x s = (s, false).
Proof.
  intros Hu. destruct s as [[c p] n]. unfold addPoint. cbv zeta. by rewrite Hu.
Qed.

Lemma addPoint_add S random sharpness w h depth y x c p n :
  (rdf sharpness (y * w + x) >? Fin (SHARPNESS_THRESHOLD S) * Fin 1.5)%num = true →
  c < BioModel3D.MAX_POINTS * 3 →
  addPoint S random sharpness w h depth y x (c, p, n) =
  ((c + 3,
    aset (aset (aset p c ((ofZ x / ofZ w - Fin 0.5) * Fin BioModel3D.WORLD_WIDTH)%num)
            (c + 1) (nneg (ofZ y / ofZ h - Fin 0.5) * Fin BioModel3D.WORLD_HEIGHT)%num)
      (c + 2) (ofZ depth * Fin 0.05 + Fin (random n) * Fin 0.01)%num,
    Datatypes.S n), false).
Proof.
  intros Hs Hc. unfold addPoint. cbv zeta. rewrite Hs.
  by destruct (Z.geb_spec c (BioModel3D.MAX_POINTS * 3)); [lia |].
Qed.

Lemma pointCloud_loops_inv S random sharpness w h depth st :
  0 ≤ BioModel3D.cursor st ≤ 3 * BioModel3D.MAX_POINTS → BioModel3D.cursor st mod 3 = 0 →
  cloudInv st
    (for_ 0 h 2 (λ y s, for_break 0 w 2 (addPoint S random sharpness w h depth y) s)
       (BioModel3D.cursor st, BioModel3D.positions st, BioModel3D.randomCalls st)).
Proof.
  intros Hc Hm. unfold for_.
  apply (fold_inv (λ y s, for_break 0 w 2 (addPoint S random sharpness w h depth y) s)
           (cloudInv st)).
  - intros y s Hs. apply for_break_inv; [| done].
    intros x s' _ Hs'. by apply addPoint_inv.
  - unfold cloudInv. split; [lia |]. split; [done |]. split; done.
Qed.

Lemma pointCloud_effect_length S random hasGeometry currentImageData currentDepth st :
  0 ≤ BioModel3D.cursor st ≤ 3 * BioModel3D.MAX_POINTS →
  BioModel3D.cursor st mod 3 = 0 →
  length (BioModel3D.positions
            (BioModel3D.pointCloudEffect S random hasGeometry currentImageData currentDepth st))
  = length (BioModel3D.positions st).
Proof.
  intros Hc Hm. unfold BioModel3D.pointCloudEffect.
  destruct (currentDepth =? 0) eqn:E0; [done |].
  destruct currentImageData as [img |]; [| done].
  destruct (currentDepth =? BioModel3D.lastDepth st) eqn:El; [done |].
  apply Z.eqb_neq in E0, El.
  pose proof (pointCloudEffect_unfold S random hasGeometry img currentDepth st E0 El) as Hu.
  unfold BioModel3D.pointCloudEffect in Hu.
  rewrite (proj2 (Z.eqb_neq _ _) E0), (proj2 (Z.eqb_neq _ _) El) in Hu. rewrite Hu.
  cbv zeta.
  pose proof (pointCloud_loops_inv S random
                (computeSharpnessMap (data img) (width img) (height img))
                (width img) (height img) currentDepth st Hc Hm) as Hinv.
  destruct (for_ 0 (height img) 2 _ _) as [[c p] n].
  by destruct Hinv as (_ & _ & Hlen & _).
Qed.

(** X20: the effect keeps the cursor a multiple of 3 between 0 and
    [3 * MAX_POINTS] and the buffer at its length; it writes only the
    cells from the old cursor up to the new one, so that the points of
    earlier layers stay as they are; and when it adds the points of a
    frame the draw range it sets counts exactly the points stored. *)
Theorem pointCloudEffect_buffer
    (S : Settings) (random : nat → R) (hasGeometry : bool)
    (currentImageData : option ImageData) (currentDepth : Z) (st : BioModel3D.PointCloud) :
  0 ≤ BioModel3D.cursor st ≤ 3 * BioModel3D.MAX_POINTS →
  BioModel3D.cursor st mod 3 = 0 →
  let st' := BioModel3D.pointCloudEffect S random hasGeometry currentImageData currentDepth st in
  0 ≤ BioModel3D.cursor st' ≤ 3 * BioModel3D.MAX_POINTS ∧
  BioModel3D.cursor st' mod 3 = 0 ∧
  length (BioModel3D.positions st') = length (BioModel3D.positions st) ∧
  (∀ i, i < BioModel3D.cursor st ∨ BioModel3D.cursor st' ≤ i →
     aget (BioModel3D.positions st') i = aget (BioModel3D.positions st) i) ∧
  (currentDepth ≠ 0 → BioModel3D.cursor st ≤ BioModel3D.cursor st') ∧
  (hasGeometry = true → currentDepth ≠ 0 → currentDepth ≠ BioModel3D.lastDepth st →
   currentImageData ≠ None →
   BioModel3D.drawRange st' = (ofZ 0, ofZ (BioModel3D.cursor st' / 3))).
Proof.
  intros Hc Hm. cbv zeta.
  destruct (Z.eq_dec currentDepth 0) as [-> | H0].
  { unfold BioModel3D.pointCloudEffect. cbn. unfold BioModel3D.MAX_POINTS.
    repeat split; try done; lia. }
  destruct currentImageData as [img |].
  2:{ unfold BioModel3D.pointCloudEffect. rewrite (proj2 (Z.eqb_neq _ _) H0).
      repeat split; try done; lia. }
  destruct (Z.eq_dec currentDepth (BioModel3D.lastDepth st)) as [El | Hl].
  { unfold BioModel3D.pointCloudEffect. rewrite (proj2 (Z.eqb_neq _ _) H0).
    rewrite (proj2 (Z.eqb_eq _ _) El). repeat split; try done; lia. }
  rewrite pointCloudEffect_unfold by done. cbv zeta.
  pose proof (pointCloud_loops_inv S random
                (computeSharpnessMap (data img) (width img) (height img))
                (width img) (height img) currentDepth st Hc Hm) as Hinv.
  destruct (for_ 0 (height img) 2 _ _) as [[c p] n].
  destruct Hinv as (Hc' & Hm' & Hlen & Hout).
  cbn [BioModel3D.cursor BioModel3D.positions BioModel3D.drawRange fst snd].
  split; [lia |]. split; [done |]. split; [done |]. split; [done |]. split; [lia |].
  intros -> _ _ _. f_equal. unfold ofZ. cbn [ndiv].
  rewrite (proj2 (Reqb_false (IZR 3) 0)) by lra. f_equal.
  assert (c = 3 * (c / 3)) as E by (Z.div_mod_to_equations; lia).
  rewrite E at 1. rewrite mult_IZR. field.
Qed.

Lemma Rdiv_unit x w : 0 ≤ x < w → (0 <= IZR x / IZR w < 1)%R.
Proof.
  intros [H0 H1]. assert (0 < IZR w)%R as Hw by (apply IZR_lt; lia).
  apply IZR_le in H0. apply IZR_lt in H1. split.
  - by apply Rdiv_nonneg.
  - apply Rmult_lt_reg_r with (IZR w); [done |].
    unfold Rdiv. rewrite Rmult_assoc, Rinv_l by lra. lra.
Qed.

Lemma addPoint_world S random sharpness w h depth y x st s :
  (∀ n, (0 <= random n < 1)%R) →
  0 ≤ BioModel3D.cursor st →
  Z.of_nat (length (BioModel3D.positions st)) = 3 * BioModel3D.MAX_POINTS →
  0 ≤ x < w → 0 ≤ y < h →
  cloudInv st s ∧ cloudInWorld depth st s →
  cloudInWorld depth st (addPoint S random sharpness w h depth y x s).1.
Proof.
  intros Hrand Hc0 HL Hx Hy [Hinv Hworld].
  destruct s as [[c p] n]. destruct Hinv as (Hc & Hm & Hlen & Hout).
  unfold addPoint. cbv zeta.
  destruct (_ >? _)%num; [| done].
  destruct (Z.geb_spec c (BioModel3D.MAX_POINTS * 3)) as [Hfull | Hroom]; [done |].
  intros k Hk. cbn [fst snd] in *. unfold pointAt, rdf.
  destruct (Z.eq_dec (3 * k) c) as [E | Hne].
  - rewrite E. aget_simpl.
    pose proof (Rdiv_unit x w Hx) as Hu. pose proof (Rdiv_unit y h Hy) as Hv.
    assert (IZR w ≠ 0%R) as Hw0 by (apply not_0_IZR; lia).
    assert (IZR h ≠ 0%R) as Hh0 by (apply not_0_IZR; lia).
    unfold ofZ. cbn [ndiv]. rewrite (proj2 (Reqb_false _ 0) Hw0), (proj2 (Reqb_false _ 0) Hh0).
    cbn [nsub nneg nadd nmul]. do 3 eexists. split; [done |].
    pose proof (Hrand n). pose proof (Rabs_pos (IZR depth)).
    unfold BioModel3D.WORLD_WIDTH, BioModel3D.WORLD_HEIGHT.
    repeat split; lra.
  - assert (3 * k + 2 < c) by (Z.div_mod_to_equations; lia).
    rewrite !aget_aset_ne by lia. apply (Hworld k). cbn [fst]. lia.
Qed.

Lemma pointCloud_loops_world S random sharpness w h depth st :
  (∀ n, (0 <= random n < 1)%R) →
  0 ≤ BioModel3D.cursor st ≤ 3 * BioModel3D.MAX_POINTS → BioModel3D.cursor st mod 3 = 0 →
  Z.of_nat (length (BioModel3D.positions st)) = 3 * BioModel3D.MAX_POINTS →
  cloudInWorld depth st
    (for_ 0 h 2 (λ y s, for_break 0 w 2 (addPoint S random sharpness w h depth y) s)
       (BioModel3D.cursor st, BioModel3D.positions st, BioModel3D.randomCalls st)).
Proof.
  intros Hrand Hc Hm HL. unfold for_.
  match goal with |- cloudInWorld _ _ ?X =>
    enough (cloudInv st X ∧ cloudInWorld depth st X) as [_ Hgoal] by exact Hgoal
  end.
  apply (fold_inv_on (λ s, cloudInv st s ∧ cloudInWorld depth st s)
           (λ s y, for_break 0 w 2 (addPoint S random sharpness w h depth y) s)).
  - intros s y Hy Hs. apply elem_of_zrange in Hy as [Hy _]; [| lia].
    apply (for_break_inv (λ s, cloudInv st s ∧ cloudInWorld depth st s)); [| done].
    intros x s' Hx Hs'. apply elem_of_zrange in Hx as [Hx _]; [| lia].
    split; [apply addPoint_inv, Hs' |]. apply addPoint_world; (done || lia).
  - split.
    + unfold cloudInv. split; [lia |]. split; [done |]. split; done.
    + intros k Hk. cbn [fst snd] in Hk. lia.
Qed.

(** X21: every point the effect adds for layer [currentDepth] has
    [-2 ≤ x ≤ 2] and [-1.125 ≤ y ≤ 1.125], and its [z] lies within a
    millionth of [|currentDepth| + 1] of the slab from
    [0.05 * currentDepth] to [0.05 * currentDepth + 0.01]. *)
Theorem pointCloudEffect_in_world
    (S : Settings) (random : nat → R) (hasGeometry : bool)
    (currentImageData : option ImageData) (currentDepth : Z) (st : BioModel3D.PointCloud) :
  (∀ n, (0 <= random n < 1)%R) →
  0 ≤ BioModel3D.cursor st ≤ 3 * BioModel3D.MAX_POINTS →
  BioModel3D.cursor st mod 3 = 0 →
  Z.of_nat (length (BioModel3D.positions st)) = 3 * BioModel3D.MAX_POINTS →
  let st' := BioModel3D.pointCloudEffect S random hasGeometry currentImageData currentDepth st in
  Z.of_nat (length (BioModel3D.positions st')) = 3 * BioModel3D.MAX_POINTS ∧
  ∀ k, BioModel3D.cursor st ≤ 3 * k < BioModel3D.cursor st' →
    inWorld currentDepth (pointAt (BioModel3D.positions st') k).
Proof.
  intros Hrand Hc Hm HL. cbv zeta. split.
  { by rewrite (pointCloud_effect_length S random hasGeometry currentImageData currentDepth st
                    Hc Hm). }
  destruct (Z.eq_dec currentDepth 0) as [-> | H0].
  { unfold BioModel3D.pointCloudEffect. cbn. intros k Hk. lia. }
  destruct currentImageData as [img |].
  2:{ unfold BioModel3D.pointCloudEffect. rewrite (proj2 (Z.eqb_neq _ _) H0).
      intros k Hk. lia. }
  destruct (Z.eq_dec currentDepth (BioModel3D.lastDepth st)) as [El | Hl].
  { unfold BioModel3D.pointCloudEffect. rewrite (proj2 (Z.eqb_neq _ _) H0).
    rewrite (proj2 (Z.eqb_eq _ _) El). intros k Hk. lia. }
  rewrite pointCloudEffect_unfold by done. cbv zeta.
  pose proof (pointCloud_loops_world S random
                (computeSharpnessMap (data img) (width img) (height img))
                (width img) (height img) currentDepth st Hrand Hc Hm HL) as Hworld.
  destruct (for_ 0 (height img) 2 _ _) as [[c p] n].
  cbn [BioModel3D.cursor BioModel3D.positions fst snd]. apply Hworld.
Qed.

(** ** The relief *)

Lemma reliefEffect_unfold S setHSL img stage depth st :
  depth ≠ 0 →
  BioModel3D.reliefEffect S setHSL (Some img) stage depth st =
  let start := if BioModel3D.initializedRef st then BioModel3D.startStagePos st else stage in
  let s := for_ 0 BioModel3D.MODEL_RES_Y 1 (λ y s,
             for_ 0 BioModel3D.MODEL_RES_X 1 (λ x s,
               BioModel3D.reliefStep S setHSL (width img) (height img) (data img)
                 (computeSharpnessMap (data img) (width img) (height img))
                 (start.1 - stage.1)%num (start.2 - stage.2)%num
                 (ofZ (width img) / ofZ BioModel3D.MODEL_RES_X)%num
                 (ofZ (height img) / ofZ BioModel3D.MODEL_RES_Y)%num
                 (layerHeight depth) x y s) s)
             (BioModel3D.hData st, BioModel3D.cData st) in
  BioModel3D.mkRelief s.1 s.2 true true true start.
Proof.
  intros H0. unfold BioModel3D.reliefEffect.
  rewrite (proj2 (Z.eqb_neq _ _) H0). cbv zeta. unfold layerHeight.
  by destruct (for_ 0 BioModel3D.MODEL_RES_Y 1 _ _) as [h c].
Qed.

Lemma reliefStep_inv S setHSL srcW srcH srcData sharpnessMap dX dY sX sY depth h c x y s :
  Z.of_nat (length h) = reliefCells → Z.of_nat (length c) = reliefCells * 4 →
  0 ≤ x < BioModel3D.MODEL_RES_X → 0 ≤ y < BioModel3D.MODEL_RES_Y →
  reliefLoopInv depth h c s →
  reliefLoopInv depth h c
    (BioModel3D.reliefStep S setHSL srcW srcH srcData sharpnessMap dX dY sX sY
       (layerHeight depth) x y s).
Proof.
  intros Hh Hc Hx Hy. destruct s as [h' c']. intros (Hlh & Hlc & Hcells).
  cbn [fst snd] in *.
  unfold BioModel3D.reliefStep. cbv zeta.
  destruct (_ && _); [| done]. destruct (_ && _); [| done].
  destruct (_ >? _)%num; [| done].
  destruct (setHSL _ _ _) as [[tr tg] tb].
  unfold reliefCells, BioModel3D.MODEL_RES_X, BioModel3D.MODEL_RES_Y in *.
  unfold reliefLoopInv. cbn [fst snd].
  split; [by rewrite length_aset |]. split; [by rewrite !length_aset |].
  intros i Hi.
  destruct (Z.eq_dec i (y * 256 + x)) as [-> | Hne].
  - right. unfold cellRaised. split; aget_simpl; done.
  - destruct (Hcells i Hi) as [[Hkh Hkc] | [Hrh Hrc]].
    + left. split; [by aget_simpl |].
      intros k Hk. aget_simpl. by apply Hkc.
    + right. split; by aget_simpl.
Qed.

Lemma relief_loops_inv S setHSL srcW srcH srcData sharpnessMap dX dY sX sY depth h c :
  Z.of_nat (length h) = reliefCells → Z.of_nat (length c) = reliefCells * 4 →
  reliefLoopInv depth h c
    (for_ 0 BioModel3D.MODEL_RES_Y 1 (λ y s,
       for_ 0 BioModel3D.MODEL_RES_X 1 (λ x s,
         BioModel3D.reliefStep S setHSL srcW srcH srcData sharpnessMap dX dY sX sY
           (layerHeight depth) x y s) s) (h, c)).
Proof.
  intros Hh Hc. unfold for_.
  apply fold_inv_on.
  - intros s y Hy Hs. apply elem_of_zrange_unit in Hy.
    apply fold_inv_on; [| done].
    intros s' x Hx Hs'. apply elem_of_zrange_unit in Hx.
    by apply reliefStep_inv.
  - split; [done |]. split; [done |]. intros i Hi. by left.
Qed.

(** X22: on textures of the size the component allocates, the second
    effect keeps both textures at their size, and every cell of the model
    is afterwards either as it was (height and the four colour bytes) or
    opaque at the height [currentDepth * 0.02] of the current layer. *)
Theorem reliefEffect_writes_current_layer
    (S : Settings) (setHSL : num → num → num → num * num * num)
    (currentImageData : option ImageData) (stagePosition : num * num)
    (currentDepth : Z) (st : BioModel3D.Relief) :
  wf_relief st →
  let st' := BioModel3D.reliefEffect S setHSL currentImageData stagePosition currentDepth st in
  wf_relief st' ∧
  ∀ i, 0 ≤ i < reliefCells →
    cellKept (BioModel3D.hData st) (BioModel3D.cData st)
             (BioModel3D.hData st') (BioModel3D.cData st') i ∨
    cellRaised currentDepth (BioModel3D.hData st') (BioModel3D.cData st') i.
Proof.
  intros [Hh Hc]. cbv zeta.
  assert (∀ i, cellKept (BioModel3D.hData st) (BioModel3D.cData st)
                 (BioModel3D.hData st) (BioModel3D.cData st) i) as Hsame by done.
  destruct currentImageData as [img |]; [| by split; [| left]].
  destruct (Z.eq_dec currentDepth 0) as [-> | H0]; [by split; [| left] |].
  rewrite reliefEffect_unfold by done. cbv zeta.
  pose proof (relief_loops_inv S setHSL (width img) (height img) (data img)
    (computeSharpnessMap (data img) (width img) (height img))
    ((if BioModel3D.initializedRef st then BioModel3D.startStagePos st else stagePosition).1
       - stagePosition.1)%num
    ((if BioModel3D.initializedRef st then BioModel3D.startStagePos st else stagePosition).2
       - stagePosition.2)%num
    (ofZ (width img) / ofZ BioModel3D.MODEL_RES_X)%num
    (ofZ (height img) / ofZ BioModel3D.MODEL_RES_Y)%num
    currentDepth _ _ Hh Hc) as Hinv.
  destruct (for_ 0 BioModel3D.MODEL_RES_Y 1 _ _) as [h' c'].
  destruct Hinv as (Hlh & Hlc & Hcells).
  unfold wf_relief. cbn [BioModel3D.hData BioModel3D.cData fst snd] in *.
  split; [| done]. by rewrite Hlh, Hlc.
Qed.

Lemma wf_relief_initial : wf_relief BioModel3D.initialRelief.
Proof.
  unfold wf_relief, BioModel3D.initialRelief, reliefCells. cbn [BioModel3D.hData BioModel3D.cData].
  rewrite !length_replicate. unfold BioModel3D.MODEL_RES_X, BioModel3D.MODEL_RES_Y. lia.
Qed.

Lemma blank_replicate n m i :
  0 ≤ i < Z.of_nat n → Z.of_nat m = Z.of_nat n * 4 →
  cellBlank (replicate n (Fin 0)) (replicate m 0) i.
Proof.
  intros Hi Hm. split; [by apply aget_replicate |].
  intros k Hk. apply aget_replicate. lia.
Qed.

Lemma layerHeight_nonzero depth : depth ≠ 0 → layerHeight depth ≠ Fin 0.
Proof.
  intros H0 E. unfold layerHeight, ofZ in E. cbn [nmul] in E. injection E as E.
  apply Rmult_integral in E as [E | E]; [| lra].
  by apply eq_IZR_R0 in E.
Qed.

(** X23: whatever frames, stage positions and depths the two effects of
    the relief are run on, starting from the textures as they are
    created, the textures keep their size and every cell of the model is
    either blank (height 0, colour and alpha 0) or opaque at the height of
    a layer other than layer 0; so a cell is transparent exactly when its
    height is 0. *)
Theorem relief_blank_or_raised
    (S : Settings) (setHSL : num → num → num → num * num * num)
    (st : BioModel3D.Relief) :
  reliefReachable S setHSL st →
  blankOrRaised st ∧
  ∀ i, 0 ≤ i < reliefCells →
    (aget (BioModel3D.cData st) (i * 4 + 3) = Some 0 ↔
     aget (BioModel3D.hData st) i = Some (Fin 0)).
Proof.
  intros Hreach.
  enough (blankOrRaised st) as Hinv.
  { split; [done |]. intros i Hi.
    destruct (proj2 Hinv i Hi) as [[Hbh Hbc] | (d & Hd & Hrh & Hrc)].
    - split; [done |]. intros _. apply Hbc. lia.
    - split; intros E.
      + rewrite Hrc in E. discriminate.
      + rewrite Hrh in E. destruct (layerHeight_nonzero d Hd). congruence. }
  induction Hreach as [| depth st Hreach [[Hh Hc] IH] | img stage depth st Hreach [[Hh Hc] IH]].
  - split; [apply wf_relief_initial |].
    intros i Hi. left. unfold BioModel3D.initialRelief. cbn [BioModel3D.hData BioModel3D.cData].
    unfold reliefCells in Hi. apply blank_replicate; [lia |].
    unfold BioModel3D.MODEL_RES_X, BioModel3D.MODEL_RES_Y. lia.
  - unfold BioModel3D.reliefReset. destruct (depth =? 0); [| done].
    split; [split; cbn [BioModel3D.hData BioModel3D.cData]; by rewrite length_replicate |].
    intros i Hi. left. cbn [BioModel3D.hData BioModel3D.cData].
    apply blank_replicate; lia.
  - destruct img as [img |]; [| done].
    destruct (Z.eq_dec depth 0) as [-> | H0]; [done |].
    rewrite reliefEffect_unfold by done. cbv zeta.
    pose proof (relief_loops_inv S setHSL (width img) (height img) (data img)
      (computeSharpnessMap (data img) (width img) (height img))
      ((if BioModel3D.initializedRef st then BioModel3D.startStagePos st else stage).1
         - stage.1)%num
      ((if BioModel3D.initializedRef st then BioModel3D.startStagePos st else stage).2
         - stage.2)%num
      (ofZ (width img) / ofZ BioModel3D.MODEL_RES_X)%num
      (ofZ (height img) / ofZ BioModel3D.MODEL_RES_Y)%num
      depth _ _ Hh Hc) as Hinv.
    destruct (for_ 0 BioModel3D.MODEL_RES_Y 1 _ _) as [h' c'].
    destruct Hinv as (Hlh & Hlc & Hcells).
    unfold blankOrRaised, wf_relief. cbn [BioModel3D.hData BioModel3D.cData fst snd] in *.
    split; [by rewrite Hlh, Hlc |].
    intros i Hi.
    destruct (Hcells i Hi) as [[Hkh Hkc] | Hraised]; [| right; by exists depth].
    destruct (IH i Hi) as [[Hbh Hbc] | (d & Hd & Hrh & Hrc)].
    + left. split; [congruence |]. intros k Hk. rewrite Hkc by done. by apply Hbc.
    + right. exists d. split; [done |]. split; [congruence |].
      rewrite Hkc by lia. done.
Qed.

(** ** A cell that is raised *)

Lemma reliefStep_lengths S setHSL srcW srcH srcData sharpnessMap dX dY sX sY lh x y s :
  length (BioModel3D.reliefStep S setHSL srcW srcH srcData sharpnessMap dX dY sX sY
            lh x y s).1 = length s.1 ∧
  length (BioModel3D.reliefStep S setHSL srcW srcH srcData sharpnessMap dX dY sX sY
            lh x y s).2 = length s.2.
Proof.
  destruct s as [h c]. unfold BioModel3D.reliefStep. cbv zeta.
  destruct (_ && _); [| done]. destruct (_ && _); [| done].
  destruct (_ >? _)%num; [| done].
  destruct (setHSL _ _ _) as [[tr tg] tb]. cbn [fst snd].
  by rewrite !length_aset.
Qed.

Lemma reliefStep_fires S setHSL srcW srcH srcData sharpnessMap dX dY sX sY depth x y h c :
  reliefFires S srcW srcH sharpnessMap dX dY sX sY x y = true →
  Z.of_nat (length h) = reliefCells → Z.of_nat (length c) = reliefCells * 4 →
  0 ≤ x < BioModel3D.MODEL_RES_X → 0 ≤ y < BioModel3D.MODEL_RES_Y →
  cellRaised depth
    (BioModel3D.reliefStep S setHSL srcW srcH srcData sharpnessMap dX dY sX sY
       (layerHeight depth) x y (h, c)).1
    (BioModel3D.reliefStep S setHSL srcW srcH srcData sharpnessMap dX dY sX sY
       (layerHeight depth) x y (h, c)).2
    (y * BioModel3D.MODEL_RES_X + x).
Proof.
  intros Hf Hh Hc Hx Hy. unfold reliefFires in Hf. cbv zeta in Hf.
  apply andb_true_iff in Hf as [Hf Hsharp]. apply andb_true_iff in Hf as [Hcam Hsrc].
  unfold BioModel3D.reliefStep. cbv zeta. rewrite Hcam, Hsrc, Hsharp.
  destruct (setHSL _ _ _) as [[tr tg] tb]. cbn [fst snd].
  unfold reliefCells, BioModel3D.MODEL_RES_X, BioModel3D.MODEL_RES_Y in *.
  split; aget_simpl; done.
Qed.

Lemma reliefStep_keeps_raised
    S setHSL srcW srcH srcData sharpnessMap dX dY sX sY depth x y h c i :
  Z.of_nat (length h) = reliefCells → Z.of_nat (length c) = reliefCells * 4 →
  0 ≤ i < reliefCells →
  cellRaised depth h c i →
  cellRaised depth
    (BioModel3D.reliefStep S setHSL srcW srcH srcData sharpnessMap dX dY sX sY
       (layerHeight depth) x y (h, c)).1
    (BioModel3D.reliefStep S setHSL srcW srcH srcData sharpnessMap dX dY sX sY
       (layerHeight depth) x y (h, c)).2 i.
Proof.
  intros Hh Hc Hi [Hrh Hrc]. unfold BioModel3D.reliefStep. cbv zeta.
  destruct (_ && _); [| done]. destruct (_ && _); [| done].
  destruct (_ >? _)%num; [| done].
  destruct (setHSL _ _ _) as [[tr tg] tb]. cbn [fst snd].
  unfold reliefCells, BioModel3D.MODEL_RES_X, BioModel3D.MODEL_RES_Y in *.
  destruct (Z.eq_dec i (y * 256 + x)) as [-> | Hne].
  - split; aget_simpl; done.
  - split; by aget_simpl.
Qed.

(** A model cell at which the three tests pass is opaque at the height of
    the layer when the loops end. *)
Lemma relief_loops_raise S setHSL srcW srcH srcData sharpnessMap dX dY sX sY depth h c x y :
  Z.of_nat (length h) = reliefCells → Z.of_nat (length c) = reliefCells * 4 →
  0 ≤ x < BioModel3D.MODEL_RES_X → 0 ≤ y < BioModel3D.MODEL_RES_Y →
  reliefFires S srcW srcH sharpnessMap dX dY sX sY x y = true →
  let s := for_ 0 BioModel3D.MODEL_RES_Y 1 (λ y s,
             for_ 0 BioModel3D.MODEL_RES_X 1 (λ x s,
               BioModel3D.reliefStep S setHSL srcW srcH srcData sharpnessMap dX dY sX sY
                 (layerHeight depth) x y s) s) (h, c) in
  cellRaised depth s.1 s.2 (y * BioModel3D.MODEL_RES_X + x).
Proof.
  intros Hh Hc Hx Hy Hf. cbv zeta. unfold for_.
  rewrite (fold_nested (λ x y s,
    BioModel3D.reliefStep S setHSL srcW srcH srcData sharpnessMap dX dY sX sY
      (layerHeight depth) x y s)).
  assert ((x, y) ∈ positions (zrange 0 BioModel3D.MODEL_RES_Y 1)
                     (zrange 0 BioModel3D.MODEL_RES_X 1)) as Hin.
  { apply elem_of_positions. by rewrite !elem_of_zrange_unit. }
  apply list_elem_of_split in Hin as (l1 & l2 & ->).
  rewrite fold_left_app. cbn [fold_left fst snd].
  set (step := λ (s : list num * list Z) (p : Z * Z),
    BioModel3D.reliefStep S setHSL srcW srcH srcData sharpnessMap dX dY sX sY
      (layerHeight depth) p.1 p.2 s).
  assert (∀ l s, Z.of_nat (length s.1) = reliefCells ∧ Z.of_nat (length s.2) = reliefCells * 4 →
            Z.of_nat (length (fold_left step l s).1) = reliefCells ∧
            Z.of_nat (length (fold_left step l s).2) = reliefCells * 4) as Hlen.
  { intros l s Hs. apply (fold_inv_on (λ s, Z.of_nat (length s.1) = reliefCells ∧
                                           Z.of_nat (length s.2) = reliefCells * 4)); [| done].
    intros s' p _ [H1 H2]. unfold step.
    destruct (reliefStep_lengths S setHSL srcW srcH srcData sharpnessMap dX dY sX sY
                (layerHeight depth) p.1 p.2 s') as [-> ->]. done. }
  destruct (Hlen l1 (h, c) (conj Hh Hc)) as [Hh1 Hc1].
  destruct (fold_left step l1 (h, c)) as [h1 c1]. cbn [fst snd] in Hh1, Hc1.
  pose proof (reliefStep_fires S setHSL srcW srcH srcData sharpnessMap dX dY sX sY depth
                x y h1 c1 Hf Hh1 Hc1 Hx Hy) as Hraised.
  destruct (reliefStep_lengths S setHSL srcW srcH srcData sharpnessMap dX dY sX sY
              (layerHeight depth) x y (h1, c1)) as [Hh2 Hc2].
  cbn [fst snd] in Hh2, Hc2.
  destruct (BioModel3D.reliefStep _ _ _ _ _ _ _ _ _ _ _ x y (h1, c1)) as [h2 c2].
  cbn [fst snd] in *.
  enough ((Z.of_nat (length (fold_left step l2 (h2, c2)).1) = reliefCells ∧
           Z.of_nat (length (fold_left step l2 (h2, c2)).2) = reliefCells * 4) ∧
          cellRaised depth (fold_left step l2 (h2, c2)).1 (fold_left step l2 (h2, c2)).2
            (y * BioModel3D.MODEL_RES_X + x)) as [_ Hgoal] by exact Hgoal.
  apply (fold_inv_on (λ s, (Z.of_nat (length s.1) = reliefCells ∧
                            Z.of_nat (length s.2) = reliefCells * 4) ∧
                           cellRaised depth s.1 s.2 (y * BioModel3D.MODEL_RES_X + x))).
  - intros [h' c'] p _ [[H1 H2] Hr]. cbn [fst snd] in *. unfold step. split.
    + destruct (reliefStep_lengths S setHSL srcW srcH srcData sharpnessMap dX dY sX sY
                  (layerHeight depth) p.1 p.2 (h', c')) as [-> ->]. done.
    + apply reliefStep_keeps_raised; try done.
      unfold reliefCells, BioModel3D.MODEL_RES_X, BioModel3D.MODEL_RES_Y in *. lia.
  - cbn [fst snd]. split; [split; lia | done].
Qed.

(** Arithmetic of the tests on whole numbers. *)
Lemma nlt_ofZ a b : (ofZ a <? ofZ b)%num = (a <? b).
Proof.
  unfold ofZ. cbn [nlt]. destruct (Z.ltb_spec a b) as [H | H].
  - apply Rltb_true. by apply IZR_lt.
  - apply Rltb_false. by apply IZR_le.
Qed.

Lemma nge_ofZ a b : (ofZ a >=? ofZ b)%num = (b <=? a).
Proof.
  unfold nge, ofZ. cbn [nle]. destruct (Z.leb_spec b a) as [H | H].
  - apply negb_true_iff, Rltb_false. by apply IZR_le.
  - apply negb_false_iff, Rltb_true. by apply IZR_lt.
Qed.

(** The model cell the camera sees at [(x, y)] when the stage has not
    moved. *)
Lemma nfloor_stationary x (a b : Z) :
  a ≠ 0 → b ≠ 0 → nfloor (ofZ x - (ofZ 0 - ofZ 0) / (ofZ a / ofZ b)) = ofZ x.
Proof.
  intros Ha Hb. apply not_0_IZR in Ha, Hb. unfold ofZ. cbn [nsub nneg nadd ndiv].
  rewrite (proj2 (Reqb_false (IZR b) 0)) by done.
  assert (IZR a / IZR b ≠ 0)%R as Hq.
  { unfold Rdiv. apply Rmult_integral_contrapositive. split; [done |].
    by apply Rinv_neq_0_compat. }
  rewrite (proj2 (Reqb_false _ 0) Hq). cbn [nneg nadd nfloor]. unfold ofZ.
  replace (IZR x + - ((0 + - 0) / (IZR a / IZR b)))%R with (IZR x)
    by (unfold Rdiv; rewrite Rplus_opp_r, Rmult_0_l; lra).
  by rewrite Int_part_IZR.
Qed.

(** The source pixel of a model cell. *)
Lemma nfloor_ratio x (a b : Z) :
  0 < b → nfloor (ofZ x * (ofZ a / ofZ b)) = ofZ (x * a / b).
Proof.
  intros Hb. assert (IZR b ≠ 0)%R as Hb' by (apply not_0_IZR; lia).
  unfold ofZ. cbn [ndiv]. rewrite (proj2 (Reqb_false (IZR b) 0)) by done.
  cbn [nmul nfloor]. unfold ofZ.
  replace (IZR x * (IZR a / IZR b))%R with (IZR (x * a) / IZR b)%R
    by (rewrite mult_IZR; unfold Rdiv; lra).
  by rewrite Int_part_div.
Qed.

Lemma toInt_index (a b c : Z) : toInt (ofZ a * ofZ b + ofZ c) = a * b + c.
Proof.
  unfold ofZ. cbn [nmul nadd]. rewrite <- mult_IZR, <- plus_IZR. apply Rtrunc_IZR.
Qed.

(** ** Frames without a sharp pixel *)

Lemma noneAbove_rdf t sharpness i : noneAbove t sharpness → (rdf sharpness i >? t)%num = false.
Proof.
  intros Hall. destruct (rdf_elem sharpness i) as [-> | Hin].
  - by destruct t.
  - by apply (proj1 (Forall_forall _ _) Hall).
Qed.

Lemma reliefStep_unsharp S setHSL srcW srcH srcData sharpnessMap dX dY sX sY lh x y s :
  noneAbove (Fin (SHARPNESS_THRESHOLD S)) sharpnessMap →
  BioModel3D.reliefStep S setHSL srcW srcH srcData sharpnessMap dX dY sX sY lh x y s = s.
Proof.
  intros Hall. destruct s as [h c]. unfold BioModel3D.reliefStep. cbv zeta.
  destruct (_ && _); [| done]. destruct (_ && _); [| done].
  by rewrite noneAbove_rdf.
Qed.

(** X24: when no cell of the sharpness map of the frame is above
    [SHARPNESS_THRESHOLD], the second effect of the relief leaves the data
    of both textures as they are. *)
Theorem reliefEffect_needs_sharpness
    (S : Settings) (setHSL : num → num → num → num * num * num)
    (img : ImageData) (stagePosition : num * num)
    (currentDepth : Z) (st : BioModel3D.Relief) :
  noneAbove (Fin (SHARPNESS_THRESHOLD S))
    (computeSharpnessMap (data img) (width img) (height img)) →
  let st' := BioModel3D.reliefEffect S setHSL (Some img) stagePosition currentDepth st in
  BioModel3D.hData st' = BioModel3D.hData st ∧ BioModel3D.cData st' = BioModel3D.cData st.
Proof.
  intros Hall. cbv zeta.
  destruct (Z.eq_dec currentDepth 0) as [-> | H0]; [done |].
  rewrite reliefEffect_unfold by done. cbv zeta.
  cbn [BioModel3D.hData BioModel3D.cData].
  match goal with
  | |- (for_ ?lo ?hi ?st ?body ?s0).1 = _ ∧ _ =>
      assert (for_ lo hi st body s0 = s0) as ->; [| done]
  end.
  unfold for_. apply (fold_inv_on (λ s, s = (BioModel3D.hData st, BioModel3D.cData st)));
    [| done].
  intros s y _ ->.
  apply (fold_inv_on (λ s, s = (BioModel3D.hData st, BioModel3D.cData st))); [| done].
  intros s x _ ->. by apply reliefStep_unsharp.
Qed.

Lemma addPoint_unsharp S random sharpness w h depth y x s :
  noneAbove (Fin (SHARPNESS_THRESHOLD S) * Fin 1.5)%num sharpness →
  addPoint S random sharpness w h depth y x s = (s, false).
Proof.
  intros Hall. destruct s as [[c p] n]. unfold addPoint. cbv zeta.
  by rewrite noneAbove_rdf.
Qed.

(** X25: when no cell of the sharpness map of the frame is above
    [SHARPNESS_THRESHOLD * 1.5], the effect of the point cloud adds no
    point for a new layer: the cursor, the buffer and the number of calls
    of [Math.random] are as before, and the layer is recorded as the last
    one handled. *)
Theorem pointCloudEffect_needs_sharpness
    (S : Settings) (random : nat → R) (hasGeometry : bool)
    (img : ImageData) (currentDepth : Z) (st : BioModel3D.PointCloud) :
  noneAbove (Fin (SHARPNESS_THRESHOLD S) * Fin 1.5)%num
    (computeSharpnessMap (data img) (width img) (height img)) →
  currentDepth ≠ 0 →
  let st' := BioModel3D.pointCloudEffect S random hasGeometry (Some img) currentDepth st in
  BioModel3D.cursor st' = BioModel3D.cursor st ∧
  BioModel3D.positions st' = BioModel3D.positions st ∧
  BioModel3D.randomCalls st' = BioModel3D.randomCalls st ∧
  BioModel3D.lastDepth st' = currentDepth.
Proof.
  intros Hall H0. cbv zeta.
  destruct (Z.eq_dec currentDepth (BioModel3D.lastDepth st)) as [El | Hl].
  { unfold BioModel3D.pointCloudEffect. rewrite (proj2 (Z.eqb_neq _ _) H0).
    by rewrite (proj2 (Z.eqb_eq _ _) El). }
  rewrite pointCloudEffect_unfold by done. cbv zeta.
  cbn [BioModel3D.cursor BioModel3D.positions BioModel3D.randomCalls BioModel3D.lastDepth].
  match goal with
  | |- (for_ ?lo ?hi ?st ?body ?s0).1.1 = _ ∧ _ =>
      assert (for_ lo hi st body s0 = s0) as ->; [| done]
  end.
  unfold for_.
  apply (fold_inv_on (λ s, s = (BioModel3D.cursor st, BioModel3D.positions st,
                                BioModel3D.randomCalls st))); [| done].
  intros s y _ ->.
  apply (for_break_inv (λ s, s = (BioModel3D.cursor st, BioModel3D.positions st,
                                  BioModel3D.randomCalls st))); [| done].
  intros x s _ ->. by rewrite addPoint_unsharp.
Qed.

(** ** Instances of the further properties *)

Lemma bytes_cons v l : 0 ≤ v ≤ 255 → bytes l → bytes (v :: l).
Proof. intros Hv Hl. by constructor. Qed.

Ltac bytes_list := repeat (apply bytes_cons; [lia |]); constructor.

Lemma getFingerprintSimilarity_range_witness :
  (fpA = [] ∨ (length fpB < length fpA)%nat → getFingerprintSimilarity fpA fpB = NaN) ∧
  (fpA ≠ [] → (length fpA ≤ length fpB)%nat →
   ∃ s, getFingerprintSimilarity fpA fpB = Fin s ∧ (0 <= s <= 1)%R).
Proof. apply getFingerprintSimilarity_range; unfold fpA, fpB; bytes_list. Defined.

Lemma getFingerprintSimilarity_one_iff_witness :
  getFingerprintSimilarity fpA fpB = Fin 1 ↔ fpA = fpB.
Proof. apply getFingerprintSimilarity_one_iff; [discriminate | reflexivity]. Defined.

Lemma getFingerprintSimilarity_sym_witness :
  getFingerprintSimilarity fpA fpB = getFingerprintSimilarity fpB fpA.
Proof. apply getFingerprintSimilarity_sym. reflexivity. Defined.


Lemma wf_image_solid2 r g b : wf_image (solidFrame 2 2 r g b 255).
Proof. repeat split; reflexivity. Qed.

(** [tile4] has sixteen pixels, of which the loop samples two, (0, 0) and
    (2, 2). *)
Lemma getAverageColor_spec_witness :
  getAverageColor tile4 =
    rgbString (sampledMean tile4 0) (sampledMean tile4 1) (sampledMean tile4 2) ∧
  (bytes (data tile4) → ∀ c, 0 ≤ sampledMean tile4 c ≤ 255).
Proof. apply getAverageColor_spec. repeat split; reflexivity. Defined.

Lemma getAverageColor_solid_witness :
  getAverageColor (solidFrame 2 2 10 20 30 255) = rgbString 10 20 30.
Proof.
  apply getAverageColor_solid.
  - repeat split; reflexivity.
  - apply solidFrame_uniform.
Defined.

Lemma fastBlur_spec_witness :
  length (fastBlur gray9 3 3) = length gray9 ∧
  (∀ x y, 1 ≤ x ≤ 3 - 2 → 1 ≤ y ≤ 3 - 2 →
     aget (fastBlur gray9 3 3) (y * 3 + x) = Some (neighbourSum gray9 3 x y / 9)) ∧
  (∀ x y, 0 ≤ x < 3 → 0 ≤ y < 3 → x = 0 ∨ x = 3 - 1 ∨ y = 0 ∨ y = 3 - 1 →
     aget (fastBlur gray9 3 3) (y * 3 + x) = Some 0).
Proof. apply fastBlur_spec; [unfold gray9; bytes_list | reflexivity]. Defined.

Lemma computeEdgeMap_spec_witness :
  length (computeEdgeMap gray9 3 3) = Z.to_nat (3 * 3) ∧
  (∀ x y, 1 ≤ x ≤ 3 - 2 → 1 ≤ y ≤ 3 - 2 →
     aget (computeEdgeMap gray9 3 3) (y * 3 + x) =
     Some (Fin (sqrt (IZR (sobelX gray9 3 x y * sobelX gray9 3 x y
                           + sobelY gray9 3 x y * sobelY gray9 3 x y))))) ∧
  (∀ x y, 0 ≤ x < 3 → 0 ≤ y < 3 → x = 0 ∨ x = 3 - 1 ∨ y = 0 ∨ y = 3 - 1 →
     aget (computeEdgeMap gray9 3 3) (y * 3 + x) = Some (Fin 0)).
Proof. apply computeEdgeMap_spec. reflexivity. Defined.

Lemma computeEdgeMap_brightness_witness :
  computeEdgeMap ((λ v, v + 7) <$> gray9) 3 3 = computeEdgeMap gray9 3 3.
Proof. apply computeEdgeMap_brightness. reflexivity. Defined.

(** Two 7 by 7 edge maps that differ in one border cell: a search of
    radius 1 does not see the difference. *)
Lemma search_reads_interior_witness :
  searchOffsets 1 7 7 (replicate 49 (Fin 0)) (replicate 49 (Fin 0))
  = searchOffsets 1 7 7 (replicate 49 (Fin 0)) (aset (replicate 49 (Fin 0)) 0 (Fin 5)).
Proof.
  apply search_reads_interior.
  - lia.
  - reflexivity.
  - intros x y Hx Hy. unfold rdf. by rewrite aget_aset_ne by lia.
Defined.

Lemma alignFrames_self_confidence_witness :
  ∃ r, alignFrames (λ _ _, true) fillCanvas SETTINGS
         (solidFrame 64 64 128 128 128 255) (solidFrame 64 64 128 128 128 255) = Ok r ∧
       confidence r = Fin 1.
Proof.
  apply alignFrames_self_confidence.
  - reflexivity.
  - simpl. lia.
  - simpl. lra.
  - simpl. lia.
  - simpl. lia.
  - cbn [SETTINGS SEARCH_WINDOW ALIGNMENT_DOWNSAMPLE solidFrame width height].
    replace (IZR 64 * IZR 128 / IZR 64)%R with (IZR 128) by lra.
    apply IZR_le. lia.
Defined.

Lemma wf_acc_dot v : wf_acc dot [v].
Proof. split; reflexivity. Qed.

Lemma threshold_20 : (ofZ 0 <=? Fin 20)%num = true.
Proof. unfold ofZ. simpl. apply negb_true_iff, Rltb_false. lra. Qed.

Lemma mergeFocusStack_out_of_reach_witness :
  mergeFocusStack dot [Fin 5] (solidFrame 1 1 200 200 200 255) NaN (ofZ 0) (Fin 5) (Fin 20) false
  = Ok (dot, [Fin 5]).
Proof.
  apply mergeFocusStack_out_of_reach.
  - apply wf_acc_dot.
  - by left.
Defined.

Lemma mergeFocusStack_idempotent_witness :
  ∃ im sh,
    mergeFocusStack dot [Fin 5] (solidFrame 1 1 200 200 200 255) (ofZ 0) (ofZ 0)
      (Fin 5) (Fin 20) false = Ok (im, sh) ∧
    mergeFocusStack im sh (solidFrame 1 1 200 200 200 255) (ofZ 0) (ofZ 0)
      (Fin 5) (Fin 20) false = Ok (im, sh).
Proof.
  apply mergeFocusStack_idempotent.
  - apply wf_acc_dot.
  - simpl. lia.
  - apply threshold_20.
Defined.

Lemma masked_spot : masked spotPixels spotSharpness.
Proof.
  intros x y Hx Hy.
  assert (x = 0 ∨ x = 1 ∨ x = 2 ∨ x = 3) as Hx' by (cbn [spotPixels width] in Hx; lia).
  assert (y = 0 ∨ y = 1 ∨ y = 2 ∨ y = 3) as Hy' by (cbn [spotPixels height] in Hy; lia).
  destruct Hx' as [-> | [-> | [-> | ->]]], Hy' as [-> | [-> | [-> | ->]]];
    first [ left; split; reflexivity
          | right; split; [reflexivity |];
            change (sharpnessOf spotSharpness (width spotPixels) 0 0) with (Fin 50);
            unfold ngt, ofZ; cbn [nlt]; apply Rltb_true; lra ].
Qed.

(** The spot accumulator has an opaque pixel, which the merge keeps, and
    the merge of [tile4] adds two more (see [spot_merge_rules]). *)
Lemma mergeFocusStack_keeps_mask_witness :
  ∃ im sh,
    mergeFocusStack spotPixels spotSharpness tile4 (ofZ 1) (ofZ 0) (Fin 5) (Fin 20) false
      = Ok (im, sh) ∧ masked im sh.
Proof.
  apply mergeFocusStack_keeps_mask.
  - apply wf_acc_spot.
  - apply masked_spot.
  - apply threshold_20.
Defined.

Lemma wf_image_tile4 : wf_image tile4.
Proof. repeat split; reflexivity. Qed.

Lemma bytes_tile4 : bytes (data tile4).
Proof. unfold tile4. cbn [data]. bytes_list. Qed.

(** The first frame is [tile4]: its pixels (2, 1) and (2, 2), of
    sharpness 200 (see [computeSharpnessMap_tile4]), are copied, and the
    fourteen others are left transparent. *)
Lemma mergeFocusStack_first_frame_witness :
  let new := tile4 in
  let w := width new in
  let h := height new in
  ∃ im sh,
    mergeFocusStack (blankPixels w h) (blankSharpness w h) new
      (ofZ 0) (ofZ 0) (Fin 5) (Fin 20) false = Ok (im, sh) ∧
    width im = w ∧ height im = h ∧
    ∀ x y, 0 ≤ x < w → 0 ≤ y < h →
      let s := sharpnessOf (computeSharpnessMap (data new) w h) w x y in
      if (s >? Fin 20)%num
      then sharpnessOf sh w x y = s ∧
           pixelOf im x y = (if false then magenta else opaque (pixelOf new x y))
      else sharpnessOf sh w x y = Fin 0 ∧ pixelOf im x y = (0, 0, 0, 0).
Proof.
  apply (mergeFocusStack_first_frame tile4).
  - apply wf_image_tile4.
  - apply bytes_tile4.
  - apply threshold_20.
Defined.

Lemma stackInv_initial : stackInv FocusStack.initialState.
Proof. intros acc Hacc. discriminate. Qed.

Lemma threshold_initial : (ofZ 0 <=? FocusStack.threshold FocusStack.initialState)%num = true.
Proof. unfold ofZ. simpl. apply negb_true_iff, Rltb_false. lra. Qed.

Lemma wf_image_spot : wf_image spotPixels.
Proof. repeat split; reflexivity. Qed.

Lemma stackInv_spot : stackInv spotState.
Proof.
  intros acc Hacc. injection Hacc as <-. cbn [FocusStack.pixels FocusStack.sharpness].
  split; [apply wf_image_spot |]. split; [apply wf_acc_spot | apply masked_spot].
Qed.

(** A capture of [tile4] by a panel that holds the spot accumulator. *)
Lemma performStacking_keeps_accumulator_witness :
  let out := FocusStack.performStacking (λ _ _, true) fillCanvas SETTINGS
               (Some tile4) 1 (Some true) spotState in
  stackInv (FocusStack.state out) ∧
  FocusStack.thrown out ≠ Some RangeError ∧
  (Some true = Some true →
     (FocusStack.thrown out = Some NoContext ∧ FocusStack.onStack out = None ∧
      FocusStack.accumulatorRef (FocusStack.state out)
      = FocusStack.accumulatorRef spotState) ∨
     (FocusStack.thrown out = None ∧ FocusStack.onStack out ≠ None ∧
      FocusStack.isProcessing (FocusStack.state out) = false ∧
      ∃ acc, FocusStack.accumulatorRef (FocusStack.state out) = Some acc ∧
        width (FocusStack.pixels acc) = width tile4 ∧
        height (FocusStack.pixels acc) = height tile4)).
Proof.
  apply (performStacking_keeps_accumulator (λ _ _, true) fillCanvas SETTINGS
           tile4 1 (Some true) spotState).
  - apply stackInv_spot.
  - apply wf_image_tile4.
  - apply threshold_initial.
Defined.

Lemma performStacking_first_frame_witness :
  let cur := solidFrame 2 2 9 9 9 255 in
  let st := FocusStack.initialState in
  let out := FocusStack.performStacking (λ _ _, true) fillCanvas SETTINGS
               (Some cur) 0 (Some true) st in
  ∃ im sh,
    mergeFocusStack (blankPixels (width cur) (height cur))
      (blankSharpness (width cur) (height cur)) cur (ofZ 0) (ofZ 0)
      (FocusStack.sensitivity st) (FocusStack.threshold st) (FocusStack.debugMode st)
      = Ok (im, sh) ∧
    FocusStack.accumulatorRef (FocusStack.state out) = Some (FocusStack.mkAccumulator im sh) ∧
    FocusStack.backgroundColor (FocusStack.state out) = getAverageColor cur ∧
    FocusStack.offsetDisplay (FocusStack.state out) = FocusStack.offsetDisplay st ∧
    FocusStack.isProcessing (FocusStack.state out) = false ∧
    FocusStack.onStack out = Some 1 ∧ FocusStack.thrown out = None.
Proof.
  apply (performStacking_first_frame (λ _ _, true) fillCanvas SETTINGS
           (solidFrame 2 2 9 9 9 255) 0 FocusStack.initialState).
  - apply wf_image_solid2.
  - exact I.
Defined.

Lemma performStacking_wide_frames_witness :
  let cur := blankPixels 32 16 in
  let out := FocusStack.performStacking (λ _ _, true) fillCanvas SETTINGS
               (Some cur) 3 (Some true) wideState in
  ∃ im sh,
    mergeFocusStack (FocusStack.pixels wideAccumulator) (FocusStack.sharpness wideAccumulator)
      cur (ofZ 0) (ofZ 0)
      (FocusStack.sensitivity wideState) (FocusStack.threshold wideState)
      (FocusStack.debugMode wideState) = Ok (im, sh) ∧
    FocusStack.accumulatorRef (FocusStack.state out) = Some (FocusStack.mkAccumulator im sh) ∧
    FocusStack.offsetDisplay (FocusStack.state out) = (ofZ 0, ofZ 0) ∧
    FocusStack.onStack out = Some (3 + 1) ∧ FocusStack.thrown out = None.
Proof.
  apply (performStacking_wide_frames (λ _ _, true) fillCanvas SETTINGS
           (blankPixels 32 16) 3 wideState wideAccumulator).
  - reflexivity.
  - apply wf_image_blank; lia.
  - apply wf_acc_blank. lia.
  - reflexivity.
  - reflexivity.
  - reflexivity.
  - simpl. lia.
  - simpl. lra.
  - cbn [blankPixels width height SETTINGS ALIGNMENT_DOWNSAMPLE SEARCH_WINDOW].
    replace (IZR 16 * IZR 128 / IZR 32)%R with (IZR 64) by lra.
    rewrite Rround_IZR. lia.
Defined.

Lemma length_solidFrame w h r g b a :
  Z.of_nat (length (data (solidFrame w h r g b a))) = 4 * Z.of_nat (Z.to_nat (w * h)).
Proof.
  unfold solidFrame. cbn [data].
  induction (Z.to_nat (w * h)) as [| n IH]; [done |].
  cbn [replicate concat]. rewrite length_app. cbn [length]. lia.
Qed.

Lemma wf_image_solid w h r g b a : 0 < w → 0 < h → wf_image (solidFrame w h r g b a).
Proof.
  intros Hw Hh. split; [done |]. split; [done |].
  rewrite length_solidFrame. cbn [solidFrame width height]. lia.
Qed.

Lemma wf_acc_solid w h r g b a (v : num) :
  0 ≤ w * h → wf_acc (solidFrame w h r g b a) (replicate (Z.to_nat (w * h)) v).
Proof.
  intros Hwh. split.
  - rewrite length_solidFrame. cbn [solidFrame width height]. lia.
  - rewrite length_replicate. cbn [solidFrame width height]. lia.
Qed.

Lemma wf_acc_flat : wf_acc (FocusStack.pixels flatAccumulator) (FocusStack.sharpness flatAccumulator).
Proof. apply (wf_acc_solid 64 64). lia. Qed.

(** The panel holds a gray 64 by 64 frame and captures the same frame:
    [alignFrames] answers (-12, -12) with confidence 1, and the gate lets
    this offset through. *)
Example performStacking_gate_accepts :
  let out := FocusStack.performStacking (λ _ _, true) fillCanvas SETTINGS
               (Some (solidFrame 64 64 128 128 128 255)) 3 (Some true) flatState in
  FocusStack.offsetDisplay (FocusStack.state out) = (Fin (-12), Fin (-12)) ∧
  FocusStack.onStack out = Some (3 + 1).
Proof.
  apply (performStacking_flat64 (λ _ _, true) fillCanvas
           (solidFrame 64 64 128 128 128 255) 128 128 128 3 flatState flatAccumulator).
  - reflexivity.
  - apply fillCanvas_keeps_solid.
  - reflexivity.
  - reflexivity.
  - apply solidFrame_uniform.
  - reflexivity.
  - reflexivity.
  - apply wf_acc_flat.
Qed.

(** The panel holds a gray 640 by 480 frame and captures the same frame:
    [alignFrames] answers (-120, -120) with confidence 1, beyond the 100
    pixels the gate accepts, and the merge is made at (0, 0). *)
Example performStacking_gate_refuses :
  let out := FocusStack.performStacking (λ _ _, true) fillCanvas SETTINGS
               (Some (solidFrame 640 480 128 128 128 255)) 3 (Some true) vgaState in
  FocusStack.offsetDisplay (FocusStack.state out) = (ofZ 0, ofZ 0) ∧
  FocusStack.onStack out = Some (3 + 1).
Proof.
  apply (performStacking_flat640 (λ _ _, true) fillCanvas
           (solidFrame 640 480 128 128 128 255) 128 128 128 3 vgaState vgaAccumulator).
  - reflexivity.
  - apply fillCanvas_keeps_solid.
  - reflexivity.
  - reflexivity.
  - apply solidFrame_uniform.
  - reflexivity.
  - reflexivity.
  - apply (wf_acc_solid 640 480). lia.
Qed.

Lemma performStacking_offset_gate_witness :
  let cur := solidFrame 64 64 128 128 128 255 in
  let out := FocusStack.performStacking (λ _ _, true) fillCanvas SETTINGS
               (Some cur) 3 (Some true) flatState in
  ∃ a fx fy im sh,
    alignFrames (λ _ _, true) fillCanvas SETTINGS (FocusStack.pixels flatAccumulator) cur
      = Ok a ∧
    FocusStack.offsetDisplay (FocusStack.state out) = (Fin fx, Fin fy) ∧
    (Rabs fx <= 100)%R ∧ (Rabs fy <= 100)%R ∧
    ((fx = 0%R ∧ fy = 0%R) ∨
     (alignX a = Fin fx ∧ alignY a = Fin fy ∧ (Fin 0.5 <? confidence a)%num = true)) ∧
    mergeFocusStack (FocusStack.pixels flatAccumulator) (FocusStack.sharpness flatAccumulator)
      cur (Fin fx) (Fin fy)
      (FocusStack.sensitivity flatState) (FocusStack.threshold flatState)
      (FocusStack.debugMode flatState) = Ok (im, sh) ∧
    FocusStack.accumulatorRef (FocusStack.state out) = Some (FocusStack.mkAccumulator im sh) ∧
    FocusStack.onStack out = Some (3 + 1).
Proof.
  apply (performStacking_offset_gate (λ _ _, true) fillCanvas SETTINGS
           (solidFrame 64 64 128 128 128 255) 3 flatState flatAccumulator).
  - reflexivity.
  - apply wf_image_solid; lia.
  - apply wf_acc_flat.
  - reflexivity.
  - reflexivity.
  - reflexivity.
  - cbn [SETTINGS ALIGNMENT_DOWNSAMPLE]. lia.
Defined.

(** The effect on [tile4] at depth 1, from a cloud whose cursor is 0: of
    the four pixels it looks at, (0, 0), (2, 0), (0, 2) and (2, 2), the
    last has sharpness 200, above 30, and gives the one point added, at
    the centre of the world. *)
Example pointCloudEffect_tile4 (random : nat → R) (hasGeometry : bool)
    (st : BioModel3D.PointCloud) :
  BioModel3D.cursor st = 0 → BioModel3D.lastDepth st ≠ 1 →
  (3 ≤ length (BioModel3D.positions st))%nat →
  let st' := BioModel3D.pointCloudEffect SETTINGS random hasGeometry (Some tile4) 1 st in
  BioModel3D.cursor st' = 3 ∧
  pointAt (BioModel3D.positions st') 0
  = (Fin 0, Fin 0, Fin (0.05 + random (BioModel3D.randomCalls st) * 0.01)).
Proof.
  intros Hc Hl Hlen. cbv zeta. rewrite pointCloudEffect_unfold by done. cbv zeta.
  change (width tile4) with 4. change (height tile4) with 4. rewrite Hc.
  set (m := computeSharpnessMap (data tile4) 4 4).
  assert (∀ v, (Fin v >? Fin (SHARPNESS_THRESHOLD SETTINGS) * Fin 1.5)%num = Rltb 30 v) as Hthr.
  { intros v. unfold ngt. cbn [SETTINGS SHARPNESS_THRESHOLD nmul nlt]. f_equal. lra. }
  assert (∀ x y, (x, y) = (0, 0) ∨ (x, y) = (2, 0) ∨ (x, y) = (0, 2) →
            (rdf m (y * 4 + x) >? Fin (SHARPNESS_THRESHOLD SETTINGS) * Fin 1.5)%num = false)
    as Hflat.
  { intros x y Hxy. unfold m. rewrite computeSharpnessMap_tile4.
    destruct Hxy as [E | [E | E]]; injection E as -> ->;
      (change (rdf _ _) with (Fin 0)); rewrite Hthr; apply Rltb_false; lra. }
  assert ((rdf m (2 * 4 + 2) >? Fin (SHARPNESS_THRESHOLD SETTINGS) * Fin 1.5)%num = true)
    as Hsharp.
  { unfold m. rewrite computeSharpnessMap_tile4. change (rdf _ _) with (Fin 200).
    rewrite Hthr. apply Rltb_true. lra. }
  rewrite (for_two 0 4 2 _ _ 0 2) by reflexivity.
  rewrite !(for_break_two 0 4 2 _ _ 0 2) by reflexivity.
  rewrite !(addPoint_skip SETTINGS random m 4 4 1 0 0) by (apply Hflat; auto).
  cbn [fst snd].
  rewrite !(addPoint_skip SETTINGS random m 4 4 1 0 2) by (apply Hflat; auto).
  cbn [fst snd].
  rewrite !(addPoint_skip SETTINGS random m 4 4 1 2 0) by (apply Hflat; auto).
  cbn [fst snd].
  rewrite addPoint_add; [| done | unfold BioModel3D.MAX_POINTS; lia].
  cbn [fst snd BioModel3D.cursor BioModel3D.positions]. split; [done |].
  unfold pointAt, rdf. aget_simpl.
  unfold ofZ, BioModel3D.WORLD_WIDTH, BioModel3D.WORLD_HEIGHT. cbn [ndiv].
  rewrite (proj2 (Reqb_false (IZR 4) 0)) by lra. cbn [nsub nneg nadd nmul].
  f_equal; [f_equal |]; f_equal; lra.
Qed.

Lemma pointCloudEffect_buffer_witness :
  let st := emptyCloud in
  let st' := BioModel3D.pointCloudEffect SETTINGS (λ _, 0.5%R) true (Some tile4) 1 st in
  0 ≤ BioModel3D.cursor st' ≤ 3 * BioModel3D.MAX_POINTS ∧
  BioModel3D.cursor st' mod 3 = 0 ∧
  length (BioModel3D.positions st') = length (BioModel3D.positions st) ∧
  (∀ i, i < BioModel3D.cursor st ∨ BioModel3D.cursor st' ≤ i →
     aget (BioModel3D.positions st') i = aget (BioModel3D.positions st) i) ∧
  (1 ≠ 0 → BioModel3D.cursor st ≤ BioModel3D.cursor st') ∧
  (true = true → 1 ≠ 0 → 1 ≠ BioModel3D.lastDepth st →
   Some tile4 ≠ None →
   BioModel3D.drawRange st' = (ofZ 0, ofZ (BioModel3D.cursor st' / 3))).
Proof.
  apply (pointCloudEffect_buffer SETTINGS (λ _, 0.5%R) true (Some tile4) 1 emptyCloud).
  - unfold emptyCloud, BioModel3D.MAX_POINTS. cbn [BioModel3D.cursor]. lia.
  - reflexivity.
Defined.

(** In particular from the empty cloud, with [Math.random] giving 0.5:
    one point, at (0, 0, 0.055). *)
Example pointCloudEffect_tile4_empty :
  let st' := BioModel3D.pointCloudEffect SETTINGS (λ _, 0.5%R) true (Some tile4) 1 emptyCloud in
  BioModel3D.cursor st' = 3 ∧
  pointAt (BioModel3D.positions st') 0
  = (Fin 0, Fin 0, Fin (0.05 + 0.5 * 0.01)).
Proof.
  apply (pointCloudEffect_tile4 (λ _, 0.5%R) true emptyCloud).
  - reflexivity.
  - unfold emptyCloud. cbn [BioModel3D.lastDepth]. lia.
  - unfold emptyCloud. cbn [BioModel3D.positions]. rewrite length_replicate.
    unfold BioModel3D.MAX_POINTS. lia.
Qed.

Lemma pointCloudEffect_in_world_witness :
  let st := emptyCloud in
  let st' := BioModel3D.pointCloudEffect SETTINGS (λ _, 0.5%R) true (Some tile4) 1 st in
  Z.of_nat (length (BioModel3D.positions st')) = 3 * BioModel3D.MAX_POINTS ∧
  ∀ k, BioModel3D.cursor st ≤ 3 * k < BioModel3D.cursor st' →
    inWorld 1 (pointAt (BioModel3D.positions st') k).
Proof.
  apply (pointCloudEffect_in_world SETTINGS (λ _, 0.5%R) true (Some tile4) 1 emptyCloud).
  - intros n. lra.
  - unfold emptyCloud, BioModel3D.MAX_POINTS. cbn [BioModel3D.cursor]. lia.
  - reflexivity.
  - unfold emptyCloud. cbn [BioModel3D.positions].
    rewrite length_replicate. apply Z2Nat.id. unfold BioModel3D.MAX_POINTS. lia.
Defined.

(** The sharpness map of a frame of one pixel has no cell above 0. *)
Lemma noneAbove_dot t :
  (0 <= t)%R → noneAbove (Fin t) (computeSharpnessMap (data dot) (width dot) (height dot)).
Proof.
  intros Ht. change (computeSharpnessMap (data dot) (width dot) (height dot)) with [Fin 0].
  constructor; [| constructor]. unfold ngt. cbn [nlt]. apply Rltb_false. lra.
Qed.

(** The second effect on [tile4] at depth 1, before the stage has moved:
    the model cell (160, 80) shows the pixel (2, 2) of the frame, whose
    sharpness 200 is above the threshold, and is raised to the height of
    layer 1. *)
Example reliefEffect_tile4 (st : BioModel3D.Relief) :
  wf_relief st → BioModel3D.initializedRef st = false →
  let st' := BioModel3D.reliefEffect SETTINGS lightness (Some tile4) (ofZ 0, ofZ 0) 1 st in
  cellRaised 1 (BioModel3D.hData st') (BioModel3D.cData st') (80 * BioModel3D.MODEL_RES_X + 160).
Proof.
  intros [Hh Hc] Hinit. cbv zeta. rewrite reliefEffect_unfold by done. cbv zeta.
  rewrite Hinit. cbn [fst snd BioModel3D.hData BioModel3D.cData].
  change (width tile4) with 4. change (height tile4) with 4.
  apply (relief_loops_raise SETTINGS lightness 4 4 (data tile4)
           (computeSharpnessMap (data tile4) 4 4)
           (ofZ 0 - ofZ 0)%num (ofZ 0 - ofZ 0)%num
           (ofZ 4 / ofZ BioModel3D.MODEL_RES_X)%num (ofZ 4 / ofZ BioModel3D.MODEL_RES_Y)%num
           1 (BioModel3D.hData st) (BioModel3D.cData st) 160 80 Hh Hc).
  - unfold BioModel3D.MODEL_RES_X. lia.
  - unfold BioModel3D.MODEL_RES_Y. lia.
  - unfold reliefFires. cbv zeta.
    unfold BioModel3D.MODEL_RES_X, BioModel3D.MODEL_RES_Y.
    rewrite !nfloor_stationary by lia. rewrite !nfloor_ratio by lia.
    rewrite toInt_index, !nge_ofZ, !nlt_ofZ, computeSharpnessMap_tile4.
    change (rdf _ (80 * 4 / 144 * 4 + 160 * 4 / 256)) with (Fin 200).
    unfold ngt. cbn [SETTINGS SHARPNESS_THRESHOLD nlt].
    rewrite (proj2 (Rltb_true 20 200)) by lra. reflexivity.
Qed.

Lemma reliefEffect_writes_current_layer_witness :
  let st := BioModel3D.initialRelief in
  let st' := BioModel3D.reliefEffect SETTINGS lightness (Some tile4) (ofZ 0, ofZ 0) 1 st in
  wf_relief st' ∧
  ∀ i, 0 ≤ i < reliefCells →
    cellKept (BioModel3D.hData st) (BioModel3D.cData st)
             (BioModel3D.hData st') (BioModel3D.cData st') i ∨
    cellRaised 1 (BioModel3D.hData st') (BioModel3D.cData st') i.
Proof.
  apply (reliefEffect_writes_current_layer SETTINGS lightness
           (Some tile4) (ofZ 0, ofZ 0) 1 BioModel3D.initialRelief).
  apply wf_relief_initial.
Defined.

(** In particular from the textures as they are created. *)
Example reliefEffect_tile4_initial :
  let st' := BioModel3D.reliefEffect SETTINGS lightness (Some tile4) (ofZ 0, ofZ 0) 1
               BioModel3D.initialRelief in
  cellRaised 1 (BioModel3D.hData st') (BioModel3D.cData st') (80 * BioModel3D.MODEL_RES_X + 160).
Proof.
  apply (reliefEffect_tile4 BioModel3D.initialRelief); [apply wf_relief_initial | reflexivity].
Qed.

Lemma relief_blank_or_raised_witness :
  let st := BioModel3D.reliefEffect SETTINGS lightness (Some tile4)
              (ofZ 0, ofZ 0) 1 (BioModel3D.reliefReset 1 BioModel3D.initialRelief) in
  blankOrRaised st ∧
  ∀ i, 0 ≤ i < reliefCells →
    (aget (BioModel3D.cData st) (i * 4 + 3) = Some 0 ↔
     aget (BioModel3D.hData st) i = Some (Fin 0)).
Proof.
  apply (relief_blank_or_raised SETTINGS lightness).
  apply reachable_effect, reachable_reset, reachable_initial.
Defined.

Lemma reliefEffect_needs_sharpness_witness :
  let st := BioModel3D.initialRelief in
  let st' := BioModel3D.reliefEffect SETTINGS lightness (Some dot) (ofZ 0, ofZ 0) 1 st in
  BioModel3D.hData st' = BioModel3D.hData st ∧ BioModel3D.cData st' = BioModel3D.cData st.
Proof.
  apply (reliefEffect_needs_sharpness SETTINGS lightness dot (ofZ 0, ofZ 0) 1
           BioModel3D.initialRelief).
  apply noneAbove_dot. simpl. lra.
Defined.

Lemma pointCloudEffect_needs_sharpness_witness :
  let st := emptyCloud in
  let st' := BioModel3D.pointCloudEffect SETTINGS (λ _, 0%R) true (Some dot) 1 st in
  BioModel3D.cursor st' = BioModel3D.cursor st ∧
  BioModel3D.positions st' = BioModel3D.positions st ∧
  BioModel3D.randomCalls st' = BioModel3D.randomCalls st ∧
  BioModel3D.lastDepth st' = 1.
Proof.
  apply (pointCloudEffect_needs_sharpness SETTINGS (λ _, 0%R) true dot 1 emptyCloud).
  - cbn [nmul]. apply noneAbove_dot. simpl. lra.
  - lia.
Defined.
